(** * cideMOD: particle intercalation store and degradation equations

    A shallow embedding of

    - [cideMOD/models/particle_models/explicit_coupling.py]
      (class [StandardParticleIntercalation]),
    - [cideMOD/models/degradation/equations.py] (classes [LAM] and [SEI])
      and
    - [cideMOD/helpers/warehouse.py] (class [Warehouse]),

    together with the properties of these classes that the design
    document of the particle / degradation core states.

    Number model.  The Python code computes on IEEE doubles (numpy
    [float64], UFL scalars).  Here a double is an ideal real number
    ([R] of the Standard Library): rounding, infinities and NaN are not
    represented.  Division is the Standard Library's total division;
    a statement that relies on the value of a quotient assumes that
    its divisor is not zero. *)

From Stdlib Require Import Reals Lra Lia ZArith String DecimalString DecimalNat.
From stdpp Require Import base list.

Open Scope R_scope.

(** ** Python outcomes *)

(** The exceptions the modelled code can raise. *)
Inductive exn : Type :=
| AssertionError (msg : string)
| IndexError
| ValueError.

(** A call either returns a value or raises. *)
Inductive result (A : Type) : Type :=
| Ok (a : A)
| Raise (e : exn).
Arguments Ok {A} a.
Arguments Raise {A} e.

Definition bind {A B} (r : result A) (k : A -> result B) : result B :=
  match r with
  | Ok a => k a
  | Raise e => Raise e
  end.

Notation "'let!' x ':=' r 'in' k" := (bind r (fun x => k))
  (at level 10, x name, r at level 100, k at level 200).

(** ["{}".format(n)] for a length [n] *)
Definition format_nat (n : nat) : string :=
  NilEmpty.string_of_uint (Nat.to_uint n).

(** [assert cond, msg] *)
Definition py_assert (cond : bool) (msg : string) : result unit :=
  if cond then Ok tt else Raise (AssertionError msg).

(** Run [f] on every element, left to right, stopping at the first raise
    (a list comprehension / a [for] loop that appends). *)
Fixpoint mapM {A B} (f : A -> result B) (l : list A) : result (list B) :=
  match l with
  | [] => Ok []
  | a :: l' => let! b := f a in let! bs := mapM f l' in Ok (b :: bs)
  end.

(** [l[i]] for a Python list and [0 <= i]. *)
Definition py_index {A} (l : list A) (i : nat) : result A :=
  match l !! i with
  | Some a => Ok a
  | None => Raise IndexError
  end.

(** ** numpy arrays of doubles *)

(** A 3-dimensional array, [a[node][material][dof]]. *)
Abbreviation array3 := (list (list (list R))).
(** A 2-dimensional array, [a[node][material]]. *)
Abbreviation array2 := (list (list R)).

(** [a.shape == (n, m, d)] *)
Definition has_shape (n m d : nat) (a : array3) : Prop :=
  length a = n /\
  Forall (fun row => length row = m /\ Forall (fun v => length v = d) row) a.

(** [a.shape == (n, m)] *)
Definition has_shape2 (n m : nat) (a : array2) : Prop :=
  length a = n /\ Forall (fun row => length row = m) a.

(** [a[n, i, d]] *)
Definition get3 (a : array3) (n i d : nat) : option R :=
  row ← a !! n; v ← row !! i; v !! d.

Definition get2 (a : array2) (n i : nat) : option R :=
  row ← a !! n; row !! i.

(** Element-wise operations of numpy on arrays of one shape. *)
Definition map3 (f : R -> R) (a : array3) : array3 :=
  map (map (map f)) a.

Definition zip3 (f : R -> R -> R) (a b : array3) : array3 :=
  zip_with (zip_with (zip_with f)) a b.

(** [s * a] for a scalar [s] *)
Definition scale3 (s : R) (a : array3) : array3 := map3 (Rmult s) a.
(** [a - b], [a + b] *)
Definition sub3 (a b : array3) : array3 := zip3 Rminus a b.
Definition add3 (a b : array3) : array3 := zip3 Rplus a b.

(** [dst[:,:,:] = src[:,:,:]]: the values of [src] are copied, element
    by element, into the buffer of [dst]. *)
Definition assign3 (dst src : array3) : array3 :=
  zip3 (fun _ y => y) dst src.

(** [c.sum()] *)
Definition sum_list (c : list R) : R := foldr Rplus 0 c.

(** The entries of an array in C order ([a.ravel()]). *)
Definition ravel (a : array3) : list R := concat (concat a).

(** [numpy.linalg.norm(a)] with the default [ord]: the 2-norm of the
    flattened array, [sqrt(sum(abs(x)**2))]. *)
Definition norm (a : array3) : R :=
  sqrt (sum_list (map (fun x => Rabs x * Rabs x) (ravel a))).

(** [db[:, i, :].fill(c)]: the array with material [i] overwritten, at
    every node and dof, by [c].  numpy raises [IndexError] when [i] is
    not below [db.shape[1]]. *)
Definition filled (i : nat) (c : R) (db : array3) : array3 :=
  map (alter (map (fun _ => c)) i) db.

Definition fill_material (i : nat) (c : R) (db : array3) : result array3 :=
  if forallb (fun row => bool_decide (i < length row)%nat) db
  then Ok (filled i c db)
  else Raise IndexError.

(** The power [x ** y] of two doubles, where it is a real number: for a
    positive base [exp (y * ln x)]; for base 0, 1 at exponent 0 and 0 at
    a positive exponent.  Outside (a negative base, 0 to a negative
    exponent: NaN, infinity or an exception in Python) the value below is
    a placeholder that no statement relies on. *)
Definition real_pow (x y : R) : R :=
  if Req_dec_T x 0 then (if Req_dec_T y 0 then 1 else 0) else Rpower x y.

Module ExplicitCoupling.

(** ** [explicit_coupling.py] *)

(** A configured initial concentration: a Python number, a [float] or
    an [int]. *)
Inductive number : Type :=
| Float (x : R)
| Int (z : Z).

(** What the class reads of an active material.  The material class is
    declared outside this module; [c_s_ini_cfg] is the object the
    attribute [c_s_ini] holds. *)
Record Material : Type := {
  index : nat;
  c_s_ini_cfg : number;
  c_s_max : R;
  eps_s : R;
  k_0 : R;
  k_0_Ea : R;
  k_0_Tref : R;
  U : R -> R  (* open-circuit potential as a function of c_s/c_s_max *)
}.

(** [material.c_s_ini] as a number: what [get_average_c_s] subtracts
    from a [float] array (numpy converts an [int]). *)
Definition c_s_ini (material : Material) : R :=
  match c_s_ini_cfg material with
  | Float x => x
  | Int z => IZR z
  end.

(** A value handed to [initial_guess] in the list [c_s_ini]. *)
Inductive pyval : Type :=
| PyFloat (x : R)       (* a Python float *)
| PyConstant (x : R)    (* a dolfin Constant, [values()[0] == x] *)
| PyInt (z : Z).        (* an int: not an instance of [float] *)

(** [material.c_s_ini] as the object the loop of [initial_guess]
    meets. *)
Definition c_s_ini_value (material : Material) : pyval :=
  match c_s_ini_cfg material with
  | Float x => PyFloat x
  | Int z => PyInt z
  end.

(** The state of a [StandardParticleIntercalation] object that the
    modelled methods touch.  [build_db] allocates the three databases
    with [numpy.empty((nodes, len(particles), len(dofs)))]: their
    contents are arbitrary, their shape is fixed ([store_ok]). *)
Record store : Type := {
  particles : list Material;
  nodes : nat;
  n_dofs : nat;
  c_s_0_db : array3;
  c_s_1_db : array3;
  c_s__1_db : array3
}.

Definition store_ok (s : store) : Prop :=
  has_shape (nodes s) (length (particles s)) (n_dofs s) (c_s_0_db s) /\
  has_shape (nodes s) (length (particles s)) (n_dofs s) (c_s_1_db s) /\
  has_shape (nodes s) (length (particles s)) (n_dofs s) (c_s__1_db s).

Definition set_c_s_0_db (a : array3) (s : store) : store :=
  {| particles := particles s; nodes := nodes s; n_dofs := n_dofs s;
     c_s_0_db := a; c_s_1_db := c_s_1_db s; c_s__1_db := c_s__1_db s |}.
Definition set_c_s_1_db (a : array3) (s : store) : store :=
  {| particles := particles s; nodes := nodes s; n_dofs := n_dofs s;
     c_s_0_db := c_s_0_db s; c_s_1_db := a; c_s__1_db := c_s__1_db s |}.
Definition set_c_s__1_db (a : array3) (s : store) : store :=
  {| particles := particles s; nodes := nodes s; n_dofs := n_dofs s;
     c_s_0_db := c_s_0_db s; c_s_1_db := c_s_1_db s; c_s__1_db := a |}.

(** The three retained time levels of the particle state. *)
Inductive generation : Type := Current | Previous | PrevPrev.

Definition db_of (g : generation) (s : store) : array3 :=
  match g with
  | Current => c_s_1_db s
  | Previous => c_s_0_db s
  | PrevPrev => c_s__1_db s
  end.

(** A method mutates the object and returns or raises: the store after
    the call comes with the outcome, also when the call raises. *)
Definition outcome : Type := (store * result unit)%type.

(** Lines 103-105 of [initial_guess]: unwrap a [Constant], then
    [assert isinstance(c_s, float)]. *)
Definition as_float (v : pyval) : result R :=
  match v with
  | PyFloat x => Ok x
  | PyConstant x => Ok x
  | PyInt _ => Raise (AssertionError "Initial Concentration must be of type Float")
  end.

(** One turn of the loop of [initial_guess] (lines 103-108). *)
Definition initial_guess_step (i : nat) (v : pyval) (s : store) : outcome :=
  match as_float v with
  | Raise e => (s, Raise e)
  | Ok c =>
    match fill_material i c (c_s_0_db s) with
    | Raise e => (s, Raise e)
    | Ok a0 =>
      let s0 := set_c_s_0_db a0 s in
      match fill_material i c (c_s_1_db s0) with
      | Raise e => (s0, Raise e)
      | Ok a1 =>
        let s1 := set_c_s_1_db a1 s0 in
        match fill_material i c (c_s__1_db s1) with
        | Raise e => (s1, Raise e)
        | Ok a2 => (set_c_s__1_db a2 s1, Ok tt)
        end
      end
    end
  end.

(** The store after a turn of the loop that passed the type check:
    the three fills of lines 106-108. *)
Definition fill_store (i : nat) (c : R) (s : store) : store :=
  {| particles := particles s; nodes := nodes s; n_dofs := n_dofs s;
     c_s_0_db := filled i c (c_s_0_db s);
     c_s_1_db := filled i c (c_s_1_db s);
     c_s__1_db := filled i c (c_s__1_db s) |}.

(** Every value of a list passes the type check of line 105. *)
Definition all_float (vals : list pyval) : Prop :=
  Forall (fun v => exists c, as_float v = Ok c) vals.

(** [for i, c_s in enumerate(c_s_ini): ...], from index [i] on. *)
Fixpoint initial_guess_loop (i : nat) (vals : list pyval) (s : store) : outcome :=
  match vals with
  | [] => (s, Ok tt)
  | v :: vals' =>
    match initial_guess_step i v s with
    | (s', Ok _) => initial_guess_loop (S i) vals' s'
    | (s', Raise e) => (s', Raise e)
    end
  end.

(** The list the loop of [initial_guess] runs over, when the length
    check passes: the argument when it is not empty, else each
    material's configured [c_s_ini]. *)
Definition effective_c_s_ini (c_s_ini_arg : list pyval) (s : store) : list pyval :=
  match c_s_ini_arg with
  | [] => map c_s_ini_value (particles s)
  | _ => c_s_ini_arg
  end.

(** [initial_guess(self, c_s_ini=[])] *)
Definition initial_guess (c_s_ini_arg : list pyval) (s : store) : outcome :=
  match c_s_ini_arg with
  | _ :: _ =>
    match py_assert (bool_decide (length c_s_ini_arg = length (particles s)))
                    ("Initial concentration list must be of lenght "
                     ++ format_nat (length (particles s))) with
    | Raise e => (s, Raise e)
    | Ok _ => initial_guess_loop 0 c_s_ini_arg s
    end
  | [] => initial_guess_loop 0 (effective_c_s_ini [] s) s
  end.

(** [advance_problem(self)] *)
Definition advance_problem (s : store) : store :=
  let s1 := set_c_s__1_db (assign3 (c_s__1_db s) (c_s_0_db s)) s in
  set_c_s_0_db (assign3 (c_s_0_db s1) (c_s_1_db s1)) s1.

(** [get_time_filter_error(self, nu, tau)] *)
Definition get_time_filter_error (nu tau : R) (s : store) : R :=
  let error :=
    scale3 nu
      (add3 (sub3 (scale3 (1 / (1 + tau)) (c_s_1_db s)) (c_s_0_db s))
            (scale3 (tau / (1 + tau)) (c_s__1_db s))) in
  norm error.

(** The local [error] of [get_time_filter_error] (line 186). *)
Definition filter_error_array (nu tau : R) (s : store) : array3 :=
  scale3 nu
    (add3 (sub3 (scale3 (1 / (1 + tau)) (c_s_1_db s)) (c_s_0_db s))
          (scale3 (tau / (1 + tau)) (c_s__1_db s))).

(** [c.sum()/c.size] *)
Definition mean (c : list R) : R := sum_list c / INR (length c).

(** [get_average_c_s(self, increment=False)].  Column [i] of the result
    is written for each material in turn; row [n] of the result is
    therefore made of one entry per material, from row [n] of
    [c_s_1_db], which holds one vector per material ([store_ok]). *)
Definition get_average_c_s (increment : bool) (s : store) : array2 :=
  map (fun row =>
         zip_with (fun material c =>
                     if increment then mean c - c_s_ini material else mean c)
                  (particles s) row)
      (c_s_1_db s).

(** [_j_li(self, c_s, c_e, phi, T, k_0, k_0_Ea, k_0_Tref, alpha, F, R, OCV, c_s_max)],
    at one point of the particle. *)
Definition _j_li (c_s c_e phi T k_0 k_0_Ea k_0_Tref alpha F R_ : R)
                 (OCV : R -> R) (c_s_max : R) : R :=
  let eta := phi - OCV (c_s / c_s_max) in
  let BV := exp (alpha * F * eta / (R_ * T)) - exp (- alpha * F * eta / (R_ * T)) in
  let k_0_eff := k_0 * exp (k_0_Ea / R_ * (1 / k_0_Tref - 1 / T)) in
  let i_0 := k_0_eff * real_pow c_e alpha * real_pow (c_s_max - c_s) alpha
             * real_pow c_s alpha in
  i_0 * BV.

(** [Center.inside(x, on_boundary)] and [Surface.inside(x, on_boundary)]
    at the point [x[0] = x0]; [DOLFIN_EPS] is dolfin's tolerance. *)
Definition Center_inside (DOLFIN_EPS x0 : R) (on_boundary : bool) : bool :=
  if Rlt_dec x0 (0 + DOLFIN_EPS) then on_boundary else false.

Definition Surface_inside (DOLFIN_EPS x0 : R) (on_boundary : bool) : bool :=
  if Rgt_dec x0 (1 - DOLFIN_EPS) then on_boundary else false.

(** The value [build_mesh] leaves in [boundaries] for a boundary entity
    at [x0]: the mesh function starts at 0, [center.mark(boundaries, 1)]
    writes 1 where [Center.inside] holds, then
    [surf.mark(boundaries, 2)] writes 2 where [Surface.inside] holds. *)
Definition boundary_marker (DOLFIN_EPS x0 : R) (on_boundary : bool) : nat :=
  let after_center :=
    if Center_inside DOLFIN_EPS x0 on_boundary then 1%nat else 0%nat in
  if Surface_inside DOLFIN_EPS x0 on_boundary then 2%nat else after_center.

(** [c_s_surf(self)].  [c_surf_index] holds the dofs whose coordinate is
    at the surface (computed by [build_db] from the mesh).  Indexing the
    last axis with it checks every index against [shape[2]] and gives an
    array with one entry per index for every node and material;
    [reshape(shape[0], shape[1])] refuses it unless the sizes agree. *)
Definition c_s_surf (c_surf_index : list nat) (s : store) : result array2 :=
  if forallb (fun k => bool_decide (k < n_dofs s)%nat) c_surf_index then
    let! picked :=
      mapM (fun row => mapM (fun v => mapM (py_index v) c_surf_index) row)
           (c_s_1_db s) in
    if bool_decide (nodes s * length (particles s) * length c_surf_index
                    = nodes s * length (particles s))%nat
    then Ok (map (fun row => concat row) picked)
    else Raise ValueError
  else Raise IndexError.

End ExplicitCoupling.

(** ** [numpy.polynomial.polynomial] *)

(** A polynomial is the sequence of its coefficients, lowest degree
    first. *)
Abbreviation poly := (list R).

(** [polyval(x, c)]: Horner's scheme from the last coefficient down;
    indexing [c[-1]] of an empty sequence raises. *)
Fixpoint horner (x : R) (c : poly) : R :=
  match c with
  | [] => 0
  | a :: c' => a + horner x c' * x
  end.

Definition polyval (x : R) (c : poly) : result R :=
  match c with
  | [] => Raise IndexError
  | _ => Ok (horner x c)
  end.

(** [pu.trimseq]: drop the trailing zeros, keep at least one entry. *)
Fixpoint trimseq (c : poly) : poly :=
  match c with
  | [] => []
  | a :: c' =>
    match trimseq c' with
    | [] => [a]
    | [b] => if Req_dec_T b 0 then [a] else [a; b]
    | t => a :: t
    end
  end.

(** [numpy.convolve(c1, c2)] for two non-empty sequences. *)
Fixpoint poly_add (c1 c2 : poly) : poly :=
  match c1, c2 with
  | [], _ => c2
  | _, [] => c1
  | a :: c1', b :: c2' => (a + b) :: poly_add c1' c2'
  end.

Fixpoint convolve (c1 c2 : poly) : poly :=
  match c1 with
  | [] => []
  | [a] => map (Rmult a) c2
  | a :: c1' => poly_add (map (Rmult a) c2) (0 :: convolve c1' c2)
  end.

(** [polymul(c1, c2)]: [as_series] refuses an empty coefficient array and
    trims both arguments; the product is trimmed again. *)
Definition product (c1 c2 : poly) : poly :=
  trimseq (convolve (trimseq c1) (trimseq c2)).

Definition polymul (c1 c2 : poly) : result poly :=
  match c1, c2 with
  | [], _ | _, [] => Raise ValueError
  | _, _ => Ok (product c1 c2)
  end.

(** [polyint(c)] with the defaults [m=1, k=[], lbnd=0]: the constant
    zero polynomial is kept, any other gets its antiderivative with
    value 0 at 0.  Reading [c[0]] of an empty array raises. *)
Definition antiderivative (c : poly) : poly :=
  match c with
  | [] => []
  | [a] => if Req_dec_T a 0 then [a] else [0; a]
  | a :: c' => 0 :: a :: imap (fun j cj => cj / INR (j + 2)) c'
  end.

Definition polyint (c : poly) : result poly :=
  match c with
  | [] => Raise IndexError
  | _ => Ok (antiderivative c)
  end.

(** ** [degradation/equations.py]: class [LAM] *)

Module LAM.

(** The configuration [electrode.LAM]. *)
Record LAMParams : Type := {
  model : string;
  beta : R;
  m : R
}.

(** What [LAM] reads of an active material. *)
Record ActiveMaterial : Type := {
  critical_stress : R;
  omega : R;
  young : R;
  poisson : R
}.

(** [conditional(gt(s, 0), s, Constant(0.))] at one point. *)
Definition conditional_gt0 (s : R) : R :=
  if Rlt_dec 0 s then s else 0.

(** [hydrostatic_stress(self, c_s_r_average, c_s)], the fields taken at
    one macroscopic node. *)
Definition hydrostatic_stress (active_material : list ActiveMaterial)
    (c_s_r_average c_s : list R) : result (list R) :=
  mapM (fun '(i, am) =>
          let! avg := py_index c_s_r_average i in
          let! surf := py_index c_s i in
          Ok (2 / 9 * omega am * young am / (1 - poisson am) * (3 * avg - surf)))
       (imap (fun i am => (i, am)) active_material).

(** [eps_s_variation(self, sigma_h, delta_t)], the fields taken at one
    macroscopic node: [sigma_h] holds one value per active material. *)
Definition eps_s_variation (LAM : LAMParams)
    (active_material : list ActiveMaterial)
    (sigma_h : list R) (delta_t : R) : result (list R) :=
  mapM (fun '(i, am) =>
          let value := 0 in
          if String.eqb (model LAM) "stress" then
            let! s := py_index sigma_h i in
            let sigma_h_am := conditional_gt0 s in
            Ok (value - delta_t * beta LAM
                        * real_pow (sigma_h_am / critical_stress am) (m LAM))
          else Ok value)
       (imap (fun i am => (i, am)) active_material).

(** Lines 78-80 of [setup]: the stress from the average and surface
    concentrations, then the increment of the active-material fraction. *)
Definition setup_delta_eps_s (LAM : LAMParams)
    (active_material : list ActiveMaterial)
    (c_s_r_average c_s_surf : list R) (delta_t : R) : result (list R) :=
  let! sigma_h := hydrostatic_stress active_material c_s_r_average c_s_surf in
  eps_s_variation LAM active_material sigma_h delta_t.

End LAM.

(** ** [degradation/equations.py]: class [SEI] *)

Module SEI.

(** The configuration [electrode.SEI]. *)
Record SEIParams : Type := {
  M : R;
  rho : R;
  beta : R;
  U : R;
  R_film : R;     (* [SEI.R] *)
  kappa : R;
  k_f_s : R;
  c_EC_sln : R;
  eps : R;
  delta0 : R;
  D_EC : R
}.

(** Modelled from the spec: the time-scheme object [DT] (declared in
    [cideMOD.numerics], not among the listed sources).  The design
    document and the docstring of [_c_s_equation] fix the scheme as
    implicit Euler: [DT.dt(y_0, y_1)] is the backward difference
    quotient over the step [delta_t]. *)
Record TimeScheme : Type := { delta_t : R }.

Definition dt (DT : TimeScheme) (y_0 y_1 : R) : R := (y_1 - y_0) / delta_t DT.

(** An [SEI] object after [__init__]. *)
Record SEI_obj : Type := {
  domain : string;
  tag : string;
  order : Z;
  SEI_cfg : option SEIParams
}.

Definition tag_ok (tag : string) : bool :=
  String.eqb tag "anode" || String.eqb tag "cathode".

(** [SEI.__init__(self, tag, order=2)] *)
Definition init (tag : string) (order : Z) : result SEI_obj :=
  let! _ := py_assert (tag_ok tag) EmptyString in
  Ok {| domain := String.substring 0 1 tag; tag := tag; order := order;
        SEI_cfg := None |}.

(** [SEI_overpotential(self, phi_s, phi_e, J, G_film, SEI)] *)
Definition SEI_overpotential (phi_s phi_e J G_film : R) (SEI : SEIParams) : R :=
  phi_s - phi_e - U SEI - J * G_film.

(** [j_SEI(self, j_SEI, test, dx, i_0s, phi_s, phi_e, T, J, G_film, SEI, F, R)]:
    the density of the returned form at one node. *)
Definition j_SEI (j_SEI i_0s phi_s phi_e T J G_film : R) (SEI : SEIParams)
    (F R_ : R) : R :=
  let eta := SEI_overpotential phi_s phi_e J G_film SEI in
  j_SEI + i_0s * exp (- (beta SEI * F / R_) * eta / T).

(** [delta_growth(self, DT, delta_0, delta_1, j_SEI, SEI, F, test, dx)].
    The method returns the form [r * test * dx]; this is its density [r]
    at one node.  Thickness and current are continuous piecewise-linear
    fields, so the form vanishes for every test function exactly when
    [r] is zero at every node. *)
Definition delta_growth (DT : option TimeScheme) (delta_0 delta_1 j_SEI : R)
    (SEI : SEIParams) (F : R) : R :=
  match DT with
  | Some DT => dt DT delta_0 delta_1 + j_SEI * M SEI / (2 * F * rho SEI)
  | None => delta_0 - delta_1
  end.

(** *** [SEI.SpectralLagrangeModel_EC] *)

(** What [build_matrix] reads of [self.poly = Lagrange(order)].  The
    class [Lagrange] is declared in [cideMOD.numerics.polynomials], not
    among the listed sources; the design document describes a basis of
    [order + 1] Lagrange polynomials ([basis_ok]). *)
Record Basis : Type := {
  f : list poly;
  df : list poly;
  xf : list poly;
  xdf : list poly
}.

Definition basis_ok (order : Z) (b : Basis) : Prop :=
  Z.of_nat (length (f b)) = (order + 1)%Z /\
  Z.of_nat (length (df b)) = (order + 1)%Z /\
  Z.of_nat (length (xdf b)) = (order + 1)%Z /\
  Forall (fun p => p <> []) (f b) /\
  Forall (fun p => p <> []) (df b) /\
  Forall (fun p => p <> []) (xdf b).

(** The basis has a non-empty polynomial at every index the loops of
    [build_matrix] read, in [f], [df] and [xdf]. *)
Definition basis_covers (order : Z) (b : Basis) : Prop :=
  forall i : nat, (i < Z.to_nat (order + 1))%nat ->
    exists fi dfi xdfi,
      f b !! i = Some fi /\ df b !! i = Some dfi /\ xdf b !! i = Some xdfi /\
      fi <> [] /\ dfi <> [] /\ xdfi <> [].

Abbreviation matrix := (list (list R)).

(** [a.shape == (n, m)] for a 2-dimensional array. *)
Definition mat_shape (n m : nat) (a : matrix) : Prop :=
  length a = n /\ Forall (fun row => length row = m) a.

(** The operators a [SpectralLagrangeModel_EC] keeps. *)
Record Operators : Type := {
  D : matrix;
  K1 : matrix;
  K2 : matrix;
  P : list R
}.

(** The six entries written at [(i, j)] by the inner loop of
    [build_matrix], in program order: [J, H, K, L, M, N]. *)
Record Entries : Type := {
  eJ : R; eH : R; eK : R; eL : R; eM : R; eN : R
}.

Definition entries (b : Basis) (i j : nat) : result Entries :=
  let! fi := py_index (f b) i in
  let! fj := py_index (f b) j in
  let! p := polymul fi fj in
  let! vJ := polyval 0 p in
  let! dfi := py_index (df b) i in
  let! p := polymul dfi fj in
  let! vH := polyval 1 p in
  let! p := polymul fi fj in
  let! q := polyint p in
  let! vK := polyval 1 q in
  let! p := polymul dfi fj in
  let! q := polyint p in
  let! vL := polyval 1 q in
  let! xdfi := py_index (xdf b) i in
  let! p := polymul xdfi fj in
  let! q := polyint p in
  let! vM := polyval 1 q in
  let! dfj := py_index (df b) j in
  let! p := polymul dfi dfj in
  let! q := polyint p in
  let! vN := polyval 1 q in
  Ok {| eJ := vJ; eH := vH; eK := vK; eL := vL; eM := vM; eN := vN |}.

(** [range(n)] for an integer [n]: empty when [n] is not positive. *)
Definition py_range (n : Z) : list nat := seq 0 (Z.to_nat n).

(** [a[:, 0:-1]]: every row without its last entry. *)
Definition drop_last_column (a : matrix) : matrix :=
  map (fun row => take (length row - 1) row) a.

Definition mat_sub (a b : matrix) : matrix := zip_with (zip_with Rminus) a b.
Definition mat_add (a b : matrix) : matrix := zip_with (zip_with Rplus) a b.

(** [build_matrix(self)].  [numpy.zeros] refuses a negative dimension.
    Every entry of the seven arrays is written by the loops, row [i]
    after row [i - 1]: [P[i]] first, then the six matrices at [(i, j)]
    for each [j]. *)
Definition build_matrix (order : Z) (b : Basis) : result Operators :=
  if (order + 1 <? 0)%Z then Raise ValueError else
  let! rows :=
    mapM (fun i =>
            let! fi := py_index (f b) i in
            let! Pi := polyval 0 fi in
            let! es := mapM (fun j => entries b i j) (py_range (order + 1)) in
            Ok (Pi, es))
         (py_range (order + 1)) in
  let mat (sel : Entries -> R) : matrix := map (fun r => map sel (snd r)) rows in
  let J_d := drop_last_column (mat eJ) in
  let K_d := drop_last_column (mat eK) in
  let L_d := drop_last_column (mat eL) in
  let M_d := drop_last_column (mat eM) in
  let N_d := drop_last_column (mat eN) in
  let H_d := drop_last_column (mat eH) in
  let P_d := map fst rows in
  Ok {| D := K_d;
        K1 := mat_add (mat_sub L_d M_d) J_d;
        K2 := mat_sub N_d H_d;
        P := P_d |}.

(** A [SpectralLagrangeModel_EC] object after [__init__]. *)
Record SLagM_obj : Type := {
  sl_domain : string;
  sl_tag : string;
  sl_order : Z;
  sl_n_mat : nat;
  sl_poly : Basis;
  sl_ops : Operators
}.

(** [SpectralLagrangeModel_EC.__init__(self, n_mat, tag, order=2)];
    [Lagrange] stands for the constructor of the basis. *)
Definition SpectralLagrangeModel_EC (Lagrange : Z -> result Basis)
    (n_mat : nat) (tag : string) (order : Z) : result SLagM_obj :=
  let! _ := py_assert (tag_ok tag) EmptyString in
  let! poly := Lagrange order in
  let! ops := build_matrix order poly in
  Ok {| sl_domain := String.substring 0 1 tag; sl_tag := tag;
        sl_order := order; sl_n_mat := n_mat; sl_poly := poly;
        sl_ops := ops |}.

(** *** Field names and the initial weak form *)

(** [f'j_sei_{self.domain}{material}'] *)
Definition j_sei_name (domain : string) (material : nat) : string :=
  ("j_sei_" ++ domain ++ format_nat material)%string.

(** [f'delta_sei_{self.domain}{material}'] *)
Definition delta_sei_name (domain : string) (material : nat) : string :=
  ("delta_sei_" ++ domain ++ format_nat material)%string.

(** [f'c_EC_{order}_{self.domain}{material}'] *)
Definition c_EC_name (order : nat) (domain : string) (material : nat) : string :=
  ("c_EC_" ++ format_nat order ++ "_" ++ domain ++ format_nat material)%string.

(** The first four lines of [fields]: the number of materials is the
    argument before [setup], and [self.n_mat] after it.  [self_n_mat]
    is the attribute [self.n_mat], which [setup] sets together with
    [self.SEI]. *)
Definition fields_n_mat (self : SEI_obj) (self_n_mat : Z) (n_mat : option Z)
    : result Z :=
  match SEI_cfg self with
  | None =>
    match n_mat with
    | Some n => Ok n
    | None =>
      Raise (AssertionError
        "Please provide the number of active materials or setup the SEI object")
    end
  | Some _ => Ok self_n_mat
  end.

(** [fields(self, n_mat=None)] *)
Definition fields (self : SEI_obj) (self_n_mat : Z) (n_mat : option Z)
    : result (list string) :=
  let! n_mat := fields_n_mat self self_n_mat n_mat in
  let field_list :=
    map (fun material => j_sei_name (domain self) material) (py_range n_mat) in
  let field_list := field_list ++
    map (fun material => delta_sei_name (domain self) material)
        (py_range n_mat) in
  let field_list := field_list ++
    flat_map (fun material =>
                map (fun order => c_EC_name order (domain self) material)
                    (py_range (order self)))
             (py_range n_mat) in
  Ok field_list.

(** What [shape_functions] reads of [mesher]: the two electrode
    restrictions and the space [FunctionSpace(mesher.mesh, 'CG', 1)]. *)
Record Mesher (FS Rs : Type) : Type := {
  mesh_CG1 : FS;
  anode : Rs;
  cathode : Rs
}.

Arguments mesh_CG1 {FS Rs}.
Arguments anode {FS Rs}.
Arguments cathode {FS Rs}.

(** [shape_functions(self, mesher, n_mat, V=None)] *)
Definition shape_functions {FS Rs : Type} (self : SEI_obj)
    (mesher : Mesher FS Rs) (n_mat : Z) (V : option FS) : list (FS * Rs) :=
  let V := match V with None => mesh_CG1 mesher | Some V => V end in
  let restriction :=
    if String.eqb (tag self) "anode" then anode mesher else cathode mesher in
  let E_j_sei := map (fun _ => (V, restriction)) (py_range n_mat) in
  let E_delta := map (fun _ => (V, restriction)) (py_range n_mat) in
  let E_c_EC :=
    flat_map (fun _ => map (fun _ => (V, restriction)) (py_range (order self)))
             (py_range n_mat) in
  E_j_sei ++ E_delta ++ E_c_EC.

(** [names.index(x)] for a tuple of names: the first position of [x]. *)
Fixpoint tuple_index (x : string) (names : list string) : result nat :=
  match names with
  | [] => Raise ValueError
  | y :: names' =>
    if String.eqb y x then Ok 0%nat
    else let! i := tuple_index x names' in Ok (S i)
  end.

(** [SpectralLagrangeModel_EC.wf_0(self, f_0, f_1, test, dx)].  [_fields]
    is [f_0._fields]; [f_0] and [f_1] hold the value of every field at
    one node; [test] holds the test functions.  A form
    [r * test[i] * dx] is the pair of its test function and of its
    density [r] at the node.  The method appends every form wrapped
    in a list of its own. *)
Definition wf_0 {T : Type} (self : SLagM_obj) (_fields : list string)
    (f_0 f_1 : list R) (test : list T) : result (list (list (T * R))) :=
  let! F_EC_0 :=
    mapM (fun material =>
            let! c_EC_index :=
              tuple_index (c_EC_name 0 (sl_domain self) material) _fields in
            mapM (fun j =>
                    let! v1 := py_index f_1 (c_EC_index + j) in
                    let! v0 := py_index f_0 (c_EC_index + j) in
                    let! t := py_index test (c_EC_index + j) in
                    Ok [(t, v1 - v0)])
                 (py_range (sl_order self)))
         (seq 0 (sl_n_mat self)) in
  Ok (concat F_EC_0).

End SEI.

(** ** [helpers/warehouse.py]: class [Warehouse] *)

Module Warehouse.

(** The exceptions of this class: the built-in ones above, a missing
    attribute, and the bare [Exception] of [internal_variables]. *)
Inductive error : Type :=
| Builtin (e : exn)
| AttributeError (attr : string)
| Exception_ (msg : string).

(** A value of the problem that [_store_var] is handed: one object, or
    a list or tuple of objects. *)
Inductive variable (Obj : Type) : Type :=
| One (v : Obj)
| Many (vs : list Obj).

Arguments One {Obj}.
Arguments Many {Obj}.

(** What [_store_internals] reads of [self.problem] in a state [env]
    of the problem: the dictionary of its attributes, the result of
    [nd_model.physical_variables(problem)] (called only when
    ['nd_model'] is an attribute) and the named tuple [f_1], as the
    list of its fields with their values.  The class of the problem is
    declared outside this module. *)
Class Problem (Env Obj : Type) : Type := {
  __dict__ : Env -> list (string * variable Obj);
  physical_variables : Env -> list (string * variable Obj);
  f_1 : Env -> list (string * variable Obj)
}.

Section Model.

(** [Env] is the state of the problem, from which a global variable is
    computed and the internal variables are read; [V] is the type of
    the values of the global variables, [Obj] the type of the objects
    written to the files. *)
Context {Env V Obj : Type} {problem : Problem Env Obj}.

(** An entry of the dictionary [global_vars]: [{'fnc': ..., 'header': ...}]. *)
Record GlobalVar : Type := { fnc : Env -> V; header : string }.

(** An element of a list of [global_var_arrays]: list 0 holds times,
    the others hold values. *)
Inductive cell : Type := Time (t : R) | Value (v : V).

(** [delay] is a list of output times or a number of steps. *)
Inductive delay_t : Type := DelayList (times : list R) | DelaySteps (n : Z).

(** What the warehouse did, oldest first: a call of the full-order
    store, of the post-processing functions, an entry into
    [_store_internals(time)], and a write of an object to a file at a
    time. *)
Inductive event : Type :=
| Rom
| PostProcess
| Internals (time : R)
| Write (file : string) (v : Obj) (time : R).

(** A field specification of [internal_variables]: a name, or a list or
    tuple that is empty or starts with a name,
    [(name[, type[, len]])]; an element after the name is a string, an
    int or something else. *)
Inductive item : Type := Str (s : string) | Int (z : Z) | Other.
Inductive spec : Type :=
| Name (s : string)
| EmptySeq
| Seq (name : string) (rest : list item).

(** What [field_vars] holds for a name: one file and function, or a
    list of them. *)
Inductive storage : Type :=
| Scalar | Vector | ListOf (is_vector : bool) (names : list string).

Record t : Type := {
  save_path : option string;
  delay : delay_t;
  counter : R;
  global_vars : list (string * GlobalVar);   (* a dict, in insertion order *)
  global_var_arrays : list (list cell);
  field_vars : option (list (string * storage));  (* unset before
                                                     [internal_variables] *)
  log : list event
}.

Definition outcome (A : Type) : Type := (t * (A + error))%type.

(** [Warehouse(save_path, problem, delay=1)] *)
Definition init (save_path : option string) (delay : delay_t) : t :=
  {| save_path := save_path; delay := delay; counter := 0;
     global_vars := []; global_var_arrays := [];
     field_vars := None; log := [] |}.

Definition set_arrays (a : list (list cell)) (w : t) : t :=
  {| save_path := save_path w; delay := delay w; counter := counter w;
     global_vars := global_vars w; global_var_arrays := a;
     field_vars := field_vars w; log := log w |}.

Definition set_counter (c : R) (w : t) : t :=
  {| save_path := save_path w; delay := delay w; counter := c;
     global_vars := global_vars w; global_var_arrays := global_var_arrays w;
     field_vars := field_vars w; log := log w |}.

Definition add_event (e : event) (w : t) : t :=
  {| save_path := save_path w; delay := delay w; counter := counter w;
     global_vars := global_vars w; global_var_arrays := global_var_arrays w;
     field_vars := field_vars w; log := log w ++ [e] |}.

(** [set_delay(self, delay)] *)
Definition set_delay (d : delay_t) (w : t) : t :=
  {| save_path := save_path w; delay := d; counter := counter w;
     global_vars := global_vars w; global_var_arrays := global_var_arrays w;
     field_vars := field_vars w; log := log w |}.

(** [global_variables(self, params)] *)
Definition global_variables (params : list (string * GlobalVar)) (w : t) : t :=
  {| save_path := save_path w; delay := delay w; counter := counter w;
     global_vars := params;
     global_var_arrays := replicate (length params + 1) [];
     field_vars := field_vars w; log := log w |}.

(** The index [i] at which the loop of [get_global_variable] finds
    [var] among the keys, counting from [start]. *)
Fixpoint find_key (var : string) (keys : list string) (start : nat) : option nat :=
  match keys with
  | [] => None
  | key :: keys' =>
    if String.eqb var key then Some start else find_key var keys' (S start)
  end.

(** [get_global_variable(self, var)].  The loop always finds a key that
    passed the second assertion; the method returns the list. *)
Definition get_global_variable (var : string) (w : t)
  : (list cell) + error :=
  match global_vars w with
  | [] => inr (Builtin (AssertionError "Global variables dictionary is empty"))
  | _ =>
    let keys := map fst (global_vars w) in
    if String.eqb var "time" then
      match global_var_arrays w !! 0%nat with
      | Some a => inl a
      | None => inr (Builtin IndexError)
      end
    else
      match find_key var keys 1 with
      | Some i =>
        match global_var_arrays w !! i with
        | Some a => inl a
        | None => inr (Builtin IndexError)
        end
      | None =>
        inr (Builtin (AssertionError
               ("Unrecognized global variable '" ++ var
                ++ "'. Available options: 'time' '"
                ++ String.concat "' '" keys ++ "'")))
      end
  end.

(** [self.global_var_arrays[i].append(c)] *)
Definition append_at (i : nat) (c : cell) (w : t) : outcome unit :=
  match global_var_arrays w !! i with
  | Some a => (set_arrays (<[i := a ++ [c]]> (global_var_arrays w)) w, inl tt)
  | None => (w, inr (Builtin IndexError))
  end.

(** The loop of [_store_globals] over [enumerate(values, 1)], from
    index [i] on. *)
Fixpoint append_values (env : Env) (i : nat) (vars : list (string * GlobalVar))
    (w : t) : outcome unit :=
  match vars with
  | [] => (w, inl tt)
  | (_, f) :: vars' =>
    match append_at i (Value (fnc f env)) w with
    | (w', inl _) => append_values env (S i) vars' w'
    | (w', inr e) => (w', inr e)
    end
  end.

(** [_store_globals(self, time)] *)
Definition _store_globals (env : Env) (time : R) (w : t) : outcome unit :=
  match append_at 0 (Time time) w with
  | (w', inl _) => append_values env 1 (global_vars w') w'
  | (w', inr e) => (w', inr e)
  end.

(** [_post_process(self)]: the calls of the post-processing functions
    are recorded in [log]. *)
Definition _post_process (w : t) : t := add_event PostProcess w.

Definition add_events (es : list event) (w : t) : t :=
  {| save_path := save_path w; delay := delay w; counter := counter w;
     global_vars := global_vars w; global_var_arrays := global_var_arrays w;
     field_vars := field_vars w; log := log w ++ es |}.

(** [d[key]] on a dict in insertion order; [None] stands for
    [KeyError]. *)
Fixpoint dict_get {A : Type} (key : string) (d : list (string * A))
  : option A :=
  match d with
  | [] => None
  | (k, v) :: d' => if String.eqb k key then Some v else dict_get key d'
  end.

(** The files an entry [(file, func)] of [field_vars] holds: one file
    named after the variable, or the files of a list; [func] holds as
    many functions. *)
Definition files (name : string) (st : storage) : list string :=
  match st with
  | Scalar | Vector => [name]
  | ListOf _ names => names
  end.

(** Lines 145-146 of [_store_var]: a variable that is not a list or
    tuple is wrapped in a list. *)
Definition elements (var : variable Obj) : list Obj :=
  match var with
  | One v => [v]
  | Many vs => vs
  end.

(** [_store_var(self, var, func, file, time)] for the entry of
    [field_vars] under [name].  Every branch of the loop over
    [zip(var, func, file)] ends in a write of the object to its file,
    which is recorded in [log]. *)
Definition _store_var (name : string) (var : variable Obj) (st : storage)
    (time : R) (w : t) : outcome unit :=
  let var := elements var in
  let file := files name st in
  if bool_decide (length var = length file) then
    (add_events (zip_with (fun v fout => Write fout v time) var file) w, inl tt)
  else
    (w, inr (Builtin (AssertionError
                        "Specified variable length does not match"))).

(** The variable that the [try] block of [_store_internals] and its
    [except] clause hand to [_store_var] for [name]: the physical
    variable of that name when the problem has an [nd_model], else the
    field of that name of [f_1] ([_fields.index(name)], then
    [f_1[index]]); when there is none ([KeyError], [ValueError]), the
    attribute of that name of the problem; [None] when the loop passes
    on. *)
Definition stored_variable (env : Env) (name : string)
  : option (variable Obj) :=
  let found :=
    match dict_get "nd_model" (__dict__ env) with
    | Some _ => dict_get name (physical_variables env)
    | None => dict_get name (f_1 env)
    end in
  match found with
  | Some var => Some var
  | None => dict_get name (__dict__ env)
  end.

(** The loop of [_store_internals] over [self.field_vars.items()]. *)
Fixpoint store_vars (env : Env) (time : R) (fv : list (string * storage))
    (w : t) : outcome unit :=
  match fv with
  | [] => (w, inl tt)
  | (name, st) :: fv' =>
    match stored_variable env name with
    | Some var =>
      match _store_var name var st time w with
      | (w', inl _) => store_vars env time fv' w'
      | (w', inr e) => (w', inr e)
      end
    | None => store_vars env time fv' w
    end
  end.

(** [_store_internals(self, time)]; iterating [self.field_vars] needs
    the attribute that [internal_variables] creates. *)
Definition _store_internals (env : Env) (time : R) (w : t) : outcome unit :=
  let w := add_event (Internals time) w in
  match field_vars w with
  | None => (w, inr (AttributeError "field_vars"))
  | Some fv => store_vars env time fv w
  end.

(** [time in self.delay or any(k<time and k>self.counter for k in self.delay)] *)
Definition output_due (times : list R) (time counter : R) : bool :=
  existsb (fun k => if Req_dec_T time k then true else false) times
  || existsb (fun k => (if Rlt_dec k time then true else false)
                       && (if Rgt_dec k counter then true else false)) times.

(** [store(self, time, force=False, store_fom=True)] *)
Definition store (env : Env) (time : R) (force store_fom : bool) (w : t)
  : outcome unit :=
  match _store_globals env time w with
  | (w, inr e) => (w, inr e)
  | (w, inl _) =>
    let w := if store_fom then add_event Rom w else w in
    match save_path w with
    | None => (w, inl tt)
    | Some _ =>
      match delay w with
      | DelayList times =>
        if output_due times time (counter w) then
          match _store_internals env time (_post_process w) with
          | (w, inr e) => (w, inr e)
          | (w, inl _) => (set_counter time w, inl tt)
          end
        else (set_counter time w, inl tt)
      | DelaySteps d =>
        if Rge_dec (IZR d) 0 then
          let w := set_counter (counter w + 1) w in
          if (if Rge_dec (counter w) (IZR d) then true else false) || force then
            match _store_internals env time (_post_process w) with
            | (w, inr e) => (w, inr e)
            | (w, inl _) => (set_counter 0 w, inl tt)
            end
          else (w, inl tt)
        else (w, inl tt)
      end
    end
  end.

Definition set_field_vars (fv : option (list (string * storage))) (w : t) : t :=
  {| save_path := save_path w; delay := delay w; counter := counter w;
     global_vars := global_vars w; global_var_arrays := global_var_arrays w;
     field_vars := fv; log := log w |}.

(** [d[key] = value] on a dict in insertion order. *)
Fixpoint dict_set {A : Type} (key : string) (value : A)
    (d : list (string * A)) : list (string * A) :=
  match d with
  | [] => [(key, value)]
  | (k, v) :: d' =>
    if String.eqb k key then (k, value) :: d'
    else (k, v) :: dict_set key value d'
  end.

(** ['{}_{}'.format(name, i) for i in range(n)] *)
Definition list_names (name : string) (n : Z) : list string :=
  map (fun i => name ++ "_" ++ format_nat i)%string (seq 0 (Z.to_nat n)).

(** What one turn of the loop of [internal_variables] registers. *)
Definition register (f : spec) : (string * storage) + error :=
  match f with
  | Name name | Seq name [] => inl (name, Scalar)
  | EmptySeq =>
    inr (Exception_
           "Internal variable only supports 3 args. Format: (name[, type[, len]])")
  | Seq name (ty :: rest) =>
    let invalid :=
      inr (Builtin (AssertionError
        "Type invalid. Valid types are ('vector', 'list_of_scalar', 'list_of_vector')")) in
    match ty with
    | Str ty =>
      if String.eqb ty "vector" then inl (name, Vector)
      else if String.eqb ty "list_of_scalar" || String.eqb ty "list_of_vector"
      then
        match rest with
        | [len] =>
          match len with
          | Int n => inl (name, ListOf (String.eqb ty "list_of_vector")
                                       (list_names name n))
          | _ => inr (Builtin (AssertionError "List lenght must be an integer"))
          end
        | _ => inr (Builtin (AssertionError
                 "Must specify list lenght. Format: (name[, type[, len]])"))
        end
      else invalid
    | _ => invalid
    end
  end.

Fixpoint register_all (fields : list spec) (d : list (string * storage))
  : list (string * storage) * (unit + error) :=
  match fields with
  | [] => (d, inl tt)
  | f :: fields' =>
    match register f with
    | inl (name, st) => register_all fields' (dict_set name st d)
    | inr e => (d, inr e)
    end
  end.

(** [internal_variables(self, fields)] *)
Definition internal_variables (fields : list spec) (w : t) : outcome unit :=
  let w := set_field_vars (Some []) w in
  match save_path w with
  | None => (w, inl tt)
  | Some _ =>
    let '(d, r) := register_all fields [] in
    (set_field_vars (Some d) w, r)
  end.

(** A run of [store] calls with the defaults [force=False],
    [store_fom=True], stopping at the first call that raises. *)
Fixpoint store_all (calls : list (Env * R)) (w : t) : outcome unit :=
  match calls with
  | [] => (w, inl tt)
  | (env, time) :: calls' =>
    match store env time false true w with
    | (w', inl _) => store_all calls' w'
    | (w', inr e) => (w', inr e)
    end
  end.

(** The arrays after the cells [cs] were appended, one each, to the
    lists [i], [i + 1], ... *)
Definition appended (i : nat) (cs : list cell) (a : list (list cell))
  : list (list cell) :=
  imap (fun j l => match cs !! (j - i)%nat with
                   | Some c => if bool_decide (i <= j)%nat then l ++ [c] else l
                   | None => l
                   end) a.

(** The cells one call of [_store_globals] appends: the time, then the
    value of every global variable. *)
Definition new_cells (env : Env) (time : R) (vars : list (string * GlobalVar))
  : list cell :=
  Time time :: map (fun kv => Value (fnc (snd kv) env)) vars.

(** Every registered variable that the problem has in the state [env]
    comes with as many objects as [field_vars] holds files for it: the
    assertion of [_store_var] passes for each. *)
Definition fits (env : Env) (fv : list (string * storage)) : Prop :=
  Forall (fun entry =>
            forall var, stored_variable env (fst entry) = Some var ->
              length (elements var) = length (files (fst entry) (snd entry)))
         fv.

(** A warehouse on which [store] does not raise in the states [envs]
    of the problem: there is one list per global variable and one for
    the times and, when a path is set, the attribute [field_vars]
    exists and fits the problem in each of these states. *)
Definition ready (envs : list Env) (w : t) : Prop :=
  length (global_var_arrays w) = (length (global_vars w) + 1)%nat /\
  (save_path w = None \/
   exists fv, field_vars w = Some fv /\ Forall (fun env => fits env fv) envs).

(** The warehouse [w'] differs from [w] in its log at most. *)
Definition unchanged (w w' : t) : Prop :=
  save_path w' = save_path w /\ delay w' = delay w /\
  counter w' = counter w /\ global_vars w' = global_vars w /\
  global_var_arrays w' = global_var_arrays w /\
  field_vars w' = field_vars w.

(** The times at which [_store_internals] was entered, oldest first. *)
Definition internals (l : list event) : list R :=
  omap (fun e => match e with Internals time => Some time | _ => None end) l.

End Model.

Arguments GlobalVar : clear implicits.
Arguments cell : clear implicits.
Arguments event : clear implicits.
Arguments t : clear implicits.

End Warehouse.

(** * Statements of the design document *)

Module Doc.

Import ExplicitCoupling.

(** ** Reaction-rate law (section 4.2) *)

(** [k_eff = k0 * exp(Ea/R * (1/Tref - 1/T))] *)
Definition k_eff (k0 Ea R_ Tref T : R) : R :=
  k0 * exp (Ea / R_ * (1 / Tref - 1 / T)).

(** [i0 = k_eff * c_e^alpha * (c_max - c_s)^alpha * c_s^alpha] *)
Definition i0 (k_eff c_e c_max c_s alpha : R) : R :=
  k_eff * real_pow c_e alpha * real_pow (c_max - c_s) alpha
  * real_pow c_s alpha.

(** [eta = phi - OCV(c_s/c_max)] *)
Definition eta (phi : R) (OCV : R -> R) (c_s c_max : R) : R :=
  phi - OCV (c_s / c_max).

(** [j = i0 * (exp(alpha F eta / RT) - exp(- alpha F eta / RT))] *)
Definition butler_volmer (i0 alpha F eta R_ T : R) : R :=
  i0 * (exp (alpha * F * eta / (R_ * T)) - exp (- (alpha * F * eta / (R_ * T)))).

Definition reaction_flux (material : Material)
    (c_s c_e phi T alpha F R_ : R) : R :=
  butler_volmer
    (i0 (k_eff (k_0 material) (k_0_Ea material) R_ (k_0_Tref material) T)
        c_e (c_s_max material) c_s alpha)
    alpha F (eta phi (U material) c_s (c_s_max material)) R_ T.

(** ** [timeFilterError(nu, tau)] as section 4.2 words it:
    the norm of [nu * (previous/(1+tau) - current + tau*prevprev/(1+tau))] *)
Definition timeFilterError (nu tau : R) (s : store) : R :=
  let current := db_of Current s in
  let previous := db_of Previous s in
  let prevprev := db_of PrevPrev s in
  norm (scale3 nu
          (add3 (sub3 (map3 (fun x => x / (1 + tau)) previous) current)
                (map3 (fun x => tau * x / (1 + tau)) prevprev))).

(** The entry of the residual that [get_time_filter_error] takes the
    norm of, from the three generations at one place. *)
Definition filter_residual (nu tau cur prev pp : R) : R :=
  nu * (cur / (1 + tau) - prev + tau * pp / (1 + tau)).

(** ** Section 8, uniform initial concentration: after a fill with the
    uniform value [c0], the average with the initial value subtracted is
    zero everywhere. *)
Definition uniform_fill_average_is_zero : Prop :=
  forall (c0 : R) (s s' : store),
    store_ok s -> (0 < n_dofs s)%nat ->
    initial_guess (replicate (length (particles s)) (PyFloat c0)) s
      = (s', Ok tt) ->
    forall n i : nat,
      (n < nodes s)%nat -> (i < length (particles s))%nat ->
      get2 (get_average_c_s true s') n i = Some 0.

(** ** Section 8, monotonicity of the SEI thickness: with a strictly
    positive [j_sei], the thickness that solves the growth residual is
    not below the previous one. *)
Definition sei_thickness_monotone_for_positive_current : Prop :=
  forall (DT : SEI.TimeScheme) (delta_0 delta_1 j_sei : R)
         (cfg : SEI.SEIParams) (F : R),
    0 < SEI.delta_t DT -> 0 < SEI.M cfg -> 0 < SEI.rho cfg -> 0 < F ->
    0 < j_sei ->
    SEI.delta_growth (Some DT) delta_0 delta_1 j_sei cfg F = 0 ->
    delta_0 <= delta_1.

(** ** Section 4.1, failure mode: a negative order makes the
    construction of the SEI model raise. *)
Definition negative_order_fails_at_construction : Prop :=
  forall (tag : string) (order : Z),
    (order < 0)%Z -> exists e, SEI.init tag order = Raise e.

End Doc.

(** * Sample inputs *)

Module Sample.

Import ExplicitCoupling.

Definition graphite : Material :=
  {| index := 0; c_s_ini_cfg := Float 500; c_s_max := 30000; eps_s := 0.5;
     k_0 := 1; k_0_Ea := 0; k_0_Tref := 298; U := fun x => 0.1 - x / 10 |}.

Definition silicon : Material :=
  {| index := 1; c_s_ini_cfg := Float 300; c_s_max := 80000; eps_s := 0.1;
     k_0 := 2; k_0_Ea := 0; k_0_Tref := 298; U := fun x => 0.4 - x / 10 |}.

(** Two nodes, two materials, three dofs, arbitrary contents. *)
Definition store2 : store :=
  {| particles := [graphite; silicon]; nodes := 2; n_dofs := 3;
     c_s_0_db := [[[1; 2; 3]; [4; 5; 6]]; [[7; 8; 9]; [10; 11; 12]]];
     c_s_1_db := [[[13; 14; 15]; [16; 17; 18]]; [[19; 20; 21]; [22; 23; 24]]];
     c_s__1_db := [[[0; 0; 0]; [0; 0; 0]]; [[0; 0; 0]; [0; 0; 0]]] |}.

(** One node, one material, one dof. *)
Definition store1 (cur prev pp : R) : store :=
  {| particles := [graphite]; nodes := 1; n_dofs := 1;
     c_s_0_db := [[[prev]]]; c_s_1_db := [[[cur]]]; c_s__1_db := [[[pp]]] |}.



Definition lam_stress : LAM.LAMParams :=
  {| LAM.model := "stress"; LAM.beta := 1; LAM.m := 2 |}.

Definition am_graphite : LAM.ActiveMaterial :=
  {| LAM.critical_stress := 60; LAM.omega := 3; LAM.young := 15;
     LAM.poisson := 0.3 |}.

Definition sei_cfg : SEI.SEIParams :=
  {| SEI.M := 2; SEI.rho := 1; SEI.beta := 0.5; SEI.U := 0.4;
     SEI.R_film := 0; SEI.kappa := 1; SEI.k_f_s := 1; SEI.c_EC_sln := 1;
     SEI.eps := 1; SEI.delta0 := 1; SEI.D_EC := 1 |}.

Definition unit_step : SEI.TimeScheme := {| SEI.delta_t := 1 |}.

(** The Lagrange basis on the nodes 0 and 1: [1 - x] and [x]. *)
Definition basis1 : SEI.Basis :=
  {| SEI.f := [[1; -1]; [0; 1]];
     SEI.df := [[-1]; [1]];
     SEI.xf := [[0; 1; -1]; [0; 0; 1]];
     SEI.xdf := [[0; -1]; [0; 1]] |}.

End Sample.

Module WarehouseSample.

Import Warehouse.

(** A global variable over environments that are the cell voltage. *)
Definition voltage : Warehouse.GlobalVar R R :=
  {| fnc := fun env => env; header := "Voltage [V]" |}.

(** A problem without [nd_model] whose tuple [f_1] holds the scalar
    fields [c_e] and [x]; an object is named by a string. *)
Definition cell {Env : Type} : Problem Env string :=
  {| __dict__ := fun _ => [];
     physical_variables := fun _ => [];
     f_1 := fun _ => [("c_e"%string, One "c_e of f_1"%string);
                      ("x"%string, One "x of f_1"%string)] |}.

(** A warehouse with a path and no global variable, set up by the
    three calls a problem makes, with the given internal variables. *)
Definition outdir (fields : list spec) (d : delay_t) : Warehouse.t unit R string :=
  fst (internal_variables fields
         (global_variables [] (init (Some "out"%string) d))).

End WarehouseSample.

Module SEISample.

Import SEI.

(** An [SEI] object for the anode before [setup], with the given order. *)
Definition sei_anode (order : Z) : SEI_obj :=
  {| domain := "a"; tag := "anode"; order := order; SEI_cfg := None |}.

(** The spectral model of one anode material.  [wf_0] reads the domain,
    the order and the number of materials, not the operators. *)
Definition slagm_anode (order : Z) : SLagM_obj :=
  {| sl_domain := "a"; sl_tag := "anode"; sl_order := order; sl_n_mat := 1;
     sl_poly := Sample.basis1;
     sl_ops := {| D := []; K1 := []; K2 := []; P := [] |} |}.

End SEISample.

(** * Proofs *)

(** ** Arrays: shapes, lookups and copies *)

Section Arrays.

Lemma zip_with_copy {A B : Type} (g : A -> B -> B) (PA : A -> Prop)
    (PB : B -> Prop) (l : list A) (k : list B) :
  (forall x y, PA x -> PB y -> g x y = y) ->
  Forall PA l -> Forall PB k -> length l = length k ->
  zip_with g l k = k.
Proof.
  intros Hg Hl; revert k.
  induction Hl as [|x l Hx Hl IH]; intros [|y k] Hk Hlen;
    simpl in *; try congruence.
  inversion Hk; subst.
  f_equal; [now apply Hg | apply IH; auto].
Qed.

Lemma assign3_same_shape (n m d : nat) (dst src : array3) :
  has_shape n m d dst -> has_shape n m d src -> assign3 dst src = src.
Proof.
  intros [Hn Hd] [Hn' Hs]. unfold assign3, zip3.
  eapply zip_with_copy; [| exact Hd | exact Hs | congruence].
  intros x y [Hx Hx'] [Hy Hy'].
  eapply zip_with_copy; [| exact Hx' | exact Hy' | congruence].
  intros u v Hu Hv.
  eapply (zip_with_copy _ (fun _ => True) (fun _ => True));
    [ reflexivity | | | congruence ];
    apply Forall_forall; auto.
Qed.

Lemma has_shape_lookup (n m d : nat) (a : array3) (n' i d' : nat) :
  has_shape n m d a -> (n' < n)%nat -> (i < m)%nat -> (d' < d)%nat ->
  exists row v x, a !! n' = Some row /\ length row = m /\
                  row !! i = Some v /\ length v = d /\ v !! d' = Some x.
Proof.
  intros [Hn Ha] Hn' Hi Hd'.
  destruct (lookup_lt_is_Some_2 a n') as [row Hrow]; [lia|].
  destruct (proj1 (Forall_lookup _ _) Ha _ _ Hrow) as [Hm Hr].
  destruct (lookup_lt_is_Some_2 row i) as [v Hv]; [lia|].
  pose proof (proj1 (Forall_lookup _ _) Hr _ _ Hv) as Hlen; simpl in Hlen.
  destruct (lookup_lt_is_Some_2 v d') as [x Hx]; [lia|].
  exists row, v, x; auto.
Qed.

Lemma get3_is_Some (n m d : nat) (a : array3) (n' i d' : nat) :
  has_shape n m d a -> (n' < n)%nat -> (i < m)%nat -> (d' < d)%nat ->
  exists x, get3 a n' i d' = Some x.
Proof.
  intros Ha Hn' Hi Hd'.
  destruct (has_shape_lookup _ _ _ _ _ _ _ Ha Hn' Hi Hd')
    as (row & v & x & Hrow & _ & Hv & _ & Hx).
  exists x. unfold get3. rewrite Hrow; simpl. rewrite Hv; simpl. exact Hx.
Qed.

(** Two arrays of one shape with the same entries are the same array. *)
Lemma array3_ext (n m d : nat) (a b : array3) :
  has_shape n m d a -> has_shape n m d b ->
  (forall n' i d', (n' < n)%nat -> (i < m)%nat -> (d' < d)%nat ->
                   get3 a n' i d' = get3 b n' i d') ->
  a = b.
Proof.
  intros Ha Hb Hget.
  apply (list_eq_same_length _ _ n); [apply Hb | apply Ha |].
  intros n' ra rb Hn' Hra Hrb.
  destruct Ha as [_ Ha], Hb as [_ Hb].
  destruct (proj1 (Forall_lookup _ _) Ha _ _ Hra) as [Hma Hva].
  destruct (proj1 (Forall_lookup _ _) Hb _ _ Hrb) as [Hmb Hvb].
  apply (list_eq_same_length _ _ m); auto.
  intros i va vb Hi Hia Hib.
  pose proof (proj1 (Forall_lookup _ _) Hva _ _ Hia) as Hda.
  pose proof (proj1 (Forall_lookup _ _) Hvb _ _ Hib) as Hdb.
  simpl in Hda, Hdb.
  apply (list_eq_same_length _ _ d); auto.
  intros d' x y Hd' Hx Hy.
  specialize (Hget n' i d' Hn' Hi Hd').
  unfold get3 in Hget. rewrite Hra, Hrb in Hget; simpl in Hget.
  rewrite Hia, Hib in Hget; simpl in Hget. congruence.
Qed.

(** *** [fill] *)

Lemma fill_material_ok (n m d i : nat) (c : R) (db : array3) :
  has_shape n m d db -> (i < m)%nat ->
  fill_material i c db = Ok (filled i c db).
Proof.
  intros [_ Hdb] Hi. unfold fill_material.
  replace (forallb _ db) with true; [reflexivity|].
  symmetry. induction Hdb as [|row db [Hrow _] _ IH]; simpl; auto.
  rewrite IH, andb_true_r. apply bool_decide_eq_true. lia.
Qed.

Lemma filled_shape (n m d i : nat) (c : R) (db : array3) :
  has_shape n m d db -> has_shape n m d (filled i c db).
Proof.
  intros [Hn Hdb]. split; [unfold filled; now rewrite length_map|].
  unfold filled. apply Forall_fmap.
  eapply Forall_impl; [exact Hdb|].
  intros row [Hm Hr]; simpl. split; [now rewrite length_alter|].
  apply Forall_lookup. intros j v Hj.
  rewrite list_lookup_alter in Hj.
  destruct (decide (i = j)) as [->|Hne].
  - destruct (row !! j) as [w|] eqn:Hw; simpl in Hj; [|discriminate].
    injection Hj as <-. rewrite length_map.
    exact (proj1 (Forall_lookup _ _) Hr _ _ Hw).
  - exact (proj1 (Forall_lookup _ _) Hr _ _ Hj).
Qed.

Lemma get3_filled_eq (n m d i : nat) (c : R) (db : array3) (n' d' : nat) :
  has_shape n m d db -> (n' < n)%nat -> (i < m)%nat -> (d' < d)%nat ->
  get3 (filled i c db) n' i d' = Some c.
Proof.
  intros Hdb Hn' Hi Hd'.
  destruct (has_shape_lookup _ _ _ _ _ _ _ Hdb Hn' Hi Hd')
    as (row & v & x & Hrow & _ & Hv & _ & Hx).
  unfold get3, filled. rewrite list_lookup_fmap, Hrow; simpl.
  rewrite list_lookup_alter_eq, Hv; simpl.
  rewrite list_lookup_fmap, Hx. reflexivity.
Qed.

Lemma get3_filled_ne (i j : nat) (c : R) (db : array3) (n' d' : nat) :
  i <> j -> get3 (filled i c db) n' j d' = get3 db n' j d'.
Proof.
  intros Hne. unfold get3, filled. rewrite list_lookup_fmap.
  destruct (db !! n') as [row|]; simpl; [|reflexivity].
  now rewrite list_lookup_alter_ne.
Qed.

End Arrays.

(** ** [initial_guess] *)

Section InitialGuess.

Import ExplicitCoupling.

Lemma db_of_fill_store (g : generation) (i : nat) (c : R) (s : store) :
  db_of g (fill_store i c s) = filled i c (db_of g s).
Proof. now destruct g. Qed.

Lemma store_ok_db_of (s : store) (g : generation) :
  store_ok s ->
  has_shape (nodes s) (length (particles s)) (n_dofs s) (db_of g s).
Proof. intros (H0 & H1 & H2). now destruct g. Qed.

Lemma fill_store_ok (i : nat) (c : R) (s : store) :
  store_ok s -> store_ok (fill_store i c s).
Proof.
  intros (H0 & H1 & H2). unfold store_ok; simpl.
  split; [|split]; now apply filled_shape.
Qed.

Lemma initial_guess_step_ok (i : nat) (v : pyval) (c : R) (s : store) :
  store_ok s -> (i < length (particles s))%nat -> as_float v = Ok c ->
  initial_guess_step i v s = (fill_store i c s, Ok tt).
Proof.
  intros (H0 & H1 & H2) Hi Hv. unfold initial_guess_step. rewrite Hv.
  rewrite (fill_material_ok _ _ _ _ _ _ H0 Hi); simpl.
  rewrite (fill_material_ok _ _ _ _ _ _ H1 Hi); simpl.
  rewrite (fill_material_ok _ _ _ _ _ _ H2 Hi); simpl.
  reflexivity.
Qed.

Lemma initial_guess_step_raise (i : nat) (v : pyval) (e : exn) (s : store) :
  as_float v = Raise e -> initial_guess_step i v s = (s, Raise e).
Proof. intros Hv. unfold initial_guess_step. now rewrite Hv. Qed.

(** The loop accepts a list of float-like values that fits the
    materials from [i] on. *)
Lemma initial_guess_loop_accepts (vals : list pyval) :
  forall (i : nat) (s : store),
    store_ok s -> (i + length vals <= length (particles s))%nat ->
    all_float vals ->
    exists s', initial_guess_loop i vals s = (s', Ok tt).
Proof.
  induction vals as [|v vals IH]; intros i s Hok Hlen Hall; simpl in *.
  - now exists s.
  - inversion Hall as [|? ? [c Hc] Hall']; subst.
    rewrite (initial_guess_step_ok i v c s Hok ltac:(lia) Hc).
    apply IH; [now apply fill_store_ok | simpl; lia | exact Hall'].
Qed.

(** What an accepted loop leaves in the store. *)
Lemma initial_guess_loop_accepted (vals : list pyval) :
  forall (i : nat) (s s' : store),
    store_ok s -> (i + length vals <= length (particles s))%nat ->
    initial_guess_loop i vals s = (s', Ok tt) ->
    store_ok s' /\ particles s' = particles s /\
    nodes s' = nodes s /\ n_dofs s' = n_dofs s /\
    all_float vals /\
    forall (g : generation) (n j d : nat),
      (n < nodes s)%nat -> (j < length (particles s))%nat ->
      (d < n_dofs s)%nat ->
      ((j < i)%nat \/ (i + length vals <= j)%nat ->
         get3 (db_of g s') n j d = get3 (db_of g s) n j d) /\
      (forall v, (i <= j)%nat -> vals !! (j - i)%nat = Some v ->
         exists c, as_float v = Ok c /\ get3 (db_of g s') n j d = Some c).
Proof.
  induction vals as [|v vals IH]; intros i s s' Hok Hlen Hrun; simpl in *.
  - injection Hrun as <-. split_and!; auto; [constructor|].
    intros g n j d _ _ _. split; [reflexivity|].
    intros v _ Hv. now rewrite lookup_nil in Hv.
  - destruct (as_float v) as [c|e] eqn:Hc.
    2:{ rewrite (initial_guess_step_raise i v e s Hc) in Hrun. discriminate. }
    rewrite (initial_guess_step_ok i v c s Hok ltac:(lia) Hc) in Hrun.
    destruct (IH (S i) (fill_store i c s) s' (fill_store_ok i c s Hok)
                 ltac:(simpl; lia) Hrun)
      as (Hok' & Hp & Hn & Hd & Hall & Hget).
    simpl in Hp, Hn, Hd.
    split_and!; auto.
    { constructor; [now exists c | exact Hall]. }
    intros g n j d Hn' Hj Hd'.
    destruct (Hget g n j d) as [Hfar Hnear]; simpl; auto.
    split.
    + intros Hout.
      rewrite Hfar by lia. rewrite db_of_fill_store.
      apply get3_filled_ne. lia.
    + intros w Hij Hw.
      destruct (decide (j = i)) as [->|Hne].
      * rewrite Nat.sub_diag in Hw. simpl in Hw. injection Hw as <-.
        exists c. split; [exact Hc|].
        rewrite Hfar by lia. rewrite db_of_fill_store.
        eapply get3_filled_eq; eauto using store_ok_db_of.
      * apply Hnear; [lia|].
        replace (j - i)%nat with (S (j - S i)) in Hw by lia. exact Hw.
Qed.

End InitialGuess.

Section ParticleStore.

Import ExplicitCoupling.

Lemma effective_c_s_ini_length (vals : list pyval) (s : store) :
  (vals = [] \/ length vals = length (particles s)) ->
  length (effective_c_s_ini vals s) = length (particles s).
Proof.
  intros [-> | Hlen]; simpl; [now rewrite length_map|].
  destruct vals; simpl in *; [now rewrite length_map | exact Hlen].
Qed.

(** An accepted call ran the loop over [effective_c_s_ini], one value
    per material. *)
Lemma initial_guess_accepted_loop (vals : list pyval) (s s' : store) :
  initial_guess vals s = (s', Ok tt) ->
  length (effective_c_s_ini vals s) = length (particles s) /\
  initial_guess_loop 0 (effective_c_s_ini vals s) s = (s', Ok tt).
Proof.
  unfold initial_guess. destruct vals as [|v vals].
  - intros Hrun. split; [|exact Hrun]. simpl. now rewrite length_map.
  - unfold py_assert.
    destruct (bool_decide _) eqn:Hlen; [|discriminate].
    apply bool_decide_eq_true in Hlen. intros Hrun. now split.
Qed.

(** The contents of the three databases after an accepted call. *)
Lemma initial_guess_accepted (vals : list pyval) (s s' : store) :
  store_ok s -> initial_guess vals s = (s', Ok tt) ->
  store_ok s' /\ particles s' = particles s /\
  nodes s' = nodes s /\ n_dofs s' = n_dofs s /\
  forall (g : generation) (n i d : nat),
    (n < nodes s)%nat -> (i < length (particles s))%nat ->
    (d < n_dofs s)%nat ->
    exists v c, effective_c_s_ini vals s !! i = Some v /\
                as_float v = Ok c /\
                get3 (db_of g s') n i d = Some c.
Proof.
  intros Hok Hrun.
  destruct (initial_guess_accepted_loop _ _ _ Hrun) as [Hlen Hloop].
  destruct (initial_guess_loop_accepted (effective_c_s_ini vals s) 0%nat s s'
              Hok ltac:(lia) Hloop)
    as (Hok' & Hp & Hn & Hd & _ & Hget).
  split_and!; auto.
  intros g n i d Hn' Hi Hd'.
  destruct (lookup_lt_is_Some_2 (effective_c_s_ini vals s) i) as [v Hv];
    [lia|].
  destruct (Hget g n i d Hn' Hi Hd') as [_ Hnear].
  destruct (Hnear v ltac:(lia)) as (c & Hc & Hg).
  { now rewrite Nat.sub_0_r. }
  now exists v, c.
Qed.

(** When a call returns: the list is empty or has one value per
    material, and every value the loop meets is a float or a
    [Constant]. *)
Lemma initial_guess_accepts_iff (vals : list pyval) (s : store) :
  store_ok s ->
  ((exists s', initial_guess vals s = (s', Ok tt)) <->
   (vals = [] \/ length vals = length (particles s)) /\
   all_float (effective_c_s_ini vals s)).
Proof.
  intros Hok. split.
  - intros [s' Hrun].
    destruct (initial_guess_accepted_loop _ _ _ Hrun) as [Hlen Hloop].
    split.
    + destruct vals as [|v vals]; [now left | right; exact Hlen].
    + exact (proj1 (proj2 (proj2 (proj2 (proj2
               (initial_guess_loop_accepted (effective_c_s_ini vals s)
                  0%nat s s' Hok ltac:(lia) Hloop)))))).
  - intros [Hlen Hall].
    pose proof (effective_c_s_ini_length vals s Hlen) as Hlen'.
    destruct (initial_guess_loop_accepts (effective_c_s_ini vals s)
                0%nat s Hok ltac:(lia) Hall) as [s' Hloop].
    exists s'. unfold initial_guess. destruct vals as [|v vals]; [exact Hloop|].
    destruct Hlen as [Hnil | Hlen]; [discriminate|].
    unfold py_assert. rewrite bool_decide_eq_true_2 by exact Hlen.
    exact Hloop.
Qed.

(** C8.  [initial_guess] raises on a non-empty list whose length is not
    the number of active materials, leaving the store as it was; and
    when a call returns, the current, previous and twice-previous
    databases are the same array, whose entry at every node and radial
    dof of material [i] is the [i]-th value of the list the call was
    given (of the configured values, for an empty list). *)
Theorem initial_guess_rejects_or_fills (vals : list pyval) (s : store) :
  (vals <> [] -> length vals <> length (particles s) ->
   exists msg, initial_guess vals s = (s, Raise (AssertionError msg))) /\
  (store_ok s ->
   forall s', initial_guess vals s = (s', Ok tt) ->
     c_s_1_db s' = c_s_0_db s' /\ c_s__1_db s' = c_s_0_db s' /\
     forall (g : generation) (n i d : nat),
       (n < nodes s)%nat -> (i < length (particles s))%nat ->
       (d < n_dofs s)%nat ->
       exists v c, effective_c_s_ini vals s !! i = Some v /\
                   as_float v = Ok c /\
                   get3 (db_of g s') n i d = Some c).
Proof.
  split.
  - intros Hne Hlen. unfold initial_guess.
    destruct vals as [|v vals]; [congruence|].
    unfold py_assert. rewrite bool_decide_eq_false_2 by exact Hlen.
    eexists. reflexivity.
  - intros Hok s' Hrun.
    destruct (initial_guess_accepted vals s s' Hok Hrun)
      as (Hok' & Hp & Hn & Hd & Hget).
    assert (Hsame : forall g g', db_of g s' = db_of g' s').
    { intros g g'.
      eapply array3_ext; [apply store_ok_db_of, Hok'
                         | apply store_ok_db_of, Hok' |].
      rewrite Hp, Hn, Hd. intros n i d Hn' Hi Hd'.
      destruct (Hget g n i d Hn' Hi Hd') as (v & c & Hv & Hc & Hg).
      destruct (Hget g' n i d Hn' Hi Hd') as (v' & c' & Hv' & Hc' & Hg').
      congruence. }
    split; [exact (Hsame Current Previous)|].
    split; [exact (Hsame PrevPrev Previous)|].
    exact Hget.
Qed.




Lemma advance_problem_dbs (s : store) :
  store_ok s ->
  c_s_0_db (advance_problem s) = c_s_1_db s /\
  c_s__1_db (advance_problem s) = c_s_0_db s /\
  c_s_1_db (advance_problem s) = c_s_1_db s.
Proof.
  intros (H0 & H1 & H2). unfold advance_problem; simpl. split_and!.
  - eapply assign3_same_shape; eassumption.
  - eapply assign3_same_shape; eassumption.
  - reflexivity.
Qed.

(** The shape invariant of the store survives the roll-forward. *)
Lemma advance_problem_ok (s : store) :
  store_ok s -> store_ok (advance_problem s).
Proof.
  intros Hok. destruct (advance_problem_dbs s Hok) as (Ha & Hb & Hc).
  destruct Hok as (H0 & H1 & H2). unfold store_ok.
  rewrite Ha, Hb, Hc. unfold advance_problem; simpl. auto.
Qed.

(** C6.  One call of [advance_problem] leaves in the previous database
    what the current one held, and in the twice-previous database what
    the previous one held. *)
Theorem advance_problem_shifts (s : store) :
  store_ok s ->
  db_of Previous (advance_problem s) = db_of Current s /\
  db_of PrevPrev (advance_problem s) = db_of Previous s.
Proof.
  intros Hok. destruct (advance_problem_dbs s Hok) as (Ha & Hb & _).
  split; assumption.
Qed.

End ParticleStore.

Section ParticleStoreWitnesses.

Import ExplicitCoupling.

Lemma store2_ok : store_ok Sample.store2.
Proof. unfold store_ok, has_shape; simpl. repeat constructor. Defined.

Lemma store1_ok (cur prev pp : R) : store_ok (Sample.store1 cur prev pp).
Proof. unfold store_ok, has_shape; simpl. repeat constructor. Defined.

Lemma initial_guess_rejects_or_fills_witness :
  store_ok Sample.store2 /\
  (exists msg, initial_guess [PyFloat 1] Sample.store2
               = (Sample.store2, Raise (AssertionError msg))) /\
  (exists s', initial_guess [PyFloat 1; PyConstant 2] Sample.store2
              = (s', Ok tt) /\
              c_s_1_db s' = c_s_0_db s' /\ c_s__1_db s' = c_s_0_db s' /\
              get3 (db_of PrevPrev s') 1 1 2 = Some 2).
Proof.
  split; [exact store2_ok|]. split.
  - apply (proj1 (initial_guess_rejects_or_fills [PyFloat 1] Sample.store2));
      simpl; [discriminate | lia].
  - eexists. split; [simpl; reflexivity|].
    destruct (proj2 (initial_guess_rejects_or_fills
                       [PyFloat 1; PyConstant 2] _) store2_ok _ eq_refl)
      as (H1 & H2 & Hget).
    split; [exact H1|]. split; [exact H2|].
    destruct (Hget PrevPrev 1%nat 1%nat 2%nat) as (v & c & Hv & Hc & Hg);
      simpl; try lia.
    simpl in Hv. injection Hv as <-. simpl in Hc. injection Hc as <-.
    exact Hg.
Defined.



Lemma advance_problem_shifts_witness :
  store_ok Sample.store2 /\
  db_of Previous (advance_problem Sample.store2) = db_of Current Sample.store2 /\
  db_of PrevPrev (advance_problem Sample.store2) = db_of Previous Sample.store2.
Proof.
  split; [exact store2_ok | exact (advance_problem_shifts _ store2_ok)].
Defined.

End ParticleStoreWitnesses.

(** ** [get_average_c_s] *)

Section Average.

Import ExplicitCoupling.

Lemma sum_list_const (c : R) (v : list R) :
  Forall (eq c) v -> sum_list v = INR (length v) * c.
Proof.
  induction 1 as [|x v <- _ IH]; simpl length.
  - simpl. lra.
  - rewrite S_INR. unfold sum_list in *. simpl. rewrite IH. lra.
Qed.

Lemma mean_const (c : R) (v : list R) :
  (0 < length v)%nat -> Forall (eq c) v -> mean v = c.
Proof.
  intros Hlen Hv. unfold mean. rewrite (sum_list_const c v Hv).
  assert (INR (length v) <> 0) by (apply not_0_INR; lia).
  now field.
Qed.

(** The entry of the average for node [n] and material [i]. *)
Lemma get2_get_average_c_s (increment : bool) (s : store) (n i : nat)
    (row : list (list R)) (v : list R) (material : Material) :
  c_s_1_db s !! n = Some row -> row !! i = Some v ->
  particles s !! i = Some material ->
  get2 (get_average_c_s increment s) n i
  = Some (if increment then mean v - c_s_ini material else mean v).
Proof.
  intros Hrow Hv Hm. unfold get2, get_average_c_s.
  rewrite list_lookup_fmap, Hrow; simpl.
  rewrite lookup_zip_with, Hm; simpl. rewrite Hv; simpl. reflexivity.
Qed.

(** After a fill that left the constant [c] in material [i] of the
    current database, the average of that material is [c]. *)
Lemma average_of_constant (increment : bool) (s : store) (n i : nat)
    (material : Material) (c : R) :
  store_ok s -> (0 < n_dofs s)%nat -> (n < nodes s)%nat ->
  particles s !! i = Some material ->
  (forall d, (d < n_dofs s)%nat -> get3 (c_s_1_db s) n i d = Some c) ->
  get2 (get_average_c_s increment s) n i
  = Some (if increment then c - c_s_ini material else c).
Proof.
  intros Hok Hd Hn Hm Hc.
  pose proof (lookup_lt_Some _ _ _ Hm) as Hi.
  destruct Hok as (_ & H1 & _).
  destruct (has_shape_lookup _ _ _ _ n i 0%nat H1 Hn Hi Hd)
    as (row & v & x & Hrow & _ & Hv & Hlen & _).
  rewrite (get2_get_average_c_s increment s n i row v material Hrow Hv Hm).
  assert (Hall : Forall (eq c) v).
  { apply Forall_lookup. intros d y Hy.
    pose proof (lookup_lt_Some _ _ _ Hy) as Hd'.
    specialize (Hc d ltac:(lia)). unfold get3 in Hc.
    rewrite Hrow in Hc; simpl in Hc. rewrite Hv in Hc; simpl in Hc.
    congruence. }
  rewrite (mean_const c v ltac:(lia) Hall). reflexivity.
Qed.

Lemma uniform_fill_accepts (c0 : R) (s : store) :
  store_ok s ->
  exists s', initial_guess (replicate (length (particles s)) (PyFloat c0)) s
             = (s', Ok tt).
Proof.
  intros Hok. unfold initial_guess.
  destruct (replicate _ _) as [|v vals] eqn:Hrep.
  - assert (Hp : particles s = [])
      by (destruct (particles s); [reflexivity | discriminate]).
    apply initial_guess_loop_accepts; auto.
    + simpl. rewrite length_map. lia.
    + simpl. rewrite Hp. constructor.
  - rewrite <- Hrep. unfold py_assert.
    rewrite bool_decide_eq_true_2 by apply length_replicate.
    apply initial_guess_loop_accepts; auto.
    + rewrite length_replicate. lia.
    + apply Forall_replicate. now exists c0.
Qed.

(** C4 (amended).  After the three databases are filled with one value
    [c0] for every node and material, [get_average_c_s(increment=True)]
    holds, for every node and material, [c0] minus the [c_s_ini] the
    material is configured with: it is 0 for each material whose
    configured [c_s_ini] is the fill value [c0]. *)
Theorem average_increment_after_uniform_fill (c0 : R) (s : store) :
  store_ok s -> (0 < n_dofs s)%nat ->
  exists s',
    initial_guess (replicate (length (particles s)) (PyFloat c0)) s
      = (s', Ok tt) /\
    forall (n i : nat) (material : Material),
      (n < nodes s)%nat -> particles s !! i = Some material ->
      get2 (get_average_c_s true s') n i = Some (c0 - c_s_ini material) /\
      (c_s_ini material = c0 ->
       get2 (get_average_c_s true s') n i = Some 0).
Proof.
  intros Hok Hd.
  destruct (uniform_fill_accepts c0 s Hok) as [s' Hrun].
  exists s'. split; [exact Hrun|].
  intros n i material Hn Hm.
  destruct (initial_guess_accepted _ s s' Hok Hrun)
    as (Hok' & Hp & Hn' & Hd' & Hget).
  pose proof (lookup_lt_Some _ _ _ Hm) as Hi.
  assert (Havg : get2 (get_average_c_s true s') n i
                 = Some (c0 - c_s_ini material)).
  { apply (average_of_constant true s' n i material c0); auto;
      try (rewrite ?Hn', ?Hd', ?Hp; assumption).
    intros d Hdd. rewrite Hd' in Hdd.
    destruct (Hget Current n i d Hn Hi Hdd) as (v & c & Hv & Hc & Hg).
    assert (v = PyFloat c0) as ->.
    { destruct (particles s) as [|m0 ms] eqn:Hps; [simpl in Hi; lia|].
      simpl length in Hv. simpl replicate in Hv. 
      change (PyFloat c0 :: replicate (length ms) (PyFloat c0))
        with (replicate (S (length ms)) (PyFloat c0)) in Hv.
      simpl effective_c_s_ini in Hv.
      change (PyFloat c0 :: replicate (length ms) (PyFloat c0))
        with (replicate (S (length ms)) (PyFloat c0)) in Hv.
      now apply lookup_replicate_1 in Hv as [-> _]. }
    simpl in Hc. injection Hc as <-. exact Hg. }
  split; [exact Havg|].
  intros Heq. rewrite Havg. f_equal. lra.
Qed.

End Average.

Section AverageExamples.

Import ExplicitCoupling.

(** C4, counterexample.  Uniform fill with 1 of a store whose one material is configured
    with [c_s_ini = 500]: the incremented average is [-499], not 0. *)
Lemma average_increment_counterexample :
  ~ Doc.uniform_fill_average_is_zero.
Proof.
  intros Hclaim.
  pose (s := Sample.store1 0 0 0).
  assert (Hrun : initial_guess (replicate (length (particles s)) (PyFloat 1)) s
                 = (fill_store 0 1 s, Ok tt)) by reflexivity.
  specialize (Hclaim 1 s _ (store1_ok 0 0 0) ltac:(simpl; lia) Hrun
                     0%nat 0%nat ltac:(simpl; lia) ltac:(simpl; lia)).
  unfold get2, get_average_c_s, mean, sum_list, c_s_ini in Hclaim.
  simpl in Hclaim. injection Hclaim as Hclaim. lra.
Qed.

Lemma average_increment_after_uniform_fill_witness :
  store_ok (Sample.store1 7 8 9) /\
  (0 < n_dofs (Sample.store1 7 8 9))%nat /\
  exists s',
    initial_guess [PyFloat 500] (Sample.store1 7 8 9) = (s', Ok tt) /\
    get2 (get_average_c_s true s') 0 0 = Some 0.
Proof.
  split; [apply store1_ok|]. split; [simpl; lia|].
  destruct (average_increment_after_uniform_fill 500 (Sample.store1 7 8 9)
              (store1_ok 7 8 9) ltac:(simpl; lia)) as (s' & Hrun & Havg).
  exists s'. split; [exact Hrun|].
  apply (Havg 0%nat 0%nat Sample.graphite); simpl; [lia | reflexivity..].
Defined.

End AverageExamples.

(** ** [get_time_filter_error] *)

Section TimeFilter.

Import ExplicitCoupling.

Lemma get3_map3 (g : R -> R) (a : array3) (n i d : nat) :
  get3 (map3 g a) n i d = g <$> get3 a n i d.
Proof.
  unfold get3, map3. rewrite list_lookup_fmap.
  destruct (a !! n) as [row|]; simpl; [|reflexivity].
  rewrite list_lookup_fmap.
  destruct (row !! i) as [v|]; simpl; [|reflexivity].
  now rewrite list_lookup_fmap.
Qed.

Lemma get3_zip3 (g : R -> R -> R) (a b : array3) (n i d : nat) (x y : R) :
  get3 a n i d = Some x -> get3 b n i d = Some y ->
  get3 (zip3 g a b) n i d = Some (g x y).
Proof.
  unfold get3, zip3. intros Ha Hb. rewrite lookup_zip_with.
  destruct (a !! n) as [ra|]; simpl in *; [|discriminate].
  destruct (b !! n) as [rb|]; simpl in *; [|discriminate].
  rewrite lookup_zip_with.
  destruct (ra !! i) as [va|]; simpl in *; [|discriminate].
  destruct (rb !! i) as [vb|]; simpl in *; [|discriminate].
  rewrite lookup_zip_with, Ha; simpl. rewrite Hb; simpl. reflexivity.
Qed.

Lemma map3_shape (g : R -> R) (n m d : nat) (a : array3) :
  has_shape n m d a -> has_shape n m d (map3 g a).
Proof.
  intros [Hn Ha]. split; [unfold map3; now rewrite length_map|].
  unfold map3. apply Forall_fmap. eapply Forall_impl; [exact Ha|].
  intros row [Hm Hr]; simpl. split; [now rewrite length_map|].
  apply Forall_fmap. eapply Forall_impl; [exact Hr|].
  intros v Hv; simpl. now rewrite length_map.
Qed.

Lemma zip_with_Forall {A B C : Type} (g : A -> B -> C) (PA : A -> Prop)
    (PB : B -> Prop) (PC : C -> Prop) (l : list A) (k : list B) :
  (forall x y, PA x -> PB y -> PC (g x y)) ->
  Forall PA l -> Forall PB k -> Forall PC (zip_with g l k).
Proof.
  intros Hg Hl; revert k.
  induction Hl as [|x l Hx Hl IH]; intros k Hk; simpl; [constructor|].
  destruct Hk as [|y k Hy Hk]; constructor; auto.
Qed.

Lemma zip3_shape (g : R -> R -> R) (n m d : nat) (a b : array3) :
  has_shape n m d a -> has_shape n m d b -> has_shape n m d (zip3 g a b).
Proof.
  intros [Hn Ha] [Hn' Hb]. split.
  { unfold zip3. rewrite length_zip_with. lia. }
  unfold zip3. eapply zip_with_Forall; [| exact Ha | exact Hb].
  intros ra rb [Hma Hra] [Hmb Hrb]; simpl. split.
  { rewrite length_zip_with. lia. }
  eapply zip_with_Forall; [| exact Hra | exact Hrb].
  intros va vb Hva Hvb; simpl in *. rewrite length_zip_with. lia.
Qed.

(** The array [get_time_filter_error] takes the norm of. *)
Lemma time_filter_residual_entry (nu tau : R) (s : store) (n i d : nat)
    (cur prev pp : R) :
  get3 (db_of Current s) n i d = Some cur ->
  get3 (db_of Previous s) n i d = Some prev ->
  get3 (db_of PrevPrev s) n i d = Some pp ->
  get3 (scale3 nu
          (add3 (sub3 (scale3 (1 / (1 + tau)) (c_s_1_db s)) (c_s_0_db s))
                (scale3 (tau / (1 + tau)) (c_s__1_db s)))) n i d
  = Some (Doc.filter_residual nu tau cur prev pp).
Proof.
  simpl. intros Hcur Hprev Hpp.
  unfold scale3 at 1. rewrite get3_map3.
  unfold add3, sub3.
  erewrite get3_zip3; [| erewrite get3_zip3; [reflexivity | | exact Hprev]
                       | unfold scale3; rewrite get3_map3, Hpp; reflexivity].
  2:{ unfold scale3. rewrite get3_map3, Hcur. reflexivity. }
  simpl. f_equal. unfold Doc.filter_residual, Rdiv. ring.
Qed.

(** C1 (amended).  [get_time_filter_error(nu, tau)] is the norm of an
    array of the shape of the databases whose entry, at every node,
    material and dof, is
    [nu * (current/(1+tau) - previous + tau*prevprev/(1+tau))]
    with [current] the entry of [c_s_1_db], [previous] that of
    [c_s_0_db] and [prevprev] that of [c_s__1_db]. *)
Theorem get_time_filter_error_residual (nu tau : R) (s : store) :
  store_ok s -> tau <> -1 ->
  exists error : array3,
    get_time_filter_error nu tau s = norm error /\
    has_shape (nodes s) (length (particles s)) (n_dofs s) error /\
    forall (n i d : nat) (cur prev pp : R),
      get3 (db_of Current s) n i d = Some cur ->
      get3 (db_of Previous s) n i d = Some prev ->
      get3 (db_of PrevPrev s) n i d = Some pp ->
      get3 error n i d = Some (nu * (cur / (1 + tau) - prev
                                     + tau * pp / (1 + tau))).
Proof.
  intros (H0 & H1 & H2) _.
  eexists. split; [reflexivity|]. split.
  - unfold scale3, add3, sub3.
    repeat first [apply map3_shape | apply zip3_shape]; assumption.
  - intros n i d cur prev pp Hcur Hprev Hpp.
    exact (time_filter_residual_entry nu tau s n i d cur prev pp
             Hcur Hprev Hpp).
Qed.

Lemma norm_single (x : R) : norm [[[x]]] = Rabs x.
Proof.
  unfold norm, ravel, sum_list; simpl. rewrite Rplus_0_r.
  apply sqrt_square, Rabs_pos.
Qed.

(** C1, counterexample.  One node, one material, one dof, [current = 2],
    [previous = prevprev = 0], [nu = tau = 1]: the method returns 1, the
    norm the design document words is 2. *)
Lemma time_filter_error_counterexample :
  (1 : R) <> -1 /\
  get_time_filter_error 1 1 (Sample.store1 2 0 0) = 1 /\
  Doc.timeFilterError 1 1 (Sample.store1 2 0 0) = 2 /\
  get_time_filter_error 1 1 (Sample.store1 2 0 0)
  <> Doc.timeFilterError 1 1 (Sample.store1 2 0 0).
Proof.
  assert (Hcode : get_time_filter_error 1 1 (Sample.store1 2 0 0) = 1).
  { unfold get_time_filter_error; simpl. rewrite norm_single.
    replace (1 * (1 / (1 + 1) * 2 - 0 + 1 / (1 + 1) * 0)) with 1 by field.
    apply Rabs_R1. }
  assert (Hdoc : Doc.timeFilterError 1 1 (Sample.store1 2 0 0) = 2).
  { unfold Doc.timeFilterError; simpl. rewrite norm_single.
    replace (1 * (0 / (1 + 1) - 2 + 1 * 0 / (1 + 1))) with (- 2) by field.
    rewrite Rabs_left by lra. lra. }
  split; [lra|]. split; [exact Hcode|]. split; [exact Hdoc|].
  rewrite Hcode, Hdoc. lra.
Qed.

Lemma get_time_filter_error_residual_witness :
  store_ok (Sample.store1 2 0 0) /\ (1 : R) <> -1 /\
  exists error : array3,
    get_time_filter_error 1 1 (Sample.store1 2 0 0) = norm error /\
    get3 error 0 0 0 = Some (1 * (2 / (1 + 1) - 0 + 1 * 0 / (1 + 1))).
Proof.
  split; [apply store1_ok|]. split; [lra|].
  destruct (get_time_filter_error_residual 1 1 (Sample.store1 2 0 0)
              (store1_ok 2 0 0) ltac:(lra)) as (error & Hnorm & _ & Hget).
  exists error. split; [exact Hnorm|].
  apply Hget; reflexivity.
Defined.

End TimeFilter.

(** ** [_j_li] *)

Section ReactionFlux.

Import ExplicitCoupling.

(** C7.  [_j_li], called as [c_s_equation] calls it for a material, is
    the Butler-Volmer flux of the design document: exchange current
    [k_eff * c_e^alpha * (c_s_max - c_s)^alpha * c_s^alpha], Arrhenius
    factor [k_0 * exp(k_0_Ea/R * (1/k_0_Tref - 1/T))] and overpotential
    [phi - OCV(c_s/c_s_max)]. *)
Theorem j_li_is_butler_volmer (material : Material)
    (c_s c_e phi T alpha F R_ : R) :
  _j_li c_s c_e phi T (k_0 material) (k_0_Ea material) (k_0_Tref material)
        alpha F R_ (U material) (c_s_max material)
  = Doc.reaction_flux material c_s c_e phi T alpha F R_.
Proof.
  unfold _j_li, Doc.reaction_flux, Doc.butler_volmer, Doc.i0, Doc.k_eff,
    Doc.eta.
  do 3 f_equal. unfold Rdiv. ring.
Qed.

End ReactionFlux.

(** ** Loops that may raise *)

Section Loops.

Context {A B : Type} (g : A -> result B).

Lemma bind_Ok_inv {C D : Type} (r : result C) (k : C -> result D) (y : D) :
  bind r k = Ok y -> exists x, r = Ok x /\ k x = Ok y.
Proof. destruct r as [x|e]; simpl; [eauto | discriminate]. Qed.

Lemma mapM_Ok_inv (l : list A) (out : list B) :
  mapM g l = Ok out -> Forall2 (fun x y => g x = Ok y) l out.
Proof.
  revert out. induction l as [|x l IH]; simpl; intros out Hrun.
  - injection Hrun as <-. constructor.
  - apply bind_Ok_inv in Hrun as (y & Hy & Hrun).
    apply bind_Ok_inv in Hrun as (ys & Hys & Hrun).
    injection Hrun as <-. constructor; auto.
Qed.

Lemma mapM_Ok_intro (l : list A) :
  Forall (fun x => exists y, g x = Ok y) l -> exists out, mapM g l = Ok out.
Proof.
  induction 1 as [|x l [y Hy] _ [ys Hys]]; simpl.
  - now exists [].
  - rewrite Hy; simpl. rewrite Hys; simpl. now eexists.
Qed.

Lemma mapM_Ok_length (l : list A) (out : list B) :
  mapM g l = Ok out -> length out = length l.
Proof. intros H. symmetry. exact (Forall2_length _ _ _ (mapM_Ok_inv _ _ H)). Qed.

Lemma mapM_Ok_lookup (l : list A) (out : list B) (i : nat) (x : A) :
  mapM g l = Ok out -> l !! i = Some x ->
  exists y, out !! i = Some y /\ g x = Ok y.
Proof.
  intros H Hx.
  exact (Forall2_lookup_l _ _ _ _ _ (mapM_Ok_inv _ _ H) Hx).
Qed.

End Loops.

Lemma py_index_Some {A : Type} (l : list A) (i : nat) (x : A) :
  l !! i = Some x -> py_index l i = Ok x.
Proof. unfold py_index. now intros ->. Qed.

(** ** [LAM.eps_s_variation] *)

Section LossOfActiveMaterial.

Import LAM.

Lemma real_pow_0_l (y : R) : 0 < y -> real_pow 0 y = 0.
Proof.
  intros Hy. unfold real_pow.
  destruct (Req_dec_T 0 0) as [_|Hne]; [|congruence].
  destruct (Req_dec_T y 0) as [->|_]; [lra | reflexivity].
Qed.

Lemma conditional_gt0_nonpos (s : R) : s <= 0 -> conditional_gt0 s = 0.
Proof. intros Hs. unfold conditional_gt0. destruct (Rlt_dec 0 s); [lra | reflexivity]. Qed.

Lemma conditional_gt0_pos (s : R) : 0 < s -> conditional_gt0 s = s.
Proof. intros Hs. unfold conditional_gt0. destruct (Rlt_dec 0 s); [reflexivity | lra]. Qed.

(** C3.  With the model ['stress'] and a positive exponent [m],
    [eps_s_variation] returns one increment per active material; the
    increment of a material whose hydrostatic stress is not positive is
    0, that of a material with a positive stress [sigma_h] is
    [- delta_t * beta * (sigma_h / critical_stress) ** m]. *)
Theorem eps_s_variation_sign_policy (cfg : LAMParams)
    (active_material : list ActiveMaterial) (sigma_h : list R) (delta_t : R) :
  model cfg = "stress"%string -> 0 < m cfg ->
  length sigma_h = length active_material ->
  Forall (fun am => critical_stress am <> 0) active_material ->
  exists delta_eps_s,
    eps_s_variation cfg active_material sigma_h delta_t = Ok delta_eps_s /\
    length delta_eps_s = length active_material /\
    forall (i : nat) (am : ActiveMaterial) (s : R),
      active_material !! i = Some am -> sigma_h !! i = Some s ->
      exists value,
        delta_eps_s !! i = Some value /\
        (s <= 0 -> value = 0) /\
        (0 < s ->
         value = - delta_t * beta cfg
                 * real_pow (s / critical_stress am) (m cfg)).
Proof.
  intros Hmodel Hm Hlen _. unfold eps_s_variation. rewrite Hmodel; simpl.
  match goal with |- context [mapM ?g ?l] =>
    destruct (mapM_Ok_intro g l) as [out Hout] end.
  { apply Forall_lookup. intros i [j am] Hi.
    rewrite list_lookup_imap in Hi.
    destruct (active_material !! i) as [am'|] eqn:Ham; [|discriminate].
    simpl in Hi. injection Hi as <- <-.
    destruct (lookup_lt_is_Some_2 sigma_h i) as [s Hs].
    { rewrite Hlen. eauto using lookup_lt_Some. }
    rewrite (py_index_Some _ _ _ Hs); simpl. now eexists. }
  exists out. split; [exact Hout|]. split.
  { rewrite (mapM_Ok_length _ _ _ Hout). apply length_imap. }
  intros i am s Ham Hs.
  destruct (mapM_Ok_lookup _ _ _ i (i, am) Hout) as (value & Hv & Hrun).
  { rewrite list_lookup_imap, Ham. reflexivity. }
  exists value. split; [exact Hv|].
  rewrite (py_index_Some _ _ _ Hs) in Hrun; simpl in Hrun.
  injection Hrun as <-. split.
  - intros Hneg. rewrite (conditional_gt0_nonpos s Hneg).
    unfold Rdiv. rewrite Rmult_0_l, (real_pow_0_l _ Hm). ring.
  - intros Hpos. rewrite (conditional_gt0_pos s Hpos). ring.
Qed.

Lemma eps_s_variation_sign_policy_witness :
  LAM.model Sample.lam_stress = "stress"%string /\
  0 < LAM.m Sample.lam_stress /\
  length [-5; 120] = length [Sample.am_graphite; Sample.am_graphite] /\
  Forall (fun am => critical_stress am <> 0)
         [Sample.am_graphite; Sample.am_graphite] /\
  exists delta_eps_s,
    eps_s_variation Sample.lam_stress
      [Sample.am_graphite; Sample.am_graphite] [-5; 120] 10 = Ok delta_eps_s /\
    delta_eps_s !! 0%nat = Some 0 /\
    delta_eps_s !! 1%nat = Some (- 10 * 1 * real_pow (120 / 60) 2).
Proof.
  assert (Hm : 0 < LAM.m Sample.lam_stress) by (simpl; lra).
  assert (Hcrit : Forall (fun am => critical_stress am <> 0)
                         [Sample.am_graphite; Sample.am_graphite])
    by (repeat constructor; simpl; lra).
  split; [reflexivity|]. split; [exact Hm|]. split; [reflexivity|].
  split; [exact Hcrit|].
  destruct (eps_s_variation_sign_policy Sample.lam_stress
              [Sample.am_graphite; Sample.am_graphite] [-5; 120] 10
              eq_refl Hm eq_refl Hcrit) as (out & Hrun & _ & Hget).
  exists out. split; [exact Hrun|]. split.
  - destruct (Hget 0%nat Sample.am_graphite (-5) eq_refl eq_refl)
      as (v & Hv & Hneg & _).
    rewrite Hv. f_equal. apply Hneg. lra.
  - destruct (Hget 1%nat Sample.am_graphite 120 eq_refl eq_refl)
      as (v & Hv & _ & Hpos).
    rewrite Hv. f_equal. apply Hpos. lra.
Defined.

End LossOfActiveMaterial.

(** ** [SEI.delta_growth] *)

Section SEIGrowth.

Import SEI.

(** The thickness that makes the growth residual vanish. *)
Lemma delta_growth_root (DT : TimeScheme) (delta_0 delta_1 j_sei : R)
    (cfg : SEIParams) (F : R) :
  delta_t DT <> 0 ->
  (delta_growth (Some DT) delta_0 delta_1 j_sei cfg F = 0 <->
   delta_1 = delta_0 - delta_t DT * (j_sei * M cfg / (2 * F * rho cfg))).
Proof.
  intros Hdt. unfold delta_growth, dt.
  set (q := j_sei * M cfg / (2 * F * rho cfg)).
  split; intros H.
  - assert (Hq : (delta_1 - delta_0) / delta_t DT = - q) by lra.
    apply (f_equal (fun x => x * delta_t DT)) in Hq.
    unfold Rdiv in Hq. rewrite Rmult_assoc, Rinv_l, Rmult_1_r in Hq by exact Hdt.
    lra.
  - rewrite H. field. exact Hdt.
Qed.

Lemma growth_rate_sign (j_sei : R) (cfg : SEIParams) (F : R) :
  0 < M cfg -> 0 < rho cfg -> 0 < F ->
  (j_sei <= 0 -> j_sei * M cfg / (2 * F * rho cfg) <= 0) /\
  (0 < j_sei -> 0 < j_sei * M cfg / (2 * F * rho cfg)).
Proof.
  intros HM Hrho HF.
  assert (Hden : 0 < 2 * F * rho cfg) by nra.
  pose proof (Rinv_0_lt_compat _ Hden) as Hinv.
  unfold Rdiv. set (r := / (2 * F * rho cfg)) in *.
  split; intros Hj.
  - assert (j_sei * M cfg <= 0) by nra. nra.
  - assert (0 < j_sei * M cfg) by nra. nra.
Qed.

(** The side-reaction current that solves the residual of [j_SEI] is
    not positive when the exchange current [i_0s] is not negative. *)
Lemma j_SEI_root_nonpos (j i_0s phi_s phi_e T J G_film : R)
    (cfg : SEIParams) (F R_ : R) :
  0 <= i_0s ->
  j_SEI j i_0s phi_s phi_e T J G_film cfg F R_ = 0 -> j <= 0.
Proof.
  unfold j_SEI. intros Hi H.
  pose proof (exp_pos (- (beta cfg * F / R_)
                       * SEI_overpotential phi_s phi_e J G_film cfg / T)).
  nra.
Qed.

(** C2 (amended).  With positive step, molar mass, density and Faraday
    constant and a current [j_sei] that is not positive, the thickness
    that solves the growth residual at the new time level is at least
    the thickness of the previous level; it is
    [delta_0 - delta_t * j_sei * M / (2 F rho)]. *)
Theorem delta_growth_monotone (DT : TimeScheme) (delta_0 delta_1 j_sei : R)
    (cfg : SEIParams) (F : R) :
  0 < delta_t DT -> 0 < M cfg -> 0 < rho cfg -> 0 < F ->
  j_sei <= 0 ->
  delta_growth (Some DT) delta_0 delta_1 j_sei cfg F = 0 ->
  delta_1 = delta_0 - delta_t DT * (j_sei * M cfg / (2 * F * rho cfg)) /\
  delta_0 <= delta_1.
Proof.
  intros Hdt HM Hrho HF Hj Hres.
  apply delta_growth_root in Hres; [|lra].
  split; [exact Hres|].
  destruct (growth_rate_sign j_sei cfg F HM Hrho HF) as [Hq _].
  specialize (Hq Hj). nra.
Qed.

(** C2, counterexample.  Step 1, [M = 2], [rho = F = 1], previous thickness 1 and
    [j_sei = 1 > 0]: the residual vanishes at the new thickness 0. *)
Lemma delta_growth_counterexample :
  ~ Doc.sei_thickness_monotone_for_positive_current.
Proof.
  intros Hclaim.
  specialize (Hclaim Sample.unit_step 1 0 1 Sample.sei_cfg 1).
  simpl in Hclaim.
  assert (Hres : delta_growth (Some Sample.unit_step) 1 0 1 Sample.sei_cfg 1 = 0).
  { unfold delta_growth, dt; simpl. field. }
  specialize (Hclaim ltac:(lra) ltac:(lra) ltac:(lra) ltac:(lra) ltac:(lra) Hres).
  lra.
Qed.

Lemma delta_growth_monotone_witness :
  0 < delta_t Sample.unit_step /\ 0 < M Sample.sei_cfg /\
  0 < rho Sample.sei_cfg /\ (0 < 1) /\ (-1 <= 0) /\
  delta_growth (Some Sample.unit_step) 1 2 (-1) Sample.sei_cfg 1 = 0 /\
  (1 <= 2).
Proof.
  assert (Hres : delta_growth (Some Sample.unit_step) 1 2 (-1) Sample.sei_cfg 1 = 0).
  { unfold delta_growth, dt; simpl. field. }
  assert (H1 : 0 < delta_t Sample.unit_step) by (simpl; lra).
  assert (H2 : 0 < M Sample.sei_cfg) by (simpl; lra).
  assert (H3 : 0 < rho Sample.sei_cfg) by (simpl; lra).
  assert (H4 : 0 < 1) by lra.
  assert (H5 : -1 <= 0) by lra.
  repeat (split; [assumption|]).
  exact (proj2 (delta_growth_monotone Sample.unit_step 1 2 (-1) Sample.sei_cfg 1
                  H1 H2 H3 H4 H5 Hres)).
Defined.

End SEIGrowth.

(** ** [SEI.__init__] and the order of the spectral model *)

Section SEIConstruction.

Import SEI.

Lemma tag_ok_spec (tag : string) :
  tag_ok tag = true <-> tag = "anode"%string \/ tag = "cathode"%string.
Proof.
  unfold tag_ok. rewrite orb_true_iff, !String.eqb_eq. tauto.
Qed.

(** C9 (amended).  [SEI.__init__] checks the tag and nothing else: with
    the tag ['anode'] or ['cathode'] it returns, for every integer
    [order], an object that stores [order] as given; with another tag it
    raises, whatever [order] is.  [build_matrix], which runs when
    [setup] constructs the spectral model, raises [ValueError] for
    [order <= -2] and returns empty operators for [order = -1]. *)
Theorem SEI_init_does_not_check_order (tag : string) (order : Z) (b : Basis) :
  init tag order
  = (if tag_ok tag
     then Ok {| domain := String.substring 0 1 tag; tag := tag;
                order := order; SEI_cfg := None |}
     else Raise (AssertionError EmptyString)) /\
  build_matrix (-1) b = Ok {| D := []; K1 := []; K2 := []; P := [] |} /\
  (forall k : Z, (k <= -2)%Z -> build_matrix k b = Raise ValueError).
Proof.
  split; [|split].
  - unfold init, py_assert. now destruct (tag_ok tag).
  - reflexivity.
  - intros k Hk. unfold build_matrix.
    now rewrite (proj2 (Z.ltb_lt (k + 1) 0)) by lia.
Qed.

(** C9, counterexample.  [SEI('anode', order=-1)] returns. *)
Lemma SEI_init_counterexample :
  ~ Doc.negative_order_fails_at_construction.
Proof.
  intros Hclaim.
  destruct (Hclaim "anode"%string (-1)%Z ltac:(lia)) as [e He].
  discriminate He.
Qed.

End SEIConstruction.

(** ** [build_matrix] *)

Section SpectralOperators.

Import SEI.

Lemma trimseq_nonempty (c : poly) : c <> [] -> trimseq c <> [].
Proof.
  destruct c as [|a c]; [congruence|]. intros _. simpl.
  destruct (trimseq c) as [|b [|b' t]]; try discriminate.
  destruct (Req_dec_T b 0); discriminate.
Qed.

Lemma convolve_nonempty (c1 c2 : poly) :
  c1 <> [] -> c2 <> [] -> convolve c1 c2 <> [].
Proof.
  destruct c1 as [|a [|a' c1]]; [congruence| |];
    destruct c2 as [|b c2]; try congruence; intros _ _; discriminate.
Qed.

Lemma product_nonempty (c1 c2 : poly) :
  c1 <> [] -> c2 <> [] -> product c1 c2 <> [].
Proof.
  intros H1 H2. unfold product.
  apply trimseq_nonempty, convolve_nonempty; now apply trimseq_nonempty.
Qed.

Lemma antiderivative_nonempty (c : poly) : c <> [] -> antiderivative c <> [].
Proof.
  destruct c as [|a [|a' c]]; [congruence| |]; intros _; simpl;
    [destruct (Req_dec_T a 0)|]; discriminate.
Qed.

Lemma polymul_Ok (c1 c2 : poly) :
  c1 <> [] -> c2 <> [] -> polymul c1 c2 = Ok (product c1 c2).
Proof. destruct c1, c2; simpl; congruence. Qed.

Lemma polyint_Ok (c : poly) : c <> [] -> polyint c = Ok (antiderivative c).
Proof. destruct c; simpl; congruence. Qed.

Lemma polyval_Ok (x : R) (c : poly) : c <> [] -> polyval x c = Ok (horner x c).
Proof. destruct c; simpl; congruence. Qed.

(** [polyval(x, polyint(polymul(p, q)))] *)
Lemma integral_Ok (x : R) (p q : poly) :
  p <> [] -> q <> [] ->
  (let! r := polymul p q in let! a := polyint r in polyval x a)
  = Ok (horner x (antiderivative (product p q))).
Proof.
  intros Hp Hq. rewrite (polymul_Ok p q Hp Hq); simpl.
  pose proof (product_nonempty p q Hp Hq) as Hr.
  rewrite (polyint_Ok _ Hr); simpl.
  apply polyval_Ok, antiderivative_nonempty, Hr.
Qed.

Lemma basis_lookup (order : Z) (b : Basis) (i : nat) :
  basis_ok order b -> (i < Z.to_nat (order + 1))%nat ->
  exists fi dfi xdfi,
    f b !! i = Some fi /\ df b !! i = Some dfi /\ xdf b !! i = Some xdfi /\
    fi <> [] /\ dfi <> [] /\ xdfi <> [].
Proof.
  intros (Hf & Hdf & Hxdf & Hfn & Hdfn & Hxdfn) Hi.
  destruct (lookup_lt_is_Some_2 (f b) i) as [fi Hfi]; [lia|].
  destruct (lookup_lt_is_Some_2 (df b) i) as [dfi Hdfi]; [lia|].
  destruct (lookup_lt_is_Some_2 (xdf b) i) as [xdfi Hxdfi]; [lia|].
  exists fi, dfi, xdfi. split_and!; auto.
  - exact (proj1 (Forall_lookup _ _) Hfn _ _ Hfi).
  - exact (proj1 (Forall_lookup _ _) Hdfn _ _ Hdfi).
  - exact (proj1 (Forall_lookup _ _) Hxdfn _ _ Hxdfi).
Qed.

(** The inner loop body returns for indices within the basis. *)
Lemma entries_Ok (order : Z) (b : Basis) (i j : nat) :
  basis_ok order b ->
  (i < Z.to_nat (order + 1))%nat -> (j < Z.to_nat (order + 1))%nat ->
  exists e, entries b i j = Ok e.
Proof.
  intros Hb Hi Hj.
  destruct (basis_lookup order b i Hb Hi)
    as (fi & dfi & xdfi & Hfi & Hdfi & Hxdfi & Hfin & Hdfin & Hxdfin).
  destruct (basis_lookup order b j Hb Hj)
    as (fj & dfj & xdfj & Hfj & Hdfj & _ & Hfjn & Hdfjn & _).
  pose proof (product_nonempty fi fj Hfin Hfjn) as Hff.
  pose proof (product_nonempty dfi fj Hdfin Hfjn) as Hdf.
  pose proof (product_nonempty xdfi fj Hxdfin Hfjn) as Hxf.
  pose proof (product_nonempty dfi dfj Hdfin Hdfjn) as Hdd.
  unfold entries.
  rewrite (py_index_Some _ _ _ Hfi), (py_index_Some _ _ _ Hfj),
    (py_index_Some _ _ _ Hdfi), (py_index_Some _ _ _ Hxdfi),
    (py_index_Some _ _ _ Hdfj).
  cbn [bind].
  rewrite (polymul_Ok fi fj Hfin Hfjn), (polymul_Ok dfi fj Hdfin Hfjn),
    (polymul_Ok xdfi fj Hxdfin Hfjn), (polymul_Ok dfi dfj Hdfin Hdfjn).
  cbn [bind].
  rewrite (polyint_Ok _ Hff), (polyint_Ok _ Hdf), (polyint_Ok _ Hxf),
    (polyint_Ok _ Hdd).
  rewrite (polyval_Ok 0 _ Hff), (polyval_Ok 1 _ Hdf).
  cbn [bind].
  rewrite (polyval_Ok 1 _ (antiderivative_nonempty _ Hff)),
    (polyval_Ok 1 _ (antiderivative_nonempty _ Hdf)),
    (polyval_Ok 1 _ (antiderivative_nonempty _ Hxf)),
    (polyval_Ok 1 _ (antiderivative_nonempty _ Hdd)).
  cbn [bind].
  now eexists.
Qed.

Lemma py_range_lookup (n : Z) (i x : nat) :
  py_range n !! i = Some x -> x = i /\ (i < Z.to_nat n)%nat.
Proof.
  unfold py_range. intros H. apply lookup_seq in H as [-> Hlt].
  split; [reflexivity | exact Hlt].
Qed.

Lemma py_range_length (n : Z) : length (py_range n) = Z.to_nat n.
Proof. unfold py_range. apply length_seq. Qed.

(** *** Shapes *)

Lemma drop_last_column_shape (n m : nat) (a : matrix) :
  mat_shape n m a -> mat_shape n (m - 1) (drop_last_column a).
Proof.
  intros [Hn Ha]. unfold drop_last_column.
  split; [now rewrite length_map|].
  apply Forall_fmap. eapply Forall_impl; [exact Ha|].
  intros row Hrow; unfold compose; simpl in *.
  rewrite length_take. lia.
Qed.

Lemma mat_zip_shape (g : R -> R -> R) (n m : nat) (a b : matrix) :
  mat_shape n m a -> mat_shape n m b ->
  mat_shape n m (zip_with (zip_with g) a b).
Proof.
  intros [Hn Ha] [Hn' Hb]. split.
  { rewrite length_zip_with. lia. }
  eapply zip_with_Forall; [| exact Ha | exact Hb].
  intros ra rb Hra Hrb; simpl in *. rewrite length_zip_with. lia.
Qed.

Lemma select_shape (n : nat) (sel : Entries -> R)
    (rows : list (R * list Entries)) :
  length rows = n -> Forall (fun r => length (snd r) = n) rows ->
  mat_shape n n (map (fun r => map sel (snd r)) rows).
Proof.
  intros Hn Hrows. split; [now rewrite length_map|].
  apply Forall_fmap. eapply Forall_impl; [exact Hrows|].
  intros r Hr; simpl. now rewrite length_map.
Qed.

(** C5.  For an order [k >= 0] and a basis of [k + 1] polynomials,
    [build_matrix] returns operators [D], [K1], [K2] of shape
    [(k+1, k)] and a vector [P] of length [k + 1]; two runs with the
    same order and basis return the same operators. *)
Theorem build_matrix_shapes (k : Z) (b : Basis) :
  (0 <= k)%Z -> basis_ok k b ->
  exists ops,
    build_matrix k b = Ok ops /\
    mat_shape (Z.to_nat (k + 1)) (Z.to_nat k) (D ops) /\
    mat_shape (Z.to_nat (k + 1)) (Z.to_nat k) (K1 ops) /\
    mat_shape (Z.to_nat (k + 1)) (Z.to_nat k) (K2 ops) /\
    length (P ops) = Z.to_nat (k + 1) /\
    forall first second,
      first = build_matrix k b -> second = build_matrix k b ->
      first = second /\ first = Ok ops.
Proof.
  intros Hk Hb. unfold build_matrix.
  rewrite (proj2 (Z.ltb_ge (k + 1) 0)) by lia.
  set (n := Z.to_nat (k + 1)).
  match goal with |- context [mapM ?g (py_range (k + 1))] =>
    set (body := g);
    destruct (mapM_Ok_intro body (py_range (k + 1))) as [rows Hrows] end.
  { apply Forall_lookup. intros i x Hx.
    apply py_range_lookup in Hx as [-> Hi]. unfold body.
    destruct (basis_lookup k b i Hb Hi) as (fi & _ & _ & Hfi & _ & _ & Hfin & _).
    rewrite (py_index_Some _ _ _ Hfi); simpl.
    rewrite (polyval_Ok 0 fi Hfin); simpl.
    match goal with |- context [mapM ?g (py_range (k + 1))] =>
      destruct (mapM_Ok_intro g (py_range (k + 1))) as [es Hes] end.
    { apply Forall_lookup. intros j y Hy.
      apply py_range_lookup in Hy as [-> Hj].
      exact (entries_Ok k b i j Hb Hi Hj). }
    rewrite Hes; simpl. now eexists. }
  rewrite Hrows; simpl.
  assert (Hlen : length rows = n).
  { rewrite (mapM_Ok_length _ _ _ Hrows). apply py_range_length. }
  assert (Hrow : Forall (fun r => length (snd r) = n) rows).
  { apply Forall_lookup. intros i r Hr.
    destruct (lookup_lt_is_Some_2 (py_range (k + 1)) i) as [x Hx].
    { rewrite py_range_length. apply lookup_lt_Some in Hr. fold n. lia. }
    destruct (mapM_Ok_lookup _ _ _ i x Hrows Hx) as (r' & Hr' & Hrun).
    assert (r' = r) as -> by congruence.
    unfold body in Hrun.
    apply bind_Ok_inv in Hrun as (fi & _ & Hrun).
    apply bind_Ok_inv in Hrun as (Pi & _ & Hrun).
    apply bind_Ok_inv in Hrun as (es & Hes & Hrun).
    injection Hrun as <-. simpl.
    rewrite (mapM_Ok_length _ _ _ Hes). apply py_range_length. }
  assert (Hsel : forall sel,
             mat_shape n (Z.to_nat k)
               (drop_last_column (map (fun r => map sel (snd r)) rows))).
  { intros sel. replace (Z.to_nat k) with (n - 1)%nat by (unfold n; lia).
    apply drop_last_column_shape, select_shape; assumption. }
  eexists. split; [reflexivity|]. simpl. split_and!.
  - apply Hsel.
  - unfold mat_add, mat_sub. repeat apply mat_zip_shape; apply Hsel.
  - unfold mat_sub. apply mat_zip_shape; apply Hsel.
  - now rewrite length_map.
  - intros first second -> ->. split; reflexivity.
Qed.

Lemma basis1_ok : basis_ok 1 Sample.basis1.
Proof.
  unfold basis_ok; simpl. split_and!; try reflexivity;
    repeat constructor; discriminate.
Defined.

Lemma build_matrix_shapes_witness :
  (0 <= 1)%Z /\ basis_ok 1 Sample.basis1 /\
  exists ops,
    build_matrix 1 Sample.basis1 = Ok ops /\
    mat_shape 2 1 (D ops) /\ mat_shape 2 1 (K1 ops) /\
    mat_shape 2 1 (K2 ops) /\ length (P ops) = 2%nat.
Proof.
  split; [lia|]. split; [exact basis1_ok|].
  destruct (build_matrix_shapes 1 Sample.basis1 ltac:(lia) basis1_ok)
    as (ops & Hrun & HD & HK1 & HK2 & HP & _).
  exists ops. split_and!; assumption.
Defined.

End SpectralOperators.

(** * Further properties of the particle model *)

(** ** The reaction flux [_j_li] *)

Section ReactionFluxProperties.

Import ExplicitCoupling.















End ReactionFluxProperties.

(** ** The norm and the time-filter error *)

Section TimeFilterProperties.

Import ExplicitCoupling.


Lemma sum_squares_nonneg (l : list R) :
  0 <= sum_list (map (fun x => Rabs x * Rabs x) l).
Proof.
  induction l as [|x l IH]; unfold sum_list in *; simpl; [lra|].
  pose proof (Rabs_pos x). nra.
Qed.

Lemma sum_squares_zero (l : list R) :
  sum_list (map (fun x => Rabs x * Rabs x) l) = 0 <-> Forall (eq 0) l.
Proof.
  induction l as [|x l IH]; unfold sum_list in *; simpl.
  - split; [constructor | reflexivity].
  - pose proof (sum_squares_nonneg l) as Hl. unfold sum_list in Hl.
    pose proof (Rabs_pos x) as Hx.
    split.
    + intros H.
      assert (Hx0 : Rabs x = 0) by nra.
      constructor.
      * destruct (Req_dec x 0) as [->|Hne]; [reflexivity|].
        apply Rabs_no_R0 in Hne. contradiction.
      * apply IH. nra.
    + intros H. inversion H as [|? ? <- Hl']; subst.
      apply IH in Hl'. rewrite Hl', Rabs_R0. lra.
Qed.



Lemma norm_zero (a : array3) : norm a = 0 <-> Forall (eq 0) (ravel a).
Proof.
  unfold norm. rewrite <- sum_squares_zero. split.
  - apply sqrt_eq_0, sum_squares_nonneg.
  - intros ->. apply sqrt_0.
Qed.



(** The entries of the flattened array are the entries of the array. *)
Lemma in_ravel (a : array3) (x : R) :
  In x (ravel a) <-> exists n i d, get3 a n i d = Some x.
Proof.
  unfold ravel, get3. split.
  - intros H. apply in_concat in H as (v & Hv & Hx).
    apply in_concat in Hv as (row & Hrow & Hv).
    apply list_elem_of_In, list_elem_of_lookup in Hrow as [n Hn].
    apply list_elem_of_In, list_elem_of_lookup in Hv as [i Hi].
    apply list_elem_of_In, list_elem_of_lookup in Hx as [d Hd].
    exists n, i, d. rewrite Hn; simpl. rewrite Hi; simpl. exact Hd.
  - intros (n & i & d & H).
    destruct (a !! n) as [row|] eqn:Hn; simpl in H; [|discriminate].
    destruct (row !! i) as [v|] eqn:Hi; simpl in H; [|discriminate].
    apply in_concat. exists v. split.
    + apply in_concat. exists row. split.
      * apply list_elem_of_In, list_elem_of_lookup. eauto.
      * apply list_elem_of_In, list_elem_of_lookup. eauto.
    + apply list_elem_of_In, list_elem_of_lookup. eauto.
Qed.

Lemma get3_Some_bounds (n m d : nat) (a : array3) (n' i d' : nat) (x : R) :
  has_shape n m d a -> get3 a n' i d' = Some x ->
  (n' < n)%nat /\ (i < m)%nat /\ (d' < d)%nat.
Proof.
  intros [Hn Ha] H. unfold get3 in H.
  destruct (a !! n') as [row|] eqn:Hrow; simpl in H; [|discriminate].
  destruct (row !! i) as [v|] eqn:Hv; simpl in H; [|discriminate].
  destruct (proj1 (Forall_lookup _ _) Ha _ _ Hrow) as [Hm Hr].
  pose proof (proj1 (Forall_lookup _ _) Hr _ _ Hv) as Hd; simpl in Hd.
  apply lookup_lt_Some in Hrow, Hv, H. lia.
Qed.

Lemma filter_error_array_shape (nu tau : R) (s : store) :
  store_ok s ->
  has_shape (nodes s) (length (particles s)) (n_dofs s)
            (filter_error_array nu tau s).
Proof.
  intros (H0 & H1 & H2). unfold filter_error_array, scale3, add3, sub3.
  repeat first [apply map3_shape | apply zip3_shape]; assumption.
Qed.

(** Every entry of the error array comes from the three generations at
    its place. *)
Lemma filter_error_array_entry (nu tau : R) (s : store) (n i d : nat) (x : R) :
  store_ok s -> get3 (filter_error_array nu tau s) n i d = Some x ->
  exists cur prev pp,
    get3 (db_of Current s) n i d = Some cur /\
    get3 (db_of Previous s) n i d = Some prev /\
    get3 (db_of PrevPrev s) n i d = Some pp /\
    x = Doc.filter_residual nu tau cur prev pp.
Proof.
  intros Hok Hx.
  destruct (get3_Some_bounds _ _ _ _ _ _ _ _
              (filter_error_array_shape nu tau s Hok) Hx) as (Hn & Hi & Hd).
  destruct (get3_is_Some _ _ _ _ n i d (store_ok_db_of s Current Hok) Hn Hi Hd)
    as [cur Hcur].
  destruct (get3_is_Some _ _ _ _ n i d (store_ok_db_of s Previous Hok) Hn Hi Hd)
    as [prev Hprev].
  destruct (get3_is_Some _ _ _ _ n i d (store_ok_db_of s PrevPrev Hok) Hn Hi Hd)
    as [pp Hpp].
  exists cur, prev, pp. split_and!; auto.
  pose proof (time_filter_residual_entry nu tau s n i d cur prev pp
                Hcur Hprev Hpp) as He.
  unfold filter_error_array in Hx. congruence.
Qed.

Lemma filter_residual_zero (nu tau cur prev pp : R) :
  tau <> -1 ->
  cur - prev = tau * (prev - pp) -> Doc.filter_residual nu tau cur prev pp = 0.
Proof.
  intros Htau Hlin. unfold Doc.filter_residual.
  replace (cur / (1 + tau) - prev + tau * pp / (1 + tau))
    with ((cur - prev - tau * (prev - pp)) / (1 + tau)) by (field; lra).
  rewrite Hlin. unfold Rdiv. ring.
Qed.

Lemma filter_residual_zero_inv (nu tau cur prev pp : R) :
  tau <> -1 -> nu <> 0 ->
  Doc.filter_residual nu tau cur prev pp = 0 ->
  cur - prev = tau * (prev - pp).
Proof.
  intros Htau Hnu H. unfold Doc.filter_residual in H.
  apply Rmult_integral in H as [H|H]; [contradiction|].
  apply (f_equal (fun x => x * (1 + tau))) in H.
  field_simplify in H; lra.
Qed.

(** The error is 0 as soon as, at every place, the last increment is
    [tau] times the increment before. *)
Lemma time_filter_error_zero_intro (nu tau : R) (s : store) :
  store_ok s -> tau <> -1 ->
  (forall n i d cur prev pp,
     get3 (db_of Current s) n i d = Some cur ->
     get3 (db_of Previous s) n i d = Some prev ->
     get3 (db_of PrevPrev s) n i d = Some pp ->
     cur - prev = tau * (prev - pp)) ->
  get_time_filter_error nu tau s = 0.
Proof.
  intros Hok Htau Hlin.
  change (norm (filter_error_array nu tau s) = 0).
  apply norm_zero, Forall_forall. intros x Hx.
  apply list_elem_of_In, in_ravel in Hx as (n & i & d & Hx).
  destruct (filter_error_array_entry nu tau s n i d x Hok Hx)
    as (cur & prev & pp & Hcur & Hprev & Hpp & ->).
  symmetry. apply filter_residual_zero; eauto.
Qed.

(** X5.  In exact arithmetic, for [nu <> 0] and [tau <> -1], the
    residual of line 186 vanishes, and with it its norm, exactly when
    at every node, material and dof the step from the previous to the
    current generation is [tau] times the step from the twice-previous
    to the previous one.  (On doubles the method then returns the
    rounding error of the three terms, which need not be 0.) *)
Theorem time_filter_error_zero_iff (nu tau : R) (s : store) :
  store_ok s -> tau <> -1 -> nu <> 0 ->
  (get_time_filter_error nu tau s = 0 <->
   forall n i d cur prev pp,
     get3 (db_of Current s) n i d = Some cur ->
     get3 (db_of Previous s) n i d = Some prev ->
     get3 (db_of PrevPrev s) n i d = Some pp ->
     cur - prev = tau * (prev - pp)).
Proof.
  intros Hok Htau Hnu. split.
  - intros Hzero n i d cur prev pp Hcur Hprev Hpp.
    change (norm (filter_error_array nu tau s) = 0) in Hzero.
    apply norm_zero in Hzero.
    pose proof (time_filter_residual_entry nu tau s n i d cur prev pp
                  Hcur Hprev Hpp) as He.
    assert (Hin : In (Doc.filter_residual nu tau cur prev pp)
                     (ravel (filter_error_array nu tau s))).
    { apply in_ravel. exists n, i, d. exact He. }
    apply list_elem_of_In in Hin.
    pose proof (proj1 (Forall_forall _ _) Hzero _ Hin) as H0.
    apply (filter_residual_zero_inv nu tau); auto.
  - apply time_filter_error_zero_intro; assumption.
Qed.

Lemma time_filter_error_zero_iff_witness :
  store_ok (Sample.store1 5 3 2) /\ (2 : R) <> -1 /\ (0.5 : R) <> 0 /\
  get_time_filter_error 0.5 2 (Sample.store1 5 3 2) = 0.
Proof.
  assert (H2 : (2 : R) <> -1) by lra.
  assert (H3 : (0.5 : R) <> 0) by lra.
  split; [apply store1_ok|]. split; [exact H2|]. split; [exact H3|].
  apply (proj2 (time_filter_error_zero_iff 0.5 2 (Sample.store1 5 3 2)
                  (store1_ok 5 3 2) H2 H3)).
  intros [|n] [|i] [|d] cur prev pp Hcur Hprev Hpp; try discriminate.
  injection Hcur as <-. injection Hprev as <-. injection Hpp as <-.
  lra.
Defined.


(** All three generations hold the same array after an accepted
    [initial_guess]. *)
Lemma initial_guess_generations_equal (vals : list pyval) (s s' : store) :
  store_ok s -> initial_guess vals s = (s', Ok tt) ->
  forall g g', db_of g s' = db_of g' s'.
Proof.
  intros Hok Hrun g g'.
  destruct (initial_guess_accepted vals s s' Hok Hrun)
    as (Hok' & Hp & Hn & Hd & Hget).
  eapply array3_ext; [apply store_ok_db_of, Hok'
                     | apply store_ok_db_of, Hok' |].
  rewrite Hp, Hn, Hd. intros n i d Hn' Hi Hd'.
  destruct (Hget g n i d Hn' Hi Hd') as (v & c & Hv & Hc & Hg).
  destruct (Hget g' n i d Hn' Hi Hd') as (v' & c' & Hv' & Hc' & Hg').
  congruence.
Qed.

Lemma time_filter_error_equal_generations (nu tau : R) (s : store) :
  store_ok s -> tau <> -1 ->
  (forall g g', db_of g s = db_of g' s) ->
  get_time_filter_error nu tau s = 0.
Proof.
  intros Hok Htau Hsame.
  apply time_filter_error_zero_intro; auto.
  intros n i d cur prev pp Hcur Hprev Hpp.
  rewrite (Hsame Current Previous) in Hcur.
  rewrite (Hsame PrevPrev Previous) in Hpp.
  assert (cur = prev) by congruence. assert (pp = prev) by congruence.
  subst. ring.
Qed.

(** X7.  Right after an accepted [initial_guess], before any solve, the
    three generations hold the same array, so that in exact arithmetic
    the time-filter error is 0 for every [nu] and every [tau <> -1].
    (On doubles [c/(1+tau) - c + tau/(1+tau)*c] is only the rounding
    error of its terms.) *)
Theorem time_filter_error_after_initial_guess (vals : list pyval)
    (nu tau : R) (s s' : store) :
  store_ok s -> tau <> -1 ->
  initial_guess vals s = (s', Ok tt) ->
  get_time_filter_error nu tau s' = 0.
Proof.
  intros Hok Htau Hrun.
  apply time_filter_error_equal_generations; auto.
  - exact (proj1 (initial_guess_accepted vals s s' Hok Hrun)).
  - exact (initial_guess_generations_equal vals s s' Hok Hrun).
Qed.

Lemma time_filter_error_after_initial_guess_witness :
  store_ok Sample.store2 /\ (2 : R) <> -1 /\
  exists s', initial_guess [] Sample.store2 = (s', Ok tt) /\
             get_time_filter_error 0.3 2 s' = 0.
Proof.
  assert (H1 : (2 : R) <> -1) by lra.
  split; [exact store2_ok|]. split; [exact H1|].
  eexists. split; [simpl; reflexivity|].
  exact (time_filter_error_after_initial_guess [] 0.3 2 Sample.store2 _
           store2_ok H1 eq_refl).
Defined.

End TimeFilterProperties.

(** ** [initial_guess] and [advance_problem] together *)

Section StoreProperties.

Import ExplicitCoupling.

Lemma initial_guess_loop_app (l1 l2 : list pyval) :
  forall (i : nat) (s : store),
    initial_guess_loop i (l1 ++ l2) s
    = match initial_guess_loop i l1 s with
      | (s', Ok _) => initial_guess_loop (i + length l1) l2 s'
      | (s', Raise e) => (s', Raise e)
      end.
Proof.
  induction l1 as [|v l1 IH]; intros i s; simpl.
  - now rewrite Nat.add_0_r.
  - destruct (initial_guess_step i v s) as [s' [[]|e]]; [|reflexivity].
    rewrite IH. now replace (S i + length l1)%nat with (i + S (length l1))%nat
      by lia.
Qed.

(** X8.  A value that is neither a float nor a [Constant] makes
    [initial_guess] raise the type assertion at its place in the list,
    after the materials before it have been overwritten in all three
    generations: they hold their new values, the materials from the
    offending one on hold what they held before the call. *)
Theorem initial_guess_type_error_is_partial
    (good : list pyval) (z : Z) (rest : list pyval) (s : store) :
  store_ok s -> all_float good ->
  length (good ++ PyInt z :: rest) = length (particles s) ->
  exists s',
    initial_guess (good ++ PyInt z :: rest) s
    = (s', Raise (AssertionError "Initial Concentration must be of type Float")) /\
    forall (g : generation) (n i d : nat),
      (n < nodes s)%nat -> (i < length (particles s))%nat ->
      (d < n_dofs s)%nat ->
      ((length good <= i)%nat ->
         get3 (db_of g s') n i d = get3 (db_of g s) n i d) /\
      (forall v, good !! i = Some v ->
         exists c, as_float v = Ok c /\ get3 (db_of g s') n i d = Some c).
Proof.
  intros Hok Hgood Hlen.
  rewrite length_app in Hlen; simpl in Hlen.
  destruct (initial_guess_loop_accepts good 0%nat s Hok ltac:(lia) Hgood)
    as [s' Hloop].
  destruct (initial_guess_loop_accepted good 0%nat s s' Hok ltac:(lia) Hloop)
    as (Hok' & Hp & Hn & Hd & _ & Hget).
  exists s'. split.
  - unfold initial_guess.
    destruct (good ++ PyInt z :: rest) as [|v0 vs] eqn:Hvals.
    { destruct good; discriminate. }
    unfold py_assert. rewrite bool_decide_eq_true_2.
    2:{ rewrite <- Hvals, length_app. simpl. lia. }
    rewrite <- Hvals, initial_guess_loop_app, Hloop. simpl. reflexivity.
  - intros g n i d Hn' Hi Hd'.
    destruct (Hget g n i d Hn' Hi Hd') as [Hfar Hnear]. split.
    + intros Hge. apply Hfar. right. simpl. lia.
    + intros v Hv. apply Hnear; [lia|]. now rewrite Nat.sub_0_r.
Qed.

Lemma initial_guess_type_error_is_partial_witness :
  store_ok Sample.store2 /\ all_float [PyFloat 1] /\
  length ([PyFloat 1] ++ PyInt 5 :: []) = length (particles Sample.store2) /\
  exists s',
    initial_guess [PyFloat 1; PyInt 5] Sample.store2
    = (s', Raise (AssertionError "Initial Concentration must be of type Float")) /\
    get3 (db_of Current s') 0 0 0 = Some 1 /\
    get3 (db_of Current s') 0 1 0 = Some 16.
Proof.
  assert (Hgood : all_float [PyFloat 1])
    by (repeat constructor; now exists 1).
  split; [exact store2_ok|]. split; [exact Hgood|]. split; [reflexivity|].
  destruct (initial_guess_type_error_is_partial [PyFloat 1] 5 [] Sample.store2
              store2_ok Hgood eq_refl) as (s' & Hrun & Hget).
  exists s'. split; [exact Hrun|]. split.
  - destruct (Hget Current 0%nat 0%nat 0%nat ltac:(simpl; lia)
                   ltac:(simpl; lia) ltac:(simpl; lia)) as [_ Hnear].
    destruct (Hnear (PyFloat 1) eq_refl) as (c & Hc & Hg).
    simpl in Hc. injection Hc as <-. exact Hg.
  - destruct (Hget Current 0%nat 1%nat 0%nat ltac:(simpl; lia)
                   ltac:(simpl; lia) ltac:(simpl; lia)) as [Hfar _].
    rewrite (Hfar ltac:(simpl; lia)). reflexivity.
Defined.

Lemma store_eq (s1 s2 : store) :
  particles s1 = particles s2 -> nodes s1 = nodes s2 ->
  n_dofs s1 = n_dofs s2 ->
  (forall g, db_of g s1 = db_of g s2) -> s1 = s2.
Proof.
  destruct s1, s2; simpl. intros -> -> -> Hdb.
  pose proof (Hdb Current) as H1. pose proof (Hdb Previous) as H0.
  pose proof (Hdb PrevPrev) as H2. simpl in *. congruence.
Qed.

(** X9.  An accepted [initial_guess] erases the history: the store it
    leaves depends only on the list, the materials and the shape of the
    databases, not on what the databases held.  In particular a second
    call with the same list changes nothing. *)
Theorem initial_guess_forgets_contents (vals : list pyval)
    (s1 s2 s1' : store) :
  store_ok s1 -> store_ok s2 ->
  particles s1 = particles s2 -> nodes s1 = nodes s2 ->
  n_dofs s1 = n_dofs s2 ->
  initial_guess vals s1 = (s1', Ok tt) ->
  initial_guess vals s2 = (s1', Ok tt) /\
  initial_guess vals s1' = (s1', Ok tt).
Proof.
  intros Hok1 Hok2 Hp Hn Hd Hrun1.
  destruct (initial_guess_accepted vals s1 s1' Hok1 Hrun1)
    as (Hok1' & Hp1 & Hn1 & Hd1 & Hget1).
  assert (Hgen : forall s, store_ok s -> particles s = particles s1 ->
                           nodes s = nodes s1 -> n_dofs s = n_dofs s1 ->
                           initial_guess vals s = (s1', Ok tt)).
  { intros s Hok Hps Hns Hds.
    assert (Heff : effective_c_s_ini vals s = effective_c_s_ini vals s1).
    { unfold effective_c_s_ini. now rewrite Hps. }
    destruct (proj1 (initial_guess_accepts_iff vals s1 Hok1)
                (ex_intro _ s1' Hrun1)) as [Hlen Hall].
    destruct (proj2 (initial_guess_accepts_iff vals s Hok)) as [s' Hrun].
    { rewrite Heff, Hps. now split. }
    rewrite Hrun. f_equal.
    destruct (initial_guess_accepted vals s s' Hok Hrun)
      as (Hok' & Hp' & Hn' & Hd' & Hget).
    apply store_eq; try congruence.
    intros g. eapply array3_ext; [apply store_ok_db_of, Hok' | |].
    { rewrite Hp', Hn', Hd', Hps, Hns, Hds, <- Hp1, <- Hn1, <- Hd1.
      apply store_ok_db_of, Hok1'. }
    rewrite Hp', Hn', Hd'. intros n i d Hnn Hii Hdd.
    destruct (Hget g n i d Hnn Hii Hdd) as (v & c & Hv & Hc & Hg).
    rewrite Hps, Hns, Hds in *.
    destruct (Hget1 g n i d Hnn Hii Hdd) as (v1 & c1 & Hv1 & Hc1 & Hg1).
    rewrite Heff in Hv. congruence. }
  split.
  - apply Hgen; auto.
  - apply Hgen; auto.
Qed.

Lemma initial_guess_forgets_contents_witness :
  store_ok (Sample.store1 7 8 9) /\ store_ok (Sample.store1 0 0 0) /\
  initial_guess [PyFloat 4] (Sample.store1 7 8 9)
  = (Sample.store1 4 4 4, Ok tt) /\
  initial_guess [PyFloat 4] (Sample.store1 0 0 0)
  = (Sample.store1 4 4 4, Ok tt) /\
  initial_guess [PyFloat 4] (Sample.store1 4 4 4)
  = (Sample.store1 4 4 4, Ok tt).
Proof.
  split; [apply store1_ok|]. split; [apply store1_ok|].
  split; [reflexivity|].
  exact (initial_guess_forgets_contents [PyFloat 4] (Sample.store1 7 8 9)
           (Sample.store1 0 0 0) (Sample.store1 4 4 4)
           (store1_ok 7 8 9) (store1_ok 0 0 0) eq_refl eq_refl eq_refl eq_refl).
Defined.

(** A store whose three generations hold one array is left as it is
    by [advance_problem]. *)
Lemma advance_problem_fixed (s : store) :
  store_ok s -> (forall g g', db_of g s = db_of g' s) ->
  advance_problem s = s.
Proof.
  intros Hok Hsame.
  destruct (advance_problem_dbs s Hok) as (H0 & H1 & H2).
  apply store_eq; try reflexivity.
  intros [| |]; cbn [db_of].
  - exact H2.
  - rewrite H0. exact (Hsame Current Previous).
  - rewrite H1. exact (Hsame Previous PrevPrev).
Qed.

(** X10.  Two calls of [advance_problem] with no solve in between leave
    the current generation in all three databases; from then on a
    further call changes nothing. *)
Theorem advance_problem_twice (s : store) :
  store_ok s ->
  (forall g, db_of g (advance_problem (advance_problem s)) = db_of Current s) /\
  advance_problem (advance_problem (advance_problem s))
  = advance_problem (advance_problem s).
Proof.
  intros Hok. set (s2 := advance_problem (advance_problem s)).
  pose proof (advance_problem_ok s Hok) as Hok1.
  pose proof (advance_problem_ok _ Hok1) as Hok2.
  destruct (advance_problem_dbs s Hok) as (Ha0 & Ha1 & Ha2).
  destruct (advance_problem_dbs _ Hok1) as (Hb0 & Hb1 & Hb2).
  assert (Hall : forall g, db_of g s2 = db_of Current s).
  { intros [| |]; unfold s2; cbn [db_of]; congruence. }
  assert (Hsame : forall g g', db_of g s2 = db_of g' s2).
  { intros g g'. now rewrite !Hall. }
  split; [exact Hall|].
  now apply advance_problem_fixed.
Qed.

Lemma advance_problem_twice_witness :
  store_ok Sample.store2 /\
  db_of PrevPrev (advance_problem (advance_problem Sample.store2))
  = db_of Current Sample.store2 /\
  advance_problem (advance_problem (advance_problem Sample.store2))
  = advance_problem (advance_problem Sample.store2).
Proof.
  split; [exact store2_ok|].
  destruct (advance_problem_twice Sample.store2 store2_ok) as (Hall & Hfix).
  split; [exact (Hall PrevPrev) | exact Hfix].
Defined.

End StoreProperties.

(** ** [get_average_c_s] *)

Section AverageProperties.

Import ExplicitCoupling.

Lemma sum_list_bounds (lo hi : R) (v : list R) :
  Forall (fun x => lo <= x <= hi) v ->
  INR (length v) * lo <= sum_list v <= INR (length v) * hi.
Proof.
  induction 1 as [|x v Hx _ IH]; simpl length.
  - unfold sum_list; simpl. lra.
  - rewrite S_INR. unfold sum_list in *. simpl. lra.
Qed.

Lemma mean_bounds (lo hi : R) (v : list R) :
  (0 < length v)%nat -> Forall (fun x => lo <= x <= hi) v ->
  lo <= mean v <= hi.
Proof.
  intros Hlen Hv. unfold mean.
  pose proof (sum_list_bounds lo hi v Hv) as [Hlo Hhi].
  assert (Hn : 0 < INR (length v)) by (apply lt_0_INR; lia).
  split.
  - apply Rmult_le_reg_r with (INR (length v)); [exact Hn|].
    unfold Rdiv. rewrite Rmult_assoc, Rinv_l by lra. lra.
  - apply Rmult_le_reg_r with (INR (length v)); [exact Hn|].
    unfold Rdiv. rewrite Rmult_assoc, Rinv_l by lra. lra.
Qed.

(** X11.  In exact arithmetic the average concentration of a particle
    lies between any two bounds that hold for the values at all its
    dofs: with at least one dof, if every value of node [n] and
    material [i] in the current generation lies in [[lo, hi]], so does
    the entry of [get_average_c_s()] for that node and material.  (On
    doubles the sum and the quotient round, and the entry can leave
    the interval by their rounding error.) *)
Theorem average_within_bounds (s : store) (n i : nat) (material : Material)
    (lo hi : R) :
  store_ok s -> (0 < n_dofs s)%nat -> (n < nodes s)%nat ->
  particles s !! i = Some material ->
  (forall d x, get3 (c_s_1_db s) n i d = Some x -> lo <= x <= hi) ->
  exists avg, get2 (get_average_c_s false s) n i = Some avg /\
              lo <= avg <= hi.
Proof.
  intros Hok Hd Hn Hm Hbound.
  pose proof (lookup_lt_Some _ _ _ Hm) as Hi.
  destruct Hok as (_ & H1 & _).
  destruct (has_shape_lookup _ _ _ _ n i 0%nat H1 Hn Hi Hd)
    as (row & v & x & Hrow & _ & Hv & Hlen & _).
  rewrite (get2_get_average_c_s false s n i row v material Hrow Hv Hm).
  eexists. split; [reflexivity|].
  apply mean_bounds; [lia|].
  apply Forall_lookup. intros d y Hy. apply (Hbound d).
  unfold get3. rewrite Hrow; simpl. rewrite Hv; simpl. exact Hy.
Qed.

Lemma average_within_bounds_witness :
  store_ok Sample.store2 /\ (0 < n_dofs Sample.store2)%nat /\
  (1 < nodes Sample.store2)%nat /\
  particles Sample.store2 !! 0%nat = Some Sample.graphite /\
  exists avg, get2 (get_average_c_s false Sample.store2) 1 0 = Some avg /\
              19 <= avg <= 21.
Proof.
  split; [exact store2_ok|]. split; [simpl; lia|]. split; [simpl; lia|].
  split; [reflexivity|].
  apply (average_within_bounds Sample.store2 1 0 Sample.graphite 19 21
           store2_ok); [simpl; lia | simpl; lia | reflexivity |].
  intros [|[|[|d]]] x Hx; simpl in Hx; try discriminate;
    injection Hx as <-; lra.
Defined.

(** X12.  [get_average_c_s] returns one row per node and one entry per
    material; it reads the current generation only, so
    [advance_problem] does not change it; and the entry with
    [increment=True] is the plain average minus the [c_s_ini] the
    material is configured with. *)
Theorem average_shape_and_increment (increment : bool) (s : store) :
  store_ok s ->
  has_shape2 (nodes s) (length (particles s)) (get_average_c_s increment s) /\
  get_average_c_s increment (advance_problem s) = get_average_c_s increment s /\
  forall (n i : nat) (material : Material) (avg : R),
    particles s !! i = Some material ->
    get2 (get_average_c_s false s) n i = Some avg ->
    get2 (get_average_c_s true s) n i = Some (avg - c_s_ini material).
Proof.
  intros Hok. split; [|split].
  - destruct Hok as (_ & [Hn H1] & _). unfold get_average_c_s. split.
    + now rewrite length_map.
    + apply Forall_fmap. eapply Forall_impl; [exact H1|].
      intros row [Hm _]; simpl. rewrite length_zip_with. lia.
  - destruct (advance_problem_dbs s Hok) as (_ & _ & H1).
    unfold get_average_c_s. now rewrite H1.
  - intros n i material avg Hm. unfold get2, get_average_c_s.
    rewrite !list_lookup_fmap.
    destruct (c_s_1_db s !! n) as [row|]; simpl; [|discriminate].
    rewrite !lookup_zip_with, Hm; simpl.
    destruct (row !! i) as [v|]; simpl; [|discriminate].
    intros H. injection H as <-. reflexivity.
Qed.

Lemma average_shape_and_increment_witness :
  store_ok Sample.store2 /\
  has_shape2 2 2 (get_average_c_s true Sample.store2) /\
  get_average_c_s true (advance_problem Sample.store2)
  = get_average_c_s true Sample.store2.
Proof.
  split; [exact store2_ok|].
  destruct (average_shape_and_increment true Sample.store2 store2_ok)
    as (Hshape & Hadv & _).
  split; [exact Hshape | exact Hadv].
Defined.

End AverageProperties.

(** ** Loss of active material *)

Section LAMProperties.

Import LAM.

Lemma real_pow_nonneg (x y : R) : 0 <= x -> 0 <= real_pow x y.
Proof.
  intros Hx. unfold real_pow.
  destruct (Req_dec_T x 0) as [_|_].
  - destruct (Req_dec_T y 0); lra.
  - left. apply exp_pos.
Qed.

Lemma real_pow_mono (x y p : R) :
  0 < p -> 0 <= x -> x <= y -> real_pow x p <= real_pow y p.
Proof.
  intros Hp Hx Hxy.
  destruct (Req_dec x 0) as [->|Hx0].
  - rewrite (real_pow_0_l p Hp). apply real_pow_nonneg. lra.
  - unfold real_pow.
    destruct (Req_dec_T x 0) as [|_]; [contradiction|].
    destruct (Req_dec_T y 0) as [|_]; [lra|].
    apply Rle_Rpower_l; lra.
Qed.

Lemma div_nonneg (x y : R) : 0 <= x -> 0 < y -> 0 <= x / y.
Proof.
  intros Hx Hy. unfold Rdiv. apply Rmult_le_pos; [exact Hx|].
  left. now apply Rinv_0_lt_compat.
Qed.

Lemma conditional_gt0_nonneg (s : R) : 0 <= conditional_gt0 s.
Proof. unfold conditional_gt0. destruct (Rlt_dec 0 s); lra. Qed.

Lemma conditional_gt0_mono (s t : R) :
  s <= t -> conditional_gt0 s <= conditional_gt0 t.
Proof.
  intros Hst. unfold conditional_gt0.
  destruct (Rlt_dec 0 s), (Rlt_dec 0 t); lra.
Qed.

(** The increment of one material under the stress model. *)
Lemma eps_s_variation_entry (cfg : LAMParams)
    (active_material : list ActiveMaterial) (sigma_h : list R) (delta_t : R)
    (out : list R) (i : nat) (am : ActiveMaterial) (value : R) :
  eps_s_variation cfg active_material sigma_h delta_t = Ok out ->
  active_material !! i = Some am -> out !! i = Some value ->
  (model cfg = "stress"%string ->
   exists s, sigma_h !! i = Some s /\
     value = 0 - delta_t * beta cfg
                 * real_pow (conditional_gt0 s / critical_stress am) (m cfg)) /\
  (model cfg <> "stress"%string -> value = 0).
Proof.
  intros Hrun Ham Hv. unfold eps_s_variation in Hrun.
  destruct (mapM_Ok_lookup _ _ _ i (i, am) Hrun) as (v' & Hv' & Hbody).
  { rewrite list_lookup_imap, Ham. reflexivity. }
  assert (v' = value) as -> by congruence.
  split; intros Hmodel.
  - rewrite Hmodel in Hbody; simpl in Hbody.
    apply bind_Ok_inv in Hbody as (s & Hs & Hbody).
    injection Hbody as <-. exists s. split; [|reflexivity].
    unfold py_index in Hs. destruct (sigma_h !! i); congruence.
  - apply String.eqb_neq in Hmodel. rewrite Hmodel in Hbody.
    now injection Hbody as <-.
Qed.

Lemma eps_s_variation_length (cfg : LAMParams)
    (active_material : list ActiveMaterial) (sigma_h : list R) (delta_t : R)
    (out : list R) :
  eps_s_variation cfg active_material sigma_h delta_t = Ok out ->
  length out = length active_material.
Proof.
  intros Hrun. unfold eps_s_variation in Hrun.
  rewrite (mapM_Ok_length _ _ _ Hrun). apply length_imap.
Qed.



(** X14.  Under the stress model with a positive exponent, a larger
    hydrostatic stress never gives a smaller loss: if the stresses of
    one run are, material by material, at most those of another, the
    increments of the other run are at most those of the first. *)
Theorem eps_s_variation_monotone (cfg : LAMParams)
    (active_material : list ActiveMaterial) (sigma_h sigma_h' : list R)
    (delta_t : R) (out out' : list R) :
  model cfg = "stress"%string -> 0 < m cfg ->
  0 <= delta_t -> 0 <= beta cfg ->
  Forall (fun am => 0 < critical_stress am) active_material ->
  Forall2 Rle sigma_h sigma_h' ->
  eps_s_variation cfg active_material sigma_h delta_t = Ok out ->
  eps_s_variation cfg active_material sigma_h' delta_t = Ok out' ->
  Forall2 (fun value value' => value' <= value) out out'.
Proof.
  intros Hmodel Hm Hdt Hbeta Hcrit Hle Hrun Hrun'.
  pose proof (eps_s_variation_length _ _ _ _ _ Hrun) as Hlen.
  pose proof (eps_s_variation_length _ _ _ _ _ Hrun') as Hlen'.
  apply Forall2_same_length_lookup. split; [congruence|].
  intros i value value' Hv Hv'.
  destruct (lookup_lt_is_Some_2 active_material i) as [am Ham].
  { rewrite <- Hlen. eauto using lookup_lt_Some. }
  destruct (proj1 (eps_s_variation_entry _ _ _ _ _ i am value Hrun Ham Hv)
              Hmodel) as (s & Hs & ->).
  destruct (proj1 (eps_s_variation_entry _ _ _ _ _ i am value' Hrun' Ham Hv')
              Hmodel) as (s' & Hs' & ->).
  pose proof (Forall2_lookup_lr _ _ _ _ _ _ Hle Hs Hs') as Hss.
  pose proof (proj1 (Forall_lookup _ _) Hcrit _ _ Ham) as Hc; simpl in Hc.
  assert (Hq : conditional_gt0 s / critical_stress am
               <= conditional_gt0 s' / critical_stress am).
  { unfold Rdiv. apply Rmult_le_compat_r.
    - left. now apply Rinv_0_lt_compat.
    - now apply conditional_gt0_mono. }
  assert (H0 : 0 <= conditional_gt0 s / critical_stress am).
  { apply div_nonneg; [apply conditional_gt0_nonneg | exact Hc]. }
  pose proof (real_pow_mono _ _ (m cfg) Hm H0 Hq).
  assert (0 <= delta_t * beta cfg) by nra. nra.
Qed.

Lemma eps_s_variation_monotone_witness :
  model Sample.lam_stress = "stress"%string /\ 0 < m Sample.lam_stress /\
  (0 <= 10) /\ 0 <= beta Sample.lam_stress /\
  Forall (fun am => 0 < critical_stress am) [Sample.am_graphite] /\
  Forall2 Rle [60] [120] /\
  exists out out',
    eps_s_variation Sample.lam_stress [Sample.am_graphite] [60] 10 = Ok out /\
    eps_s_variation Sample.lam_stress [Sample.am_graphite] [120] 10 = Ok out' /\
    Forall2 (fun value value' => value' <= value) out out'.
Proof.
  assert (H0 : 0 < m Sample.lam_stress) by (simpl; lra).
  assert (H1 : 0 <= 10) by lra.
  assert (H2 : 0 <= beta Sample.lam_stress) by (simpl; lra).
  assert (H3 : Forall (fun am => 0 < critical_stress am) [Sample.am_graphite])
    by (repeat constructor; simpl; lra).
  assert (H4 : Forall2 Rle [60] [120]) by (repeat constructor; lra).
  split; [reflexivity|]. split; [exact H0|]. split; [exact H1|].
  split; [exact H2|]. split; [exact H3|]. split; [exact H4|].
  eexists. eexists. split; [reflexivity|]. split; [reflexivity|].
  exact (eps_s_variation_monotone Sample.lam_stress [Sample.am_graphite]
           [60] [120] 10 _ _ eq_refl H0 H1 H2 H3 H4 eq_refl eq_refl).
Defined.

End LAMProperties.

Section LAMErrors.

Import LAM.

Lemma mapM_Raise {A B : Type} (g : A -> result B) (l : list A) (i : nat)
    (x : A) (e : exn) :
  l !! i = Some x -> g x = Raise e ->
  (forall j y, (j < i)%nat -> l !! j = Some y -> exists z, g y = Ok z) ->
  mapM g l = Raise e.
Proof.
  revert i. induction l as [|a l IH]; intros i Hx He Hbefore.
  - now rewrite lookup_nil in Hx.
  - destruct i as [|i]; simpl in *.
    + injection Hx as ->. now rewrite He.
    + destruct (Hbefore 0%nat a ltac:(lia) eq_refl) as [z ->]. simpl.
      rewrite (IH i Hx He); [reflexivity|].
      intros j y Hj Hy. apply (Hbefore (S j)); [lia | exact Hy].
Qed.

Lemma mapM_const {A B : Type} (g : A -> result B) (b : B) (l : list A) :
  (forall x, g x = Ok b) -> mapM g l = Ok (replicate (length l) b).
Proof.
  intros Hg. induction l as [|a l IH]; simpl; [reflexivity|].
  now rewrite Hg, IH.
Qed.

(** X15.  With a model other than ['stress'], [eps_s_variation] returns
    one 0 per active material and does not look at the stresses at
    all, so even an empty stress list is accepted; with the stress
    model, a stress list shorter than the list of materials makes it
    raise [IndexError]. *)
Theorem eps_s_variation_reads_stress_only_for_stress_model (cfg : LAMParams)
    (active_material : list ActiveMaterial) (sigma_h : list R) (delta_t : R) :
  (model cfg <> "stress"%string ->
   eps_s_variation cfg active_material sigma_h delta_t
   = Ok (replicate (length active_material) 0)) /\
  (model cfg = "stress"%string ->
   (length sigma_h < length active_material)%nat ->
   eps_s_variation cfg active_material sigma_h delta_t = Raise IndexError).
Proof.
  split.
  - intros Hmodel. apply String.eqb_neq in Hmodel.
    unfold eps_s_variation. rewrite Hmodel.
    rewrite <- (length_imap (fun i am => (i, am)) active_material).
    apply mapM_const. now intros [i am].
  - intros Hmodel Hlen. unfold eps_s_variation. rewrite Hmodel; simpl.
    destruct (lookup_lt_is_Some_2 active_material (length sigma_h) Hlen)
      as [am Ham].
    apply (mapM_Raise _ _ (length sigma_h) (length sigma_h, am)).
    + rewrite list_lookup_imap, Ham. reflexivity.
    + unfold py_index. rewrite (lookup_ge_None_2 sigma_h) by lia. reflexivity.
    + intros j [j' am'] Hj Hy. rewrite list_lookup_imap in Hy.
      destruct (active_material !! j) as [a|]; [|discriminate].
      simpl in Hy. injection Hy as <- <-.
      destruct (lookup_lt_is_Some_2 sigma_h j Hj) as [s Hs].
      rewrite (py_index_Some _ _ _ Hs). simpl. now eexists.
Qed.

(** X16.  [setup] chains [hydrostatic_stress] and [eps_s_variation].
    For materials with positive expansion coefficient and Young
    modulus and a Poisson ratio below 1, under the stress model with a
    positive exponent, a material loses nothing when three times its
    average concentration is at most its surface concentration, and
    loses [delta_t * beta * (sigma_h / critical_stress) ** m] with
    [sigma_h = 2/9 * omega * young / (1 - poisson) * (3 * average - surface)]
    otherwise. *)
Theorem setup_delta_eps_s_sign (cfg : LAMParams)
    (active_material : list ActiveMaterial)
    (c_s_r_average c_s_surf : list R) (delta_t : R) :
  model cfg = "stress"%string -> 0 < m cfg ->
  length c_s_r_average = length active_material ->
  length c_s_surf = length active_material ->
  Forall (fun am => 0 < omega am /\ 0 < young am /\ poisson am < 1 /\
                    critical_stress am <> 0) active_material ->
  exists delta_eps_s,
    setup_delta_eps_s cfg active_material c_s_r_average c_s_surf delta_t
    = Ok delta_eps_s /\
    forall (i : nat) (am : ActiveMaterial) (avg surf : R),
      active_material !! i = Some am ->
      c_s_r_average !! i = Some avg -> c_s_surf !! i = Some surf ->
      exists value,
        delta_eps_s !! i = Some value /\
        (3 * avg <= surf -> value = 0) /\
        (surf < 3 * avg ->
         value = - delta_t * beta cfg
                 * real_pow (2 / 9 * omega am * young am / (1 - poisson am)
                             * (3 * avg - surf) / critical_stress am) (m cfg)).
Proof.
  intros Hmodel Hm Havg Hsurf Ham. unfold setup_delta_eps_s.
  match goal with |- context [hydrostatic_stress ?a ?b ?c] =>
    destruct (mapM_Ok_intro
                (fun '(i, am) =>
                   let! avg := py_index b i in
                   let! surf := py_index c i in
                   Ok (2 / 9 * omega am * young am / (1 - poisson am)
                       * (3 * avg - surf)))
                (imap (fun i am => (i, am)) a)) as [sigma Hsigma] end.
  { apply Forall_lookup. intros i [j am] Hi.
    rewrite list_lookup_imap in Hi.
    destruct (active_material !! i) as [am'|] eqn:Hami; [|discriminate].
    simpl in Hi. injection Hi as <- <-.
    apply lookup_lt_Some in Hami.
    destruct (lookup_lt_is_Some_2 c_s_r_average i ltac:(lia)) as [avg Ha].
    destruct (lookup_lt_is_Some_2 c_s_surf i ltac:(lia)) as [surf Hs].
    rewrite (py_index_Some _ _ _ Ha), (py_index_Some _ _ _ Hs). simpl.
    now eexists. }
  unfold hydrostatic_stress. rewrite Hsigma. cbn [bind].
  assert (Hlen : length sigma = length active_material).
  { rewrite (mapM_Ok_length _ _ _ Hsigma). apply length_imap. }
  unfold eps_s_variation. rewrite Hmodel; simpl.
  match goal with |- context [mapM ?g ?l] =>
    destruct (mapM_Ok_intro g l) as [out Hout] end.
  { apply Forall_lookup. intros i [j am] Hi.
    rewrite list_lookup_imap in Hi.
    destruct (active_material !! i) as [am'|] eqn:Hami; [|discriminate].
    simpl in Hi. injection Hi as <- <-.
    apply lookup_lt_Some in Hami.
    destruct (lookup_lt_is_Some_2 sigma i ltac:(lia)) as [s Hs].
    rewrite (py_index_Some _ _ _ Hs). simpl. now eexists. }
  exists out. split; [exact Hout|].
  intros i am avg surf Hami Ha Hs.
  destruct (mapM_Ok_lookup _ _ _ i (i, am) Hsigma) as (s & Hsi & Hsv).
  { rewrite list_lookup_imap, Hami. reflexivity. }
  rewrite (py_index_Some _ _ _ Ha), (py_index_Some _ _ _ Hs) in Hsv.
  simpl in Hsv. injection Hsv as <-.
  destruct (mapM_Ok_lookup _ _ _ i (i, am) Hout) as (value & Hv & Hbody).
  { rewrite list_lookup_imap, Hami. reflexivity. }
  rewrite (py_index_Some _ _ _ Hsi) in Hbody. simpl in Hbody.
  injection Hbody as <-.
  eexists. split; [exact Hv|].
  destruct (proj1 (Forall_lookup _ _) Ham _ _ Hami) as (Ho & Hy & Hp & Hc).
  assert (Hpre : 0 < 2 / 9 * omega am * young am / (1 - poisson am)).
  { apply Rdiv_lt_0_compat; nra. }
  split.
  - intros Hle. rewrite conditional_gt0_nonpos by nra.
    unfold Rdiv at 1. rewrite Rmult_0_l, (real_pow_0_l _ Hm). ring.
  - intros Hlt. rewrite conditional_gt0_pos by nra. ring.
Qed.

Lemma setup_delta_eps_s_sign_witness :
  model Sample.lam_stress = "stress"%string /\ 0 < m Sample.lam_stress /\
  length [100] = length [Sample.am_graphite] /\
  length [400] = length [Sample.am_graphite] /\
  Forall (fun am => 0 < omega am /\ 0 < young am /\ poisson am < 1 /\
                    critical_stress am <> 0) [Sample.am_graphite] /\
  exists delta_eps_s,
    setup_delta_eps_s Sample.lam_stress [Sample.am_graphite] [100] [400] 10
    = Ok delta_eps_s /\
    delta_eps_s !! 0%nat = Some 0.
Proof.
  assert (H0 : 0 < m Sample.lam_stress) by (simpl; lra).
  assert (H1 : Forall (fun am => 0 < omega am /\ 0 < young am /\
                                 poisson am < 1 /\ critical_stress am <> 0)
                      [Sample.am_graphite])
    by (repeat constructor; simpl; lra).
  split; [reflexivity|]. split; [exact H0|]. split; [reflexivity|].
  split; [reflexivity|]. split; [exact H1|].
  destruct (setup_delta_eps_s_sign Sample.lam_stress [Sample.am_graphite]
              [100] [400] 10 eq_refl H0 eq_refl eq_refl H1)
    as (out & Hrun & Hget).
  exists out. split; [exact Hrun|].
  destruct (Hget 0%nat Sample.am_graphite 100 400 eq_refl eq_refl eq_refl)
    as (v & Hv & Hzero & _).
  rewrite Hv. f_equal. apply Hzero. lra.
Defined.

End LAMErrors.

(** ** SEI current and film growth *)

Section SEIProperties.

Import SEI.





End SEIProperties.

(** ** [build_matrix]: when it returns *)

Section SpectralOperatorsErrors.

Import SEI.

Lemma py_index_Ok_inv {A : Type} (l : list A) (i : nat) (x : A) :
  py_index l i = Ok x -> l !! i = Some x.
Proof. unfold py_index. destruct (l !! i); congruence. Qed.

Lemma polyval_Ok_inv (x : R) (c : poly) (v : R) :
  polyval x c = Ok v -> c <> [].
Proof. destruct c; simpl; congruence. Qed.

Lemma polymul_Ok_inv (c1 c2 p : poly) :
  polymul c1 c2 = Ok p -> c1 <> [] /\ c2 <> [].
Proof. destruct c1, c2; simpl; try discriminate. split; discriminate. Qed.

Lemma entries_Ok_covers (order : Z) (b : Basis) (i j : nat) :
  basis_covers order b ->
  (i < Z.to_nat (order + 1))%nat -> (j < Z.to_nat (order + 1))%nat ->
  exists e, entries b i j = Ok e.
Proof.
  intros Hb Hi Hj.
  destruct (Hb i Hi)
    as (fi & dfi & xdfi & Hfi & Hdfi & Hxdfi & Hfin & Hdfin & Hxdfin).
  destruct (Hb j Hj)
    as (fj & dfj & xdfj & Hfj & Hdfj & _ & Hfjn & Hdfjn & _).
  pose proof (product_nonempty fi fj Hfin Hfjn) as Hff.
  pose proof (product_nonempty dfi fj Hdfin Hfjn) as Hdf.
  pose proof (product_nonempty xdfi fj Hxdfin Hfjn) as Hxf.
  pose proof (product_nonempty dfi dfj Hdfin Hdfjn) as Hdd.
  unfold entries.
  rewrite (py_index_Some _ _ _ Hfi), (py_index_Some _ _ _ Hfj),
    (py_index_Some _ _ _ Hdfi), (py_index_Some _ _ _ Hxdfi),
    (py_index_Some _ _ _ Hdfj).
  cbn [bind].
  rewrite (polymul_Ok fi fj Hfin Hfjn), (polymul_Ok dfi fj Hdfin Hfjn),
    (polymul_Ok xdfi fj Hxdfin Hfjn), (polymul_Ok dfi dfj Hdfin Hdfjn).
  cbn [bind].
  rewrite (polyint_Ok _ Hff), (polyint_Ok _ Hdf), (polyint_Ok _ Hxf),
    (polyint_Ok _ Hdd).
  rewrite (polyval_Ok 0 _ Hff), (polyval_Ok 1 _ Hdf).
  cbn [bind].
  rewrite (polyval_Ok 1 _ (antiderivative_nonempty _ Hff)),
    (polyval_Ok 1 _ (antiderivative_nonempty _ Hdf)),
    (polyval_Ok 1 _ (antiderivative_nonempty _ Hxf)),
    (polyval_Ok 1 _ (antiderivative_nonempty _ Hdd)).
  cbn [bind]. now eexists.
Qed.

(** What a returning inner loop body has read. *)
Lemma entries_Ok_inv (b : Basis) (i j : nat) (e : Entries) :
  entries b i j = Ok e ->
  exists fi dfi xdfi,
    f b !! i = Some fi /\ df b !! i = Some dfi /\ xdf b !! i = Some xdfi /\
    fi <> [] /\ dfi <> [] /\ xdfi <> [].
Proof.
  unfold entries. intros H.
  apply bind_Ok_inv in H as (fi & Hfi & H).
  apply bind_Ok_inv in H as (fj & Hfj & H).
  apply bind_Ok_inv in H as (p1 & Hp1 & H).
  apply bind_Ok_inv in H as (vJ & _ & H).
  apply bind_Ok_inv in H as (dfi & Hdfi & H).
  apply bind_Ok_inv in H as (p2 & Hp2 & H).
  apply bind_Ok_inv in H as (vH & _ & H).
  apply bind_Ok_inv in H as (p3 & _ & H).
  apply bind_Ok_inv in H as (q3 & _ & H).
  apply bind_Ok_inv in H as (vK & _ & H).
  apply bind_Ok_inv in H as (p4 & _ & H).
  apply bind_Ok_inv in H as (q4 & _ & H).
  apply bind_Ok_inv in H as (vL & _ & H).
  apply bind_Ok_inv in H as (xdfi & Hxdfi & H).
  apply bind_Ok_inv in H as (p5 & Hp5 & H).
  exists fi, dfi, xdfi.
  apply polymul_Ok_inv in Hp1 as [? ?].
  apply polymul_Ok_inv in Hp2 as [? ?].
  apply polymul_Ok_inv in Hp5 as [? ?].
  split_and!; auto using py_index_Ok_inv.
Qed.

(** X19.  For an order that is not negative, [build_matrix] returns
    exactly when the basis holds a non-empty polynomial in [f], [df] and
    [xdf] at every index up to the order; with a basis that is too
    short or holds an empty polynomial it raises. *)
Theorem build_matrix_returns_iff (k : Z) (b : Basis) :
  (0 <= k)%Z ->
  ((exists ops, build_matrix k b = Ok ops) <-> basis_covers k b).
Proof.
  intros Hk. unfold build_matrix.
  rewrite (proj2 (Z.ltb_ge (k + 1) 0)) by lia.
  split.
  - intros [ops Hrun] i Hi.
    apply bind_Ok_inv in Hrun as (rows & Hrows & _).
    destruct (lookup_lt_is_Some_2 (py_range (k + 1)) i) as [x Hx].
    { now rewrite py_range_length. }
    pose proof (py_range_lookup _ _ _ Hx) as [-> _].
    destruct (mapM_Ok_lookup _ _ _ i i Hrows Hx) as (r & _ & Hbody).
    apply bind_Ok_inv in Hbody as (fi & _ & Hbody).
    apply bind_Ok_inv in Hbody as (Pi & _ & Hbody).
    apply bind_Ok_inv in Hbody as (es & Hes & _).
    destruct (lookup_lt_is_Some_2 (py_range (k + 1)) 0) as [y Hy].
    { rewrite py_range_length. lia. }
    pose proof (py_range_lookup _ _ _ Hy) as [-> _].
    destruct (mapM_Ok_lookup _ _ _ 0%nat 0%nat Hes Hy) as (e & _ & He).
    exact (entries_Ok_inv b i 0 e He).
  - intros Hb.
    match goal with |- context [mapM ?g (py_range (k + 1))] =>
      destruct (mapM_Ok_intro g (py_range (k + 1))) as [rows Hrows] end.
    { apply Forall_lookup. intros i x Hx.
      apply py_range_lookup in Hx as [-> Hi].
      destruct (Hb i Hi) as (fi & _ & _ & Hfi & _ & _ & Hfin & _).
      rewrite (py_index_Some _ _ _ Hfi); simpl.
      rewrite (polyval_Ok 0 fi Hfin); simpl.
      match goal with |- context [mapM ?g (py_range (k + 1))] =>
        destruct (mapM_Ok_intro g (py_range (k + 1))) as [es Hes] end.
      { apply Forall_lookup. intros j y Hy.
        apply py_range_lookup in Hy as [-> Hj].
        exact (entries_Ok_covers k b i j Hb Hi Hj). }
      rewrite Hes; simpl. now eexists. }
    rewrite Hrows. simpl. now eexists.
Qed.

Lemma build_matrix_returns_iff_witness :
  (0 <= 1)%Z /\
  (exists ops, build_matrix 1 Sample.basis1 = Ok ops) /\
  build_matrix 1 {| f := []; df := []; xf := []; xdf := [] |}
  = Raise IndexError.
Proof.
  assert (H : (0 <= 1)%Z) by lia.
  split; [exact H|]. split.
  - apply (proj2 (build_matrix_returns_iff 1 Sample.basis1 H)).
    intros [|[|i]] Hi; simpl in Hi; try lia; simpl;
      do 3 eexists; split_and!; try reflexivity; discriminate.
  - reflexivity.
Defined.

End SpectralOperatorsErrors.

(** ** Surface concentration and boundary markers *)

Section SurfaceProperties.

Import ExplicitCoupling.

Lemma mapM_map_Ok {A B : Type} (g : A -> result B) (h : A -> B) (l : list A) :
  (forall i x, l !! i = Some x -> g x = Ok (h x)) ->
  mapM g l = Ok (map h l).
Proof.
  induction l as [|a l IH]; intros Hg; simpl; [reflexivity|].
  rewrite (Hg 0%nat a eq_refl). simpl.
  rewrite IH; [reflexivity|].
  intros i x Hx. exact (Hg (S i) x Hx).
Qed.

(** With one surface dof [k], [c_s_surf] picks entry [k] of every
    vector of the current generation. *)
Lemma c_s_surf_single (k : nat) (s : store) :
  store_ok s -> (k < n_dofs s)%nat ->
  exists out,
    c_s_surf [k] s = Ok out /\
    has_shape2 (nodes s) (length (particles s)) out /\
    forall n i, get2 out n i = get3 (c_s_1_db s) n i k.
Proof.
  intros (_ & [Hn H1] & _) Hk. unfold c_s_surf.
  simpl forallb. rewrite bool_decide_eq_true_2 by exact Hk. simpl andb.
  cbv iota.
  rewrite (mapM_map_Ok _ (fun row => map (fun v => [default 0 (v !! k)]) row)).
  2:{ intros n row Hrow.
      destruct (proj1 (Forall_lookup _ _) H1 _ _ Hrow) as [Hm Hr].
      apply mapM_map_Ok. intros i v Hv.
      pose proof (proj1 (Forall_lookup _ _) Hr _ _ Hv) as Hd. simpl in Hd.
      destruct (lookup_lt_is_Some_2 v k ltac:(lia)) as [x Hx].
      simpl. rewrite (py_index_Some _ _ _ Hx), Hx. reflexivity. }
  cbn [bind].
  rewrite bool_decide_eq_true_2 by (simpl; lia).
  eexists. split; [reflexivity|]. split.
  - split; [now rewrite !length_map|].
    apply Forall_fmap, Forall_fmap. eapply Forall_impl; [exact H1|].
    intros row [Hm _]. simpl.
    rewrite <- Hm. clear. induction row as [|v row IH]; simpl; auto.
  - intros n i. unfold get2, get3.
    rewrite !list_lookup_fmap.
    destruct (c_s_1_db s !! n) as [row|] eqn:Hrow; simpl; [|reflexivity].
    destruct (proj1 (Forall_lookup _ _) H1 _ _ Hrow) as [Hm Hr].
    clear Hrow Hm. revert i.
    induction Hr as [|v row Hv Hr IH]; intros i; simpl.
    + now rewrite !lookup_nil.
    + destruct i as [|i]; simpl.
      * simpl in Hv. destruct (lookup_lt_is_Some_2 v k ltac:(lia)) as [x Hx].
        now rewrite Hx.
      * apply IH.
Qed.

(** X20.  [c_s_surf] needs exactly one surface dof.  With one surface
    dof [k] below the number of dofs it returns an array of shape
    (nodes, materials) whose entries are the values of the current
    generation at dof [k]; with an index that is not below the number of
    dofs it raises [IndexError]; with no surface dof, or more than one,
    and a database that is not empty, the reshape raises [ValueError]. *)
Theorem c_s_surf_needs_one_surface_dof (idx : list nat) (s : store) :
  store_ok s ->
  (forall k, idx = [k] -> (k < n_dofs s)%nat ->
     exists out,
       c_s_surf idx s = Ok out /\
       has_shape2 (nodes s) (length (particles s)) out /\
       forall n i, get2 out n i = get3 (c_s_1_db s) n i k) /\
  (Exists (fun k => (n_dofs s <= k)%nat) idx ->
     c_s_surf idx s = Raise IndexError) /\
  (Forall (fun k => (k < n_dofs s)%nat) idx -> length idx <> 1%nat ->
   (0 < nodes s)%nat -> (0 < length (particles s))%nat ->
     c_s_surf idx s = Raise ValueError).
Proof.
  intros Hok. split; [|split].
  - intros k -> Hk. now apply c_s_surf_single.
  - intros Hex. unfold c_s_surf.
    replace (forallb _ idx) with false; [reflexivity|].
    symmetry. apply not_true_is_false. intros Hall.
    apply Is_true_true, forallb_True in Hall.
    apply Exists_exists in Hex as (k & Hin & Hk).
    pose proof (proj1 (Forall_forall _ _) Hall k Hin) as Hlt.
    apply bool_decide_unpack in Hlt. lia.
  - intros Hall Hlen Hn Hm. unfold c_s_surf.
    replace (forallb _ idx) with true.
    2:{ symmetry. apply Is_true_true, forallb_True.
        eapply Forall_impl; [exact Hall|]. intros k Hk.
        now apply bool_decide_pack. }
    destruct Hok as (_ & [Hn1 H1] & _).
    rewrite (mapM_map_Ok _
               (fun row => map (fun v => map (fun k => default 0 (v !! k)) idx)
                               row)).
    2:{ intros n row Hrow.
        destruct (proj1 (Forall_lookup _ _) H1 _ _ Hrow) as [_ Hr].
        apply mapM_map_Ok. intros i v Hv.
        pose proof (proj1 (Forall_lookup _ _) Hr _ _ Hv) as Hd. simpl in Hd.
        apply mapM_map_Ok. intros j k Hk.
        pose proof (proj1 (Forall_lookup _ _) Hall _ _ Hk) as Hlt.
        simpl in Hlt.
        destruct (lookup_lt_is_Some_2 v k ltac:(lia)) as [x Hx].
        rewrite (py_index_Some _ _ _ Hx), Hx. reflexivity. }
    cbn [bind].
    rewrite bool_decide_eq_false_2; [reflexivity|].
    intros Heq. apply Hlen.
    assert (Hpos : (0 < nodes s * length (particles s))%nat) by nia.
    nia.
Qed.

Lemma c_s_surf_needs_one_surface_dof_witness :
  store_ok Sample.store2 /\
  (exists out, c_s_surf [2%nat] Sample.store2 = Ok out /\
               get2 out 1 0 = Some 21) /\
  c_s_surf [3%nat] Sample.store2 = Raise IndexError /\
  c_s_surf [0%nat; 2%nat] Sample.store2 = Raise ValueError.
Proof.
  split; [exact store2_ok|].
  destruct (c_s_surf_needs_one_surface_dof [2%nat] Sample.store2 store2_ok)
    as (Hone & _ & _).
  destruct (c_s_surf_needs_one_surface_dof [3%nat] Sample.store2 store2_ok)
    as (_ & Hidx & _).
  destruct (c_s_surf_needs_one_surface_dof [0%nat; 2%nat] Sample.store2
              store2_ok) as (_ & _ & Hval).
  split; [|split].
  - destruct (Hone 2%nat eq_refl ltac:(simpl; lia)) as (out & Hrun & _ & Hget).
    exists out. split; [exact Hrun|]. rewrite Hget. reflexivity.
  - apply Hidx. constructor. simpl. lia.
  - apply Hval; simpl; try lia. repeat constructor; simpl; lia.
Defined.

(** X21.  Asked before any solve, [c_s_surf] does not raise: right after
    an accepted [initial_guess] it returns, for every node and
    material, the value the material was filled with. *)
Theorem c_s_surf_after_initial_guess (vals : list pyval) (k : nat)
    (s s' : store) :
  store_ok s -> (k < n_dofs s)%nat ->
  initial_guess vals s = (s', Ok tt) ->
  exists out,
    c_s_surf [k] s' = Ok out /\
    forall n i, (n < nodes s)%nat -> (i < length (particles s))%nat ->
      exists v c, effective_c_s_ini vals s !! i = Some v /\
                  as_float v = Ok c /\ get2 out n i = Some c.
Proof.
  intros Hok Hk Hrun.
  destruct (initial_guess_accepted vals s s' Hok Hrun)
    as (Hok' & Hp & Hn & Hd & Hget).
  destruct (c_s_surf_single k s' Hok' ltac:(lia)) as (out & Hout & _ & Hpick).
  exists out. split; [exact Hout|].
  intros n i Hn' Hi.
  destruct (Hget Current n i k Hn' Hi Hk) as (v & c & Hv & Hc & Hg).
  exists v, c. split_and!; auto. rewrite Hpick. exact Hg.
Qed.

Lemma c_s_surf_after_initial_guess_witness :
  store_ok Sample.store2 /\ (2 < n_dofs Sample.store2)%nat /\
  exists s' out,
    initial_guess [] Sample.store2 = (s', Ok tt) /\
    c_s_surf [2%nat] s' = Ok out /\ get2 out 1 1 = Some 300.
Proof.
  split; [exact store2_ok|]. split; [simpl; lia|].
  eexists.
  destruct (c_s_surf_after_initial_guess [] 2 Sample.store2 _ store2_ok
              ltac:(simpl; lia) eq_refl) as (out & Hout & Hget).
  exists out. split; [reflexivity|]. split; [exact Hout|].
  destruct (Hget 1%nat 1%nat ltac:(simpl; lia) ltac:(simpl; lia))
    as (v & c & Hv & Hc & Hg).
  simpl in Hv. injection Hv as <-. simpl in Hc. injection Hc as <-. exact Hg.
Defined.

(** X22.  With a tolerance between 0 and 1/2, [build_mesh] marks the
    centre of the particle ([x = 0]) with 1 and its surface ([x = 1])
    with 2, leaves every entity that is not on the boundary at 0, and
    no point is inside both [Center] and [Surface]; the marker 2, on
    which the flux term of the particle equation is integrated, is given
    only to boundary points within the tolerance of [x = 1]. *)
Theorem boundary_markers (DOLFIN_EPS : R) :
  0 < DOLFIN_EPS -> DOLFIN_EPS < 1 / 2 ->
  boundary_marker DOLFIN_EPS 0 true = 1%nat /\
  boundary_marker DOLFIN_EPS 1 true = 2%nat /\
  (forall x, boundary_marker DOLFIN_EPS x false = 0%nat) /\
  (forall x b, Center_inside DOLFIN_EPS x b && Surface_inside DOLFIN_EPS x b
               = false) /\
  (forall x b, boundary_marker DOLFIN_EPS x b = 2%nat ->
               b = true /\ 1 - DOLFIN_EPS < x).
Proof.
  intros Hpos Hhalf.
  unfold boundary_marker, Center_inside, Surface_inside.
  split_and!.
  - destruct (Rgt_dec 0 (1 - DOLFIN_EPS)); [lra|].
    destruct (Rlt_dec 0 (0 + DOLFIN_EPS)); [reflexivity | lra].
  - destruct (Rgt_dec 1 (1 - DOLFIN_EPS)); [reflexivity | lra].
  - intros x.
    destruct (Rgt_dec x (1 - DOLFIN_EPS)), (Rlt_dec x (0 + DOLFIN_EPS));
      reflexivity.
  - intros x b.
    destruct (Rgt_dec x (1 - DOLFIN_EPS)), (Rlt_dec x (0 + DOLFIN_EPS));
      try lra; destruct b; reflexivity.
  - intros x b.
    destruct (Rgt_dec x (1 - DOLFIN_EPS)), (Rlt_dec x (0 + DOLFIN_EPS));
      destruct b; try discriminate; intros _; split; auto; lra.
Qed.

Lemma boundary_markers_witness :
  0 < 0.001 /\ 0.001 < 1 / 2 /\
  boundary_marker 0.001 0 true = 1%nat /\
  boundary_marker 0.001 1 true = 2%nat.
Proof.
  assert (H1 : 0 < 0.001) by lra.
  assert (H2 : 0.001 < 1 / 2) by lra.
  split; [exact H1|]. split; [exact H2|].
  destruct (boundary_markers 0.001 H1 H2) as (Hc & Hs & _).
  split; [exact Hc | exact Hs].
Defined.

End SurfaceProperties.

(** * The warehouse *)

Section WarehouseProperties.

Import Warehouse.

Context {Env V Obj : Type} {problem : Problem Env Obj}.

Local Abbreviation wh := (Warehouse.t Env V Obj).
Local Abbreviation gvar := (Warehouse.GlobalVar Env V).
Local Abbreviation wcell := (Warehouse.cell V).
Local Abbreviation wevent := (Warehouse.event Obj).

Lemma appended_nil (i : nat) (a : list (list wcell)) : appended i [] a = a.
Proof.
  unfold appended. apply list_eq. intros j.
  rewrite list_lookup_imap. destruct (a !! j); reflexivity.
Qed.

Lemma appended_cons (i : nat) (c : wcell) (cs : list wcell)
    (a : list (list wcell)) (l : list wcell) :
  a !! i = Some l ->
  appended (S i) cs (<[i := l ++ [c]]> a) = appended i (c :: cs) a.
Proof.
  intros Hl. unfold appended. apply list_eq. intros j.
  rewrite !list_lookup_imap.
  destruct (decide (j = i)) as [->|Hne].
  - rewrite list_lookup_insert_eq by eauto using lookup_lt_Some.
    rewrite Hl. simpl.
    replace (i - S i)%nat with 0%nat by lia.
    rewrite Nat.sub_diag. simpl.
    destruct (cs !! 0%nat); repeat case_bool_decide; try lia; reflexivity.
  - rewrite list_lookup_insert_ne by congruence.
    destruct (a !! j) as [l'|]; simpl; [|reflexivity].
    destruct (decide (i < j)%nat) as [Hlt|Hge].
    + replace (j - i)%nat with (S (j - S i)) by lia. simpl.
      destruct (cs !! (j - S i)%nat); repeat case_bool_decide; try lia;
        reflexivity.
    + replace (j - S i)%nat with 0%nat by lia.
      replace (j - i)%nat with 0%nat by lia. simpl.
      destruct (cs !! 0%nat); repeat case_bool_decide; try lia; reflexivity.
Qed.

Lemma appended_length (i : nat) (cs : list wcell) (a : list (list wcell)) :
  length (appended i cs a) = length a.
Proof. unfold appended. apply length_imap. Qed.

Lemma set_arrays_set_arrays (a b : list (list wcell)) (w : wh) :
  set_arrays a (set_arrays b w) = set_arrays a w.
Proof. reflexivity. Qed.

(** The loop of [_store_globals] appends one value to each list when
    there are enough lists. *)
Lemma append_values_ok (env : Env) (vars : list (string * gvar)) :
  forall (i : nat) (w : wh),
    (i + length vars <= length (global_var_arrays w))%nat ->
    append_values env i vars w
    = (set_arrays (appended i (map (fun kv => Value (fnc (snd kv) env)) vars)
                            (global_var_arrays w)) w, inl tt).
Proof.
  induction vars as [|[k f] vars IH]; intros i w Hlen; simpl in *.
  - rewrite appended_nil. now destruct w.
  - unfold append_at.
    destruct (lookup_lt_is_Some_2 (global_var_arrays w) i ltac:(lia))
      as [l Hl].
    rewrite Hl. rewrite IH.
    2:{ simpl. rewrite length_insert. lia. }
    simpl. rewrite (appended_cons i _ _ _ l Hl). reflexivity.
Qed.

Lemma _store_globals_ok (env : Env) (time : R) (w : wh) :
  (length (global_vars w) + 1 <= length (global_var_arrays w))%nat ->
  _store_globals env time w
  = (set_arrays (appended 0 (new_cells env time (global_vars w))
                          (global_var_arrays w)) w, inl tt).
Proof.
  intros Hlen. unfold _store_globals, append_at.
  destruct (lookup_lt_is_Some_2 (global_var_arrays w) 0 ltac:(lia)) as [l Hl].
  rewrite Hl. simpl global_vars.
  rewrite append_values_ok.
  2:{ simpl. rewrite length_insert. lia. }
  simpl. unfold new_cells. rewrite (appended_cons 0 _ _ _ l Hl). reflexivity.
Qed.

(** The column a run of calls appends to list [j]. *)
Lemma appended_lookup (cs : list wcell) (a : list (list wcell)) (j : nat) :
  appended 0 cs a !! j
  = (fun l => match cs !! j with Some c => l ++ [c] | None => l end) <$> a !! j.
Proof.
  unfold appended. rewrite list_lookup_imap, Nat.sub_0_r.
  destruct (a !! j); simpl; [|reflexivity].
  destruct (cs !! j); [|reflexivity].
  repeat case_bool_decide; try lia; reflexivity.
Qed.

Lemma internals_app (l1 l2 : list wevent) :
  internals (l1 ++ l2) = internals l1 ++ internals l2.
Proof. unfold internals. apply omap_app. Qed.

Lemma internals_writes (time : R) (vs : list Obj) :
  forall fs : list string,
    internals (zip_with (fun v fout => Write fout v time) vs fs) = [].
Proof.
  induction vs as [|v vs IH]; intros [|f fs]; simpl; auto.
Qed.

Lemma unchanged_refl (w : wh) : unchanged w w.
Proof. unfold unchanged. auto 10. Qed.

Lemma unchanged_trans (w1 w2 w3 : wh) :
  unchanged w1 w2 -> unchanged w2 w3 -> unchanged w1 w3.
Proof. unfold unchanged. intuition congruence. Qed.

(** The loop of [_store_internals] returns when every registered
    variable fits, and raises the assertion of [_store_var] otherwise;
    it touches the log only. *)
Lemma store_vars_spec (env : Env) (time : R) (fv : list (string * storage)) :
  forall w : wh,
    exists w',
      unchanged w w' /\ internals (log w') = internals (log w) /\
      ((fits env fv /\ store_vars env time fv w = (w', inl tt)) \/
       (~ fits env fv /\
        store_vars env time fv w
        = (w', inr (Builtin (AssertionError
                               "Specified variable length does not match"))))).
Proof.
  induction fv as [|[name st] fv IH]; intros w.
  - exists w. split; [apply unchanged_refl|]. split; [reflexivity|].
    left. split; [constructor | reflexivity].
  - simpl. destruct (stored_variable env name) as [var|] eqn:Hvar.
    + unfold _store_var.
      destruct (bool_decide (length (elements var) = length (files name st)))
        eqn:Hb.
      * apply bool_decide_eq_true in Hb.
        destruct (IH (add_events
                        (zip_with (fun v fout => Write fout v time)
                                  (elements var) (files name st)) w))
          as (w' & Hsame & Hint & Hres).
        exists w'. split.
        { eapply unchanged_trans; [|exact Hsame]. unfold unchanged. simpl.
          auto 10. }
        split.
        { rewrite Hint. simpl. rewrite internals_app, internals_writes.
          now rewrite app_nil_r. }
        destruct Hres as [[Hfit Hrun] | [Hnfit Hrun]].
        -- left. split; [|exact Hrun]. constructor; [|exact Hfit].
           simpl. intros var' Hvar'. congruence.
        -- right. split; [|exact Hrun]. intros Hfit. apply Hnfit.
           now inversion Hfit.
      * apply bool_decide_eq_false in Hb.
        exists w. split; [apply unchanged_refl|]. split; [reflexivity|].
        right. split; [|reflexivity]. intros Hfit.
        inversion Hfit as [|? ? Hhead _]. apply Hb. now apply Hhead.
    + destruct (IH w) as (w' & Hsame & Hint & Hres).
      exists w'. split; [exact Hsame|]. split; [exact Hint|].
      destruct Hres as [[Hfit Hrun] | [Hnfit Hrun]].
      * left. split; [|exact Hrun]. constructor; [|exact Hfit].
        simpl. intros var' Hvar'. congruence.
      * right. split; [|exact Hrun]. intros Hfit. apply Hnfit.
        now inversion Hfit.
Qed.

(** [_store_internals] records its entry, then raises for a missing
    attribute or runs the loop. *)
Lemma _store_internals_spec (env : Env) (time : R) (w : wh) :
  exists w',
    unchanged w w' /\ internals (log w') = internals (log w) ++ [time] /\
    match field_vars w with
    | None => _store_internals env time w = (w', inr (AttributeError "field_vars"))
    | Some fv =>
      (fits env fv /\ _store_internals env time w = (w', inl tt)) \/
      (~ fits env fv /\
       _store_internals env time w
       = (w', inr (Builtin (AssertionError
                              "Specified variable length does not match"))))
    end.
Proof.
  unfold _store_internals. simpl field_vars.
  destruct (field_vars w) as [fv|] eqn:Hfv.
  - destruct (store_vars_spec env time fv (add_event (Internals time) w))
      as (w' & Hsame & Hint & Hres).
    exists w'. split.
    { eapply unchanged_trans; [|exact Hsame]. unfold unchanged. simpl. auto 10. }
    split; [|exact Hres].
    rewrite Hint. simpl. rewrite internals_app. reflexivity.
  - exists (add_event (Internals time) w).
    split; [unfold unchanged; simpl; auto 10|].
    split; [|reflexivity]. simpl. rewrite internals_app. reflexivity.
Qed.

(** The state in which [store] reaches the test of the path: the
    globals are recorded and the full-order store was called. *)
Lemma store_globals_step (env : Env) (time : R) (force store_fom : bool)
    (w : wh) :
  (length (global_vars w) + 1 <= length (global_var_arrays w))%nat ->
  exists w2 : wh,
    save_path w2 = save_path w /\ delay w2 = delay w /\
    counter w2 = counter w /\ global_vars w2 = global_vars w /\
    global_var_arrays w2
    = appended 0 (new_cells env time (global_vars w)) (global_var_arrays w) /\
    field_vars w2 = field_vars w /\
    internals (log w2) = internals (log w) /\
    store env time force store_fom w
    = match save_path w with
      | None => (w2, inl tt)
      | Some _ =>
        match delay w with
        | DelayList times =>
          if output_due times time (counter w) then
            match _store_internals env time (_post_process w2) with
            | (w, inr e) => (w, inr e)
            | (w, inl _) => (set_counter time w, inl tt)
            end
          else (set_counter time w2, inl tt)
        | DelaySteps d =>
          if Rge_dec (IZR d) 0 then
            if (if Rge_dec (counter w + 1) (IZR d) then true else false)
               || force then
              match _store_internals env time
                      (_post_process (set_counter (counter w + 1) w2)) with
              | (w, inr e) => (w, inr e)
              | (w, inl _) => (set_counter 0 w, inl tt)
              end
            else (set_counter (counter w + 1) w2, inl tt)
          else (w2, inl tt)
        end
      end.
Proof.
  intros Hlen. unfold store.
  rewrite (_store_globals_ok env time w Hlen).
  set (w1 := set_arrays _ w).
  exists (if store_fom then add_event Rom w1 else w1).
  set (w2 := if store_fom then add_event Rom w1 else w1).
  assert (H2 : save_path w2 = save_path w /\ delay w2 = delay w /\
               counter w2 = counter w /\ global_vars w2 = global_vars w /\
               global_var_arrays w2
               = appended 0 (new_cells env time (global_vars w))
                          (global_var_arrays w) /\
               field_vars w2 = field_vars w /\
               internals (log w2) = internals (log w)).
  { unfold w2. destruct store_fom; simpl; split_and!; auto.
    rewrite internals_app. simpl. now rewrite app_nil_r. }
  destruct H2 as (Hp & Hd & Hc & Hv & Ha & Hf & Hl).
  split_and!; auto.
  rewrite Hp, Hd. simpl counter. rewrite Hc. reflexivity.
Qed.

Lemma ready_cons (env : Env) (envs : list Env) (w : wh) :
  ready (env :: envs) w -> ready [env] w /\ ready envs w.
Proof.
  intros [Hlen [Hnone | (fv & Hfv & Hfits)]].
  - split; (split; [exact Hlen | now left]).
  - inversion Hfits as [|? ? Hfit Hrest]; subst.
    split; (split; [exact Hlen | right; exists fv; split; [exact Hfv|]]).
    + repeat constructor. exact Hfit.
    + exact Hrest.
Qed.

Lemma ready_transfer (envs : list Env) (w w' : wh) :
  ready envs w ->
  length (global_var_arrays w') = length (global_var_arrays w) ->
  global_vars w' = global_vars w -> save_path w' = save_path w ->
  field_vars w' = field_vars w -> ready envs w'.
Proof.
  intros [Hlen Hfv] Ha Hv Hp Hf. split; [congruence|].
  rewrite Hp, Hf. exact Hfv.
Qed.

(** What [_store_internals] does on a warehouse whose registered
    variables fit the problem. *)
Lemma _store_internals_fits (env : Env) (time : R) (w : wh)
    (fv : list (string * storage)) :
  field_vars w = Some fv -> fits env fv ->
  exists w',
    _store_internals env time w = (w', inl tt) /\
    unchanged w w' /\ internals (log w') = internals (log w) ++ [time].
Proof.
  intros Hfv Hfit.
  destruct (_store_internals_spec env time w) as (w' & Hsame & Hint & Hres).
  rewrite Hfv in Hres. destruct Hres as [[_ Hrun] | [Hn _]]; [|contradiction].
  now exists w'.
Qed.

Lemma store_ready (env : Env) (time : R) (force store_fom : bool) (w : wh) :
  ready [env] w ->
  exists w',
    store env time force store_fom w = (w', inl tt) /\
    global_var_arrays w'
    = appended 0 (new_cells env time (global_vars w)) (global_var_arrays w) /\
    global_vars w' = global_vars w /\ save_path w' = save_path w /\
    field_vars w' = field_vars w /\ delay w' = delay w.
Proof.
  intros [Hlen Hfv].
  destruct (store_globals_step env time force store_fom w ltac:(lia))
    as (w2 & Hp & Hd & Hc & Hv & Ha & Hf & Hl & Hrun).
  rewrite Hrun. clear Hrun.
  destruct (save_path w) as [p|] eqn:Hsp.
  2:{ exists w2. split_and!; auto. }
  destruct Hfv as [Hnone | (fv & Hfvw & Hfits)]; [discriminate|].
  apply Forall_inv in Hfits.
  assert (Hint : forall w3 : wh, unchanged w2 w3 \/ True ->
            field_vars w3 = Some fv ->
            exists w4, _store_internals env time (_post_process w3) = (w4, inl tt) /\
                       unchanged w3 w4).
  { intros w3 _ H3.
    destruct (_store_internals_fits env time (_post_process w3) fv H3 Hfits)
      as (w4 & Hrun & Hsame & _).
    exists w4. split; [exact Hrun|].
    eapply unchanged_trans; [|exact Hsame]. unfold unchanged. simpl. auto 10. }
  destruct (delay w) as [times|d].
  - destruct (output_due times time (counter w)).
    + destruct (Hint w2 (or_intror I) ltac:(congruence))
        as (w4 & -> & Hp4 & Hd4 & Hc4 & Hv4 & Ha4 & Hf4).
      eexists. split; [reflexivity|]. simpl. split_and!; congruence.
    + eexists. split; [reflexivity|]. simpl. split_and!; congruence.
  - destruct (Rge_dec (IZR d) 0).
    + destruct ((if Rge_dec (counter w + 1) (IZR d) then true else false)
                || force).
      * destruct (Hint (set_counter (counter w + 1) w2) (or_intror I)
                       ltac:(simpl; congruence))
          as (w4 & -> & Hp4 & Hd4 & Hc4 & Hv4 & Ha4 & Hf4).
        eexists. split; [reflexivity|]. simpl in *. split_and!; congruence.
      * eexists. split; [reflexivity|]. simpl. split_and!; congruence.
    + eexists. split; [reflexivity|]. split_and!; congruence.
Qed.

Lemma store_all_ready (calls : list (Env * R)) :
  forall w : wh, ready (map fst calls) w ->
    exists w',
      store_all calls w = (w', inl tt) /\
      global_vars w' = global_vars w /\
      forall j l, global_var_arrays w !! j = Some l ->
        global_var_arrays w' !! j
        = Some (l ++ omap (fun c => new_cells (fst c) (snd c) (global_vars w) !! j)
                          calls).
Proof.
  induction calls as [|[env time] calls IH]; intros w Hr; simpl.
  - exists w. split_and!; auto. intros j l Hl. now rewrite app_nil_r.
  - simpl in Hr. apply ready_cons in Hr as [Hr1 Hrs].
    destruct (store_ready env time false true w Hr1)
      as (w1 & Hrun & Ha & Hv & Hp & Hf & _).
    rewrite Hrun.
    destruct (IH w1) as (w' & Hall & Hv' & Hcol).
    { apply (ready_transfer _ w w1 Hrs); auto.
      rewrite Ha. apply appended_length. }
    exists w'. split; [exact Hall|]. split; [congruence|].
    intros j l Hl.
    rewrite (Hcol j (match new_cells env time (global_vars w) !! j with
                     | Some c => l ++ [c] | None => l end)).
    2:{ rewrite Ha, appended_lookup, Hl. reflexivity. }
    rewrite Hv. f_equal.
    destruct (new_cells env time (global_vars w) !! j); simpl.
    + now rewrite <- app_assoc.
    + reflexivity.
Qed.

Lemma find_key_NoDup (key : string) (keys : list string) (i start : nat) :
  NoDup keys -> keys !! i = Some key ->
  find_key key keys start = Some (start + i)%nat.
Proof.
  revert i start. induction keys as [|k keys IH]; intros i start Hnd Hi.
  - now rewrite lookup_nil in Hi.
  - apply NoDup_cons in Hnd as [Hk Hnd]. simpl.
    destruct i as [|i]; simpl in Hi.
    + injection Hi as ->. rewrite String.eqb_refl. f_equal. lia.
    + destruct (String.eqb key k) eqn:Heq.
      * apply String.eqb_eq in Heq as ->.
        exfalso. apply Hk. apply list_elem_of_lookup. eauto.
      * rewrite (IH i (S start) Hnd Hi). f_equal. lia.
Qed.

Lemma column_times (vars : list (string * gvar)) (calls : list (Env * R)) :
  omap (fun c => new_cells (fst c) (snd c) vars !! 0%nat) calls
  = map (fun c => Time (snd c)) calls.
Proof.
  induction calls as [|[env time] calls IH]; simpl; [reflexivity|].
  now rewrite <- IH.
Qed.

Lemma column_values (vars : list (string * gvar)) (calls : list (Env * R))
    (i : nat) (key : string) (gv : gvar) :
  vars !! i = Some (key, gv) ->
  omap (fun c => new_cells (fst c) (snd c) vars !! (1 + i)%nat) calls
  = map (fun c => Value (fnc gv (fst c))) calls.
Proof.
  intros Hi. induction calls as [|[env time] calls IH]; simpl; [reflexivity|].
  rewrite list_lookup_fmap, Hi. simpl. f_equal. exact IH.
Qed.

(** X23.  What [store] records can be read back.  After
    [global_variables(params)] with a dictionary that is not empty, a run
    of [store] calls on a warehouse without path, or whose registered
    internal variables fit the problem at every call, returns; every
    list then has one entry per call, [get_global_variable('time')] is
    the list of the times of the calls in order, and
    [get_global_variable(key)] is the list of the values [fnc] gave at
    each call. *)
Theorem stored_globals_round_trip (params : list (string * gvar))
    (calls : list (Env * R)) (w0 : wh) :
  (save_path w0 = None \/
   exists fv, field_vars w0 = Some fv /\
              Forall (fun env => fits env fv) (map fst calls)) ->
  NoDup (map fst params) -> params <> [] ->
  exists w',
    store_all calls (global_variables params w0) = (w', inl tt) /\
    get_global_variable "time" w' = inl (map (fun c => Time (snd c)) calls) /\
    forall i key gv, params !! i = Some (key, gv) -> key <> "time"%string ->
      get_global_variable key w'
      = inl (map (fun c => Value (fnc gv (fst c))) calls).
Proof.
  intros Hfv Hnd Hne.
  assert (Hr : ready (map fst calls) (global_variables params w0)).
  { split; [simpl; now rewrite length_replicate | exact Hfv]. }
  destruct (store_all_ready calls _ Hr) as (w' & Hrun & Hv & Hcol).
  simpl in Hv.
  exists w'. split; [exact Hrun|]. split.
  - unfold get_global_variable. rewrite Hv.
    destruct params as [|p params]; [congruence|]. simpl String.eqb.
    rewrite (Hcol 0%nat []); [|reflexivity].
    rewrite column_times. reflexivity.
  - intros i key gv Hi Hkey. unfold get_global_variable. rewrite Hv.
    destruct params as [|p ps] eqn:Hp; [congruence|]. rewrite <- Hp in *.
    apply String.eqb_neq in Hkey. rewrite Hkey.
    rewrite (find_key_NoDup key (map fst params) i 1 Hnd).
    2:{ rewrite list_lookup_fmap, Hi. reflexivity. }
    rewrite (Hcol (1 + i)%nat []).
    2:{ simpl. apply lookup_replicate_2. apply lookup_lt_Some in Hi.
        rewrite Nat.add_1_r. simpl. lia. }
    simpl global_vars. rewrite (column_values _ _ i key gv Hi). reflexivity.
Qed.

(** X24.  The dictionary of global variables must be set, and not be
    empty, before anything can be read.  On a new warehouse [store]
    raises [IndexError] and changes nothing; [get_global_variable]
    raises an assertion as long as the dictionary is empty, also for
    ['time'] and also after [global_variables({})], although [store]
    then records the times; with a dictionary that is not empty, a name
    that is neither ['time'] nor a key raises an assertion, and
    ['time'] always denotes the list of times, even when a variable has
    that name. *)
Theorem global_variables_must_be_set (sp : option string) (d : delay_t)
    (env : Env) (time : R) (force store_fom : bool) (var : string) :
  store (V := V) env time force store_fom (init sp d)
  = (init sp d, inr (Builtin IndexError)) /\
  (forall w : wh, global_vars w = [] ->
     get_global_variable var w
     = inr (Builtin (AssertionError "Global variables dictionary is empty"))) /\
  (exists w' : wh,
     store env time force store_fom (global_variables [] (init None d))
     = (w', inl tt) /\
     global_var_arrays w' = [[Time time]] /\ global_vars w' = []) /\
  (forall w : wh, global_vars w <> [] -> var <> "time"%string ->
     ~ In var (map fst (global_vars w)) ->
     exists msg, get_global_variable var w
                 = inr (Builtin (AssertionError msg))) /\
  (forall w : wh, global_vars w <> [] ->
     get_global_variable "time" w
     = match global_var_arrays w !! 0%nat with
       | Some a => inl a
       | None => inr (Builtin IndexError)
       end).
Proof.
  split_and!.
  - reflexivity.
  - intros w Hw. unfold get_global_variable. now rewrite Hw.
  - destruct store_fom; eexists; split_and!; reflexivity.
  - intros w Hw Hvar Hnotin. unfold get_global_variable.
    destruct (global_vars w) as [|p ps] eqn:Hg; [congruence|].
    apply String.eqb_neq in Hvar. rewrite Hvar.
    assert (Hfind : forall keys start, ~ In var keys ->
                      find_key var keys start = None).
    { induction keys as [|k keys IH]; intros start Hk; simpl; [reflexivity|].
      destruct (String.eqb var k) eqn:Heq.
      - apply String.eqb_eq in Heq. subst. exfalso. apply Hk. now left.
      - apply IH. intros Hin. apply Hk. now right. }
    rewrite (Hfind _ 1%nat Hnotin). now eexists.
  - intros w Hw. unfold get_global_variable.
    destruct (global_vars w); [congruence|]. reflexivity.
Qed.

(** *** Output every [d]-th step *)

(** One call of [store] with a step delay [d >= 1] on a warehouse with
    a path, when the counter holds the natural number [c < d]. *)
Lemma store_step_delay (d c : nat) (env : Env) (time : R) (w : wh) :
  (c < d)%nat -> ready [env] w -> save_path w <> None ->
  delay w = DelaySteps (Z.of_nat d) -> counter w = INR c ->
  exists w',
    store env time false true w = (w', inl tt) /\
    length (global_var_arrays w') = length (global_var_arrays w) /\
    global_vars w' = global_vars w /\ field_vars w' = field_vars w /\
    save_path w' = save_path w /\ delay w' = delay w /\
    (if decide (S c = d)
     then counter w' = 0 /\
          internals (log w') = internals (log w) ++ [time]
     else counter w' = INR (S c) /\
          internals (log w') = internals (log w)).
Proof.
  intros Hc [Hlen Hfv] Hsp Hd Hcnt.
  destruct Hfv as [Hnone | (fv & Hfvw & Hfits)]; [contradiction|].
  apply Forall_inv in Hfits.
  destruct (store_globals_step env time false true w ltac:(lia))
    as (w2 & Hp & Hd2 & Hc2 & Hv & Ha & Hf & Hl & Hrun).
  rewrite Hrun. clear Hrun.
  destruct (save_path w) as [p|] eqn:Hpath; [|congruence].
  rewrite Hd.
  destruct (Rge_dec (IZR (Z.of_nat d)) 0) as [_|Hneg].
  2:{ exfalso. apply Hneg. apply Rle_ge. apply IZR_le. lia. }
  rewrite Hcnt.
  replace (INR c + 1) with (INR (S c)) by (rewrite S_INR; ring).
  rewrite <- INR_IZR_INZ.
  assert (Hlen2 : length (global_var_arrays w2) = length (global_var_arrays w))
    by (rewrite Ha; apply appended_length).
  destruct (decide (S c = d)) as [Heq|Hne].
  - destruct (Rge_dec (INR (S c)) (INR d)) as [_|Hlt].
    2:{ exfalso. apply Hlt. rewrite Heq. apply Rle_refl. }
    simpl orb. cbv iota.
    destruct (_store_internals_fits env time
                (_post_process (set_counter (INR (S c)) w2)) fv
                ltac:(simpl; congruence) Hfits)
      as (w4 & -> & (Hp4 & Hd4 & Hc4 & Hv4 & Ha4 & Hf4) & Hint).
    simpl in *.
    eexists. split; [reflexivity|]. simpl.
    split_and!; try congruence.
    rewrite Hint, internals_app. simpl. rewrite app_nil_r. congruence.
  - destruct (Rge_dec (INR (S c)) (INR d)) as [Hge|_].
    { exfalso. apply Rge_le, INR_le in Hge. lia. }
    simpl orb. cbv iota.
    eexists. split; [reflexivity|]. simpl. split_and!; congruence.
Qed.

Lemma store_all_step_delay (d : nat) (calls : list (Env * R)) :
  forall (c : nat) (w : wh),
    (c < d)%nat -> ready (map fst calls) w -> save_path w <> None ->
    delay w = DelaySteps (Z.of_nat d) -> counter w = INR c ->
    exists w' new,
      store_all calls w = (w', inl tt) /\
      counter w' = INR ((c + length calls) mod d) /\
      internals (log w') = internals (log w) ++ new /\
      length new = ((c + length calls) / d)%nat /\
      forall k, (k < (c + length calls) / d)%nat ->
        new !! k = snd <$> calls !! ((k + 1) * d - 1 - c)%nat.
Proof.
  induction calls as [|[env time] calls IH]; intros c w Hc Hr Hsp Hd Hcnt.
  - exists w, []. simpl. rewrite Nat.add_0_r.
    rewrite Nat.mod_small, Nat.div_small by lia.
    split_and!; auto; try (now rewrite app_nil_r); intros k Hk; lia.
  - simpl in Hr. apply ready_cons in Hr as [Hr0 Hrs].
    destruct (store_step_delay d c env time w Hc Hr0 Hsp Hd Hcnt)
      as (w1 & Hrun & Ha1 & Hv1 & Hf1 & Hp1 & Hd1 & Hstep).
    assert (Hr1 : ready (map fst calls) w1)
      by (apply (ready_transfer _ w w1 Hrs); auto).
    simpl store_all. rewrite Hrun. simpl length.
    assert (Hsp1 : save_path w1 <> None) by congruence.
    assert (Hdel1 : delay w1 = DelaySteps (Z.of_nat d)) by congruence.
    destruct (decide (S c = d)) as [Heq|Hne].
    + destruct Hstep as [Hc1 Hlog1].
      assert (H0d : (0 < d)%nat) by lia.
      destruct (IH 0%nat w1 H0d Hr1 Hsp1 Hdel1 Hc1)
        as (w' & new & Hall & Hcnt' & Hlog' & Hlen' & Hget').
      simpl in Hcnt', Hlen', Hget'.
      assert (Hsum : (c + S (length calls) = 1 * d + length calls)%nat) by lia.
      exists w', (time :: new). split; [exact Hall|]. split_and!.
      * rewrite Hcnt', Hsum. f_equal.
        rewrite Nat.add_comm, Nat.Div0.mod_add. reflexivity.
      * rewrite Hlog', Hlog1, <- app_assoc. reflexivity.
      * simpl. rewrite Hlen', Hsum, Nat.div_add_l by lia. lia.
      * intros k Hk. rewrite Hsum, Nat.div_add_l in Hk by lia.
        destruct k as [|k].
        -- replace ((0 + 1) * d - 1 - c)%nat with 0%nat by nia. reflexivity.
        -- replace ((S k + 1) * d - 1 - c)%nat with (S ((k + 1) * d - 1 - 0))
             by nia.
           simpl lookup at 1. simpl. apply Hget'. lia.
    + destruct Hstep as [Hc1 Hlog1].
      assert (HSc : (S c < d)%nat) by lia.
      destruct (IH (S c) w1 HSc Hr1 Hsp1 Hdel1 Hc1)
        as (w' & new & Hall & Hcnt' & Hlog' & Hlen' & Hget').
      replace (S c + length calls)%nat with (c + S (length calls))%nat in *
        by lia.
      exists w', new. split; [exact Hall|]. split_and!; auto.
      * congruence.
      * intros k Hk. rewrite (Hget' k Hk).
        assert (S c <= (k + 1) * d - 1)%nat by nia.
        replace ((k + 1) * d - 1 - c)%nat with (S ((k + 1) * d - 1 - S c))
          by lia.
        reflexivity.
Qed.

(** X25.  With a path, a step delay [d >= 1] and registered variables
    that fit the problem at every call, a run of [store] calls
    (without [force]) on a warehouse whose counter is 0 enters
    [_store_internals] at every [d]-th call and at no other: after [n]
    calls it has entered it [n / d] times, the [k]-th time at the time
    of call [k * d], and the counter holds [n mod d]. *)
Theorem store_every_dth_call (d : nat) (calls : list (Env * R)) (w : wh) :
  (1 <= d)%nat -> ready (map fst calls) w -> save_path w <> None ->
  delay w = DelaySteps (Z.of_nat d) -> counter w = 0 ->
  exists w' new,
    store_all calls w = (w', inl tt) /\
    counter w' = INR (length calls mod d) /\
    internals (log w') = internals (log w) ++ new /\
    length new = (length calls / d)%nat /\
    forall k, (k < length calls / d)%nat ->
      new !! k = snd <$> calls !! ((k + 1) * d - 1)%nat.
Proof.
  intros Hd Hr Hsp Hdel Hcnt.
  destruct (store_all_step_delay d calls 0 w ltac:(lia) Hr Hsp Hdel Hcnt)
    as (w' & new & Hall & Hc & Hlog & Hlen & Hget).
  simpl in Hc, Hlen, Hget.
  exists w', new. split_and!; auto.
  intros k Hk. rewrite (Hget k Hk). now rewrite Nat.sub_0_r.
Qed.

(** *** Output at requested times *)

Lemma output_due_spec (times : list R) (time counter : R) :
  counter < time ->
  (output_due times time counter = true <->
   exists k, In k times /\ counter < k <= time).
Proof.
  intros Hlt. unfold output_due. rewrite orb_true_iff, !existsb_exists.
  split.
  - intros [(k & Hin & Hk) | (k & Hin & Hk)]; exists k; split; auto.
    + destruct (Req_dec_T time k); [lra | discriminate].
    + destruct (Rlt_dec k time), (Rgt_dec k counter);
        try discriminate. lra.
  - intros (k & Hin & Hlo & Hhi).
    destruct (Req_dec_T time k) as [Heq|Hne].
    + left. exists k. split; [exact Hin|].
      destruct (Req_dec_T time k); [reflexivity | contradiction].
    + right. exists k. split; [exact Hin|].
      destruct (Rlt_dec k time); [|lra].
      destruct (Rgt_dec k counter); [reflexivity | lra].
Qed.

(** X26.  With a path, a list of output times and registered
    variables that fit the problem, a call of [store] at a time after
    the counter enters [_store_internals] exactly when one of the
    listed times lies after the counter and not after the time of the
    call, so that no listed time is passed over; the counter then
    holds the time of the call, and [force] plays no part. *)
Theorem store_at_listed_times (times : list R) (env : Env) (time : R)
    (force store_fom : bool) (w : wh) :
  ready [env] w -> save_path w <> None -> delay w = DelayList times ->
  counter w < time ->
  exists w',
    store env time force store_fom w = (w', inl tt) /\
    counter w' = time /\
    ((exists k, In k times /\ counter w < k <= time) ->
       internals (log w') = internals (log w) ++ [time]) /\
    (~ (exists k, In k times /\ counter w < k <= time) ->
       internals (log w') = internals (log w)).
Proof.
  intros [Hlen Hfv] Hsp Hd Hlt.
  destruct Hfv as [Hnone | (fv & Hfvw & Hfits)]; [contradiction|].
  apply Forall_inv in Hfits.
  destruct (store_globals_step env time force store_fom w ltac:(lia))
    as (w2 & Hp & Hd2 & Hc2 & Hv & Ha & Hf & Hl & Hrun).
  rewrite Hrun. clear Hrun.
  destruct (save_path w) as [p|]; [|congruence].
  rewrite Hd.
  pose proof (output_due_spec times time (counter w) Hlt) as Hdue.
  destruct (output_due times time (counter w)).
  - destruct (_store_internals_fits env time (_post_process w2) fv
                ltac:(simpl; congruence) Hfits)
      as (w4 & -> & _ & Hint).
    eexists. split; [reflexivity|]. simpl. split; [reflexivity|]. split.
    + intros _. rewrite Hint. simpl. rewrite internals_app. simpl.
      rewrite app_nil_r. congruence.
    + intros Hno. exfalso. apply Hno. now apply Hdue.
  - eexists. split; [reflexivity|]. simpl. split; [reflexivity|]. split.
    + intros Hyes. apply Hdue in Hyes. discriminate.
    + intros _. exact Hl.
Qed.

(** X27.  [store] iterates over the internal variables only after
    [internal_variables] has created them, and writes them only when
    they fit the problem.  On a warehouse with a path and the default
    delay of one step on which [internal_variables] was never called,
    [store] records the globals, advances the counter and then raises
    [AttributeError].  After [internal_variables], whatever it
    returned, the attribute exists, and [store] returns exactly when
    every registered variable that the problem has comes with as many
    objects as files were created for it; otherwise [_store_var]
    raises its assertion, the globals are recorded and the counter is
    advanced and not reset.  Without a path [internal_variables]
    accepts every list of specifications and registers nothing. *)
Theorem store_needs_internal_variables (env : Env) (time : R)
    (force store_fom : bool) (fields : list spec) (w : wh) :
  length (global_var_arrays w) = (length (global_vars w) + 1)%nat ->
  (save_path w <> None -> delay w = DelaySteps 1 -> 0 <= counter w ->
   field_vars w = None ->
   exists w',
     store env time force store_fom w = (w', inr (AttributeError "field_vars")) /\
     global_var_arrays w'
     = appended 0 (new_cells env time (global_vars w)) (global_var_arrays w) /\
     counter w' = counter w + 1) /\
  (save_path w <> None -> delay w = DelaySteps 1 -> 0 <= counter w ->
   exists fv,
     field_vars (fst (internal_variables fields w)) = Some fv /\
     ((exists w', store env time force store_fom
                    (fst (internal_variables fields w)) = (w', inl tt))
      <-> fits env fv) /\
     (~ fits env fv ->
      exists w',
        store env time force store_fom (fst (internal_variables fields w))
        = (w', inr (Builtin (AssertionError
                               "Specified variable length does not match"))) /\
        global_var_arrays w'
        = appended 0 (new_cells env time (global_vars w))
                   (global_var_arrays w) /\
        counter w' = counter w + 1)) /\
  (save_path w = None ->
   internal_variables fields w = (set_field_vars (Some []) w, inl tt)).
Proof.
  intros Hlen.
  assert (Hdue : forall w0 : wh,
            length (global_var_arrays w0) = (length (global_vars w0) + 1)%nat ->
            save_path w0 <> None -> delay w0 = DelaySteps 1 ->
            0 <= counter w0 ->
            exists w2 : wh,
              global_var_arrays w2
              = appended 0 (new_cells env time (global_vars w0))
                         (global_var_arrays w0) /\
              field_vars w2 = field_vars w0 /\
              store env time force store_fom w0
              = match _store_internals env time
                        (_post_process (set_counter (counter w0 + 1) w2)) with
                | (w, inr e) => (w, inr e)
                | (w, inl _) => (set_counter 0 w, inl tt)
                end).
  { intros w0 Hlen0 Hsp Hd Hc.
    destruct (store_globals_step env time force store_fom w0 ltac:(lia))
      as (w2 & Hp & Hd2 & Hc2 & Hv & Ha & Hf & Hl & Hrun).
    exists w2. split; [exact Ha|]. split; [exact Hf|].
    rewrite Hrun. destruct (save_path w0) as [p|]; [|congruence].
    rewrite Hd.
    destruct (Rge_dec 1 0) as [_|Hn]; [|lra].
    destruct (Rge_dec (counter w0 + 1) 1) as [_|Hn]; [|lra].
    reflexivity. }
  split_and!.
  - intros Hsp Hd Hc Hfv.
    destruct (Hdue w Hlen Hsp Hd Hc) as (w2 & Ha & Hf & ->).
    destruct (_store_internals_spec env time
                (_post_process (set_counter (counter w + 1) w2)))
      as (w4 & (Hp4 & Hd4 & Hc4 & Hv4 & Ha4 & Hf4) & _ & Hres).
    simpl in *. rewrite Hf, Hfv in Hres. rewrite Hres.
    exists w4. split; [reflexivity|]. split; congruence.
  - intros Hsp Hd Hc.
    set (w0 := fst (internal_variables fields w)).
    assert (H0 : save_path w0 = save_path w /\ delay w0 = delay w /\
                 counter w0 = counter w /\ global_vars w0 = global_vars w /\
                 global_var_arrays w0 = global_var_arrays w /\
                 exists fv, field_vars w0 = Some fv).
    { unfold w0, internal_variables. simpl save_path.
      destruct (save_path w) as [p|] eqn:Hpath.
      - destruct (register_all fields []) as [d r]. simpl.
        split_and!; eauto.
      - simpl. split_and!; eauto. }
    destruct H0 as (Hp0 & Hd0 & Hc0 & Hv0 & Ha0 & fv & Hfv0).
    exists fv. split; [exact Hfv0|].
    destruct (Hdue w0 ltac:(congruence) ltac:(congruence) ltac:(congruence)
                   ltac:(rewrite Hc0; exact Hc))
      as (w2 & Ha & Hf & Hrun).
    destruct (_store_internals_spec env time
                (_post_process (set_counter (counter w0 + 1) w2)))
      as (w4 & (Hp4 & Hd4 & Hc4 & Hv4 & Ha4 & Hf4) & _ & Hres).
    simpl in Hp4, Hd4, Hc4, Hv4, Ha4, Hf4, Hres.
    rewrite Hf, Hfv0 in Hres.
    split.
    + split.
      * intros [w' Hw']. destruct Hres as [[Hfit _] | [_ Hraise]];
          [exact Hfit|].
        rewrite Hrun, Hraise in Hw'. discriminate.
      * intros Hfit. destruct Hres as [[_ Hok] | [Hn _]]; [|contradiction].
        rewrite Hrun, Hok. now eexists.
    + intros Hnfit. destruct Hres as [[Hfit _] | [_ Hraise]]; [contradiction|].
      rewrite Hrun, Hraise. exists w4. split; [reflexivity|].
      split; congruence.
  - intros Hsp. unfold internal_variables. simpl. now rewrite Hsp.
Qed.

End WarehouseProperties.

Section WarehouseWitnesses.

Import Warehouse WarehouseSample.

#[local] Open Scope string_scope.
#[local] Open Scope list_scope.

Lemma stored_globals_round_trip_witness :
  (save_path (outdir [Name "c_e"] (DelaySteps 1)) = None \/
   exists fv, field_vars (outdir [Name "c_e"] (DelaySteps 1)) = Some fv /\
              Forall (fun env => fits (problem := cell) env fv)
                     (map fst [(tt, 0); (tt, 1)])) /\
  NoDup (map fst [("height", {| fnc := fun _ : unit => 7; header := "h" |})]) /\
  [("height", {| fnc := fun _ : unit => 7; header := "h" |})] <> [] /\
  exists w',
    store_all (problem := cell) [(tt, 0); (tt, 1)]
      (global_variables
         [("height", {| fnc := fun _ : unit => 7; header := "h" |})]
         (outdir [Name "c_e"] (DelaySteps 1))) = (w', inl tt) /\
    get_global_variable "time" w' = inl [Time 0; Time 1] /\
    get_global_variable "height" w' = inl [Value 7; Value 7].
Proof.
  assert (H1 : save_path (outdir [Name "c_e"] (DelaySteps 1)) = None \/
               exists fv,
                 field_vars (outdir [Name "c_e"] (DelaySteps 1)) = Some fv /\
                 Forall (fun env => fits (problem := cell) env fv)
                        (map fst [(tt, 0); (tt, 1)])).
  { right. exists [("c_e", Scalar)]. split; [reflexivity|].
    simpl. repeat constructor; intros var Hvar; injection Hvar as <-;
      reflexivity. }
  assert (H2 : NoDup (map fst
                 [("height", {| fnc := fun _ : unit => 7; header := "h" |})]))
    by (repeat constructor; intros H; inversion H).
  assert (H3 : [("height", {| fnc := fun _ : unit => 7; header := "h" |})]
               <> []) by discriminate.
  split; [exact H1|]. split; [exact H2|]. split; [exact H3|].
  destruct (stored_globals_round_trip (problem := cell)
              [("height", {| fnc := fun _ : unit => 7; header := "h" |})]
              [(tt, 0); (tt, 1)] (outdir [Name "c_e"] (DelaySteps 1))
              H1 H2 H3)
    as (w' & Hrun & Htime & Hval).
  exists w'. split; [exact Hrun|]. split; [exact Htime|].
  apply (Hval 0%nat "height" {| fnc := fun _ : unit => 7; header := "h" |}
              eq_refl).
  discriminate.
Defined.

Lemma outdir_ready (d : delay_t) (envs : list unit) :
  ready (problem := cell) envs (outdir [Name "c_e"] d).
Proof.
  split; [reflexivity|]. right. exists [("c_e", Scalar)].
  split; [reflexivity|]. apply Forall_forall. intros env _.
  repeat constructor; intros var Hvar; injection Hvar as <-; reflexivity.
Defined.

Lemma store_every_dth_call_witness :
  (1 <= 2)%nat /\
  ready (problem := cell) (map fst [(tt, 10); (tt, 20); (tt, 30)])
        (outdir [Name "c_e"] (DelaySteps (Z.of_nat 2))) /\
  save_path (outdir [Name "c_e"] (DelaySteps (Z.of_nat 2))) <> None /\
  delay (outdir [Name "c_e"] (DelaySteps (Z.of_nat 2)))
  = DelaySteps (Z.of_nat 2) /\
  counter (outdir [Name "c_e"] (DelaySteps (Z.of_nat 2))) = 0 /\
  exists w' new,
    store_all (problem := cell) [(tt, 10); (tt, 20); (tt, 30)]
              (outdir [Name "c_e"] (DelaySteps (Z.of_nat 2)))
    = (w', inl tt) /\
    internals (log w') = new /\ new !! 0%nat = Some 20 /\ length new = 1%nat.
Proof.
  assert (H1 : (1 <= 2)%nat) by lia.
  assert (H3 : save_path (outdir [Name "c_e"] (DelaySteps (Z.of_nat 2)))
               <> None) by discriminate.
  split; [exact H1|]. split; [apply outdir_ready|]. split; [exact H3|].
  split; [reflexivity|]. split; [reflexivity|].
  destruct (store_every_dth_call (problem := cell) 2
              [(tt, 10); (tt, 20); (tt, 30)]
              (outdir [Name "c_e"] (DelaySteps (Z.of_nat 2))) H1
              (outdir_ready _ _) H3 eq_refl eq_refl)
    as (w' & new & Hrun & _ & Hlog & Hlen & Hget).
  exists w', new. split; [exact Hrun|]. split; [exact Hlog|].
  split; [|exact Hlen].
  exact (Hget 0%nat ltac:(simpl; lia)).
Defined.

Lemma store_at_listed_times_witness :
  ready (problem := cell) [tt] (outdir [Name "c_e"] (DelayList [1; 2])) /\
  save_path (outdir [Name "c_e"] (DelayList [1; 2])) <> None /\
  delay (outdir [Name "c_e"] (DelayList [1; 2])) = DelayList [1; 2] /\
  counter (outdir [Name "c_e"] (DelayList [1; 2])) < 1.5 /\
  exists w',
    store (problem := cell) tt 1.5 false true
          (outdir [Name "c_e"] (DelayList [1; 2])) = (w', inl tt) /\
    counter w' = 1.5 /\ internals (log w') = [1.5].
Proof.
  assert (H2 : save_path (outdir [Name "c_e"] (DelayList [1; 2])) <> None)
    by discriminate.
  assert (H4 : counter (outdir [Name "c_e"] (DelayList [1; 2])) < 1.5)
    by (simpl; lra).
  split; [apply outdir_ready|]. split; [exact H2|]. split; [reflexivity|].
  split; [exact H4|].
  destruct (store_at_listed_times (problem := cell) [1; 2] tt 1.5 false true
              (outdir [Name "c_e"] (DelayList [1; 2])) (outdir_ready _ _)
              H2 eq_refl H4)
    as (w' & Hrun & Hc & Hyes & _).
  exists w'. split; [exact Hrun|]. split; [exact Hc|].
  apply Hyes. exists 1. split; [now left | simpl; lra].
Defined.

(** A list of three scalars registered under the name of the scalar
    field [x]: [store] raises without a call of [internal_variables],
    and raises the assertion of [_store_var] after it. *)
Lemma store_needs_internal_variables_witness :
  length (global_var_arrays
            (global_variables [] (@init unit R string (Some "out")
                                        (DelaySteps 1))))
  = (length (global_vars
               (global_variables [] (@init unit R string (Some "out")
                                           (DelaySteps 1)))) + 1)%nat /\
  (exists w',
     store (problem := cell) tt 0 false true
       (global_variables [] (@init unit R string (Some "out") (DelaySteps 1)))
     = (w', inr (AttributeError "field_vars")) /\
     counter w' = 0 + 1) /\
  (exists w',
     store (problem := cell) tt 0 false true
       (outdir [Seq "x" [Str "list_of_scalar"; Int 3]] (DelaySteps 1))
     = (w', inr (Builtin (AssertionError
                            "Specified variable length does not match"))) /\
     counter w' = 0 + 1).
Proof.
  split; [reflexivity|].
  destruct (store_needs_internal_variables (problem := cell) tt 0 false true
              [Seq "x" [Str "list_of_scalar"; Int 3]]
              (global_variables [] (@init unit R string (Some "out")
                                          (DelaySteps 1))) eq_refl)
    as (Hattr & Hreg & _).
  split.
  - destruct Hattr as (w' & Hrun & _ & Hc);
      [discriminate | reflexivity | simpl; lra | reflexivity |].
    exists w'. split; [exact Hrun | exact Hc].
  - destruct Hreg as (fv & Hfv & _ & Hraise);
      [discriminate | reflexivity | simpl; lra |].
    vm_compute in Hfv. injection Hfv as <-.
    destruct Hraise as (w' & Hrun & _ & Hc).
    { intros Hfit. inversion Hfit as [|? ? Hhead _].
      specialize (Hhead (One "x of f_1") eq_refl). discriminate Hhead. }
    exists w'. split; [exact Hrun | exact Hc].
Defined.

End WarehouseWitnesses.

(** * Further properties of the SEI fields *)

Section SEIFields.

Import SEI.

(** *** Names *)

Lemma append_inv_head (a s s' : string) :
  (a ++ s)%string = (a ++ s')%string -> s = s'.
Proof.
  induction a as [|c a IH]; simpl; intros H; [exact H|].
  injection H as H. auto.
Qed.

(** A decimal numeral ends where the first underscore stands. *)
Lemma string_of_uint_split (d d' : Decimal.uint) (s s' : string) :
  (NilEmpty.string_of_uint d ++ "_" ++ s)%string
  = (NilEmpty.string_of_uint d' ++ "_" ++ s')%string ->
  d = d' /\ s = s'.
Proof.
  revert d'.
  induction d as [|d IH|d IH|d IH|d IH|d IH|d IH|d IH|d IH|d IH|d IH];
    intros d' H; destruct d'; simpl in H; try discriminate H;
    injection H as H;
    try (apply IH in H as [-> ->]); auto.
Qed.

Lemma format_nat_inj (a b : nat) : format_nat a = format_nat b -> a = b.
Proof.
  unfold format_nat. intros H.
  assert (Hu : Nat.to_uint a = Nat.to_uint b).
  { pose proof (NilEmpty.usu (Nat.to_uint a)) as Ha.
    rewrite H, NilEmpty.usu in Ha. congruence. }
  rewrite <- (Unsigned.of_to a), <- (Unsigned.of_to b). now rewrite Hu.
Qed.

Lemma j_sei_name_inj (d : string) (k k' : nat) :
  j_sei_name d k = j_sei_name d k' -> k = k'.
Proof.
  unfold j_sei_name. simpl. intros H. injection H as H.
  now apply append_inv_head, format_nat_inj in H.
Qed.

Lemma delta_sei_name_inj (d : string) (k k' : nat) :
  delta_sei_name d k = delta_sei_name d k' -> k = k'.
Proof.
  unfold delta_sei_name. simpl. intros H. injection H as H.
  now apply append_inv_head, format_nat_inj in H.
Qed.

Lemma c_EC_name_inj (d : string) (j j' k k' : nat) :
  c_EC_name j d k = c_EC_name j' d k' -> j = j' /\ k = k'.
Proof.
  unfold c_EC_name, format_nat. simpl. intros H. injection H as H.
  apply string_of_uint_split in H as [Hj Hk].
  apply append_inv_head in Hk.
  split; apply format_nat_inj; unfold format_nat; congruence.
Qed.

Lemma j_sei_not_delta (d d' : string) (k k' : nat) :
  j_sei_name d k <> delta_sei_name d' k'.
Proof. unfold j_sei_name, delta_sei_name. simpl. discriminate. Qed.

Lemma j_sei_not_c_EC (d d' : string) (j k k' : nat) :
  j_sei_name d k <> c_EC_name j d' k'.
Proof. unfold j_sei_name, c_EC_name. simpl. discriminate. Qed.

Lemma delta_not_c_EC (d d' : string) (j k k' : nat) :
  delta_sei_name d k <> c_EC_name j d' k'.
Proof. unfold delta_sei_name, c_EC_name. simpl. discriminate. Qed.

(** *** Blocks of equal length *)

Lemma flat_map_length_const {A B : Type} (g : A -> list B) (l : list A)
    (o : nat) :
  Forall (fun a => length (g a) = o) l ->
  length (flat_map g l) = (length l * o)%nat.
Proof.
  induction 1 as [|a l Ha _ IH]; simpl; [reflexivity|].
  rewrite length_app, Ha, IH. lia.
Qed.

Lemma flat_map_lookup_const {A B : Type} (g : A -> list B) (l : list A)
    (o k j : nat) (a : A) :
  Forall (fun a => length (g a) = o) l -> l !! k = Some a -> (j < o)%nat ->
  flat_map g l !! (k * o + j)%nat = g a !! j.
Proof.
  intros Hg. revert k. induction Hg as [|b l Hb _ IH]; intros k Hk Hj.
  - discriminate.
  - destruct k as [|k]; simpl in *.
    + injection Hk as ->. apply lookup_app_l. rewrite Hb. lia.
    + rewrite lookup_app_r by (rewrite Hb; lia). rewrite Hb.
      replace (o + k * o + j - o)%nat with (k * o + j)%nat by lia.
      now apply IH.
Qed.

Lemma concat_length_const {B : Type} (l : list (list B)) (o : nat) :
  Forall (fun row => length row = o) l ->
  length (concat l) = (length l * o)%nat.
Proof.
  intros H. rewrite <- (map_id l) at 1. rewrite <- flat_map_concat_map.
  now apply flat_map_length_const.
Qed.

Lemma concat_lookup_const {B : Type} (l : list (list B)) (o k j : nat)
    (row : list B) :
  Forall (fun row => length row = o) l -> l !! k = Some row -> (j < o)%nat ->
  concat l !! (k * o + j)%nat = row !! j.
Proof.
  intros H Hk Hj. rewrite <- (map_id l). rewrite <- flat_map_concat_map.
  now apply (flat_map_lookup_const (fun r => r) l o k j row).
Qed.

Lemma mapM_Ok_spec {A B : Type} (g : A -> result B) (P : A -> B -> Prop)
    (l : list A) :
  (forall x, x ∈ l -> exists y, g x = Ok y /\ P x y) ->
  exists out, mapM g l = Ok out /\ Forall2 P l out.
Proof.
  induction l as [|x l IH]; intros H.
  - exists []. split; [reflexivity | constructor].
  - destruct (H x) as (y & Hy & HP); [left|].
    destruct IH as (ys & Hys & HF); [intros z Hz; apply H; now right|].
    exists (y :: ys). simpl. rewrite Hy. simpl. rewrite Hys. simpl.
    split; [reflexivity | now constructor].
Qed.

(** *** [tuple_index] *)

Lemma tuple_index_first (x : string) (l : list string) (i : nat) :
  l !! i = Some x -> (forall j, (j < i)%nat -> l !! j <> Some x) ->
  tuple_index x l = Ok i.
Proof.
  revert i. induction l as [|y l IH]; intros i Hi Hfirst; [discriminate|].
  simpl. destruct i as [|i].
  - injection Hi as ->. now rewrite String.eqb_refl.
  - destruct (String.eqb_spec y x) as [->|Hne].
    + exfalso. apply (Hfirst 0%nat); [lia | reflexivity].
    + rewrite (IH i Hi); [reflexivity|].
      intros j Hj. apply (Hfirst (S j)). lia.
Qed.

Lemma tuple_index_absent (x : string) (l : list string) :
  x ∉ l -> tuple_index x l = Raise ValueError.
Proof.
  induction l as [|y l IH]; intros Hx; [reflexivity|].
  simpl. destruct (String.eqb_spec y x) as [->|Hne].
  - exfalso. apply Hx. left.
  - rewrite IH; [reflexivity|]. intros Hin. apply Hx. now right.
Qed.

Lemma tuple_index_in_block (pre fl post : list string) (x : string) (i : nat) :
  x ∉ pre -> NoDup fl -> fl !! i = Some x ->
  tuple_index x (pre ++ fl ++ post) = Ok (length pre + i)%nat.
Proof.
  intros Hpre Hnd Hi. apply tuple_index_first.
  - rewrite lookup_app_r by lia.
    replace (length pre + i - length pre)%nat with i by lia.
    apply lookup_app_l_Some. exact Hi.
  - intros j Hj Hx.
    destruct (decide (j < length pre)%nat) as [Hlt|Hge].
    + rewrite lookup_app_l in Hx by exact Hlt.
      apply Hpre. eapply list_elem_of_lookup_2. exact Hx.
    + rewrite lookup_app_r in Hx by lia.
      assert (Hlt : (j - length pre < length fl)%nat).
      { apply lookup_lt_Some in Hi. lia. }
      rewrite lookup_app_l in Hx by exact Hlt.
      pose proof (proj1 (NoDup_alt fl) Hnd _ _ _ Hx Hi). lia.
Qed.

(** *** The layout of [fields] *)

#[local] Abbreviation names d n o :=
  (map (fun material => j_sei_name d material) (seq 0 n)
   ++ map (fun material => delta_sei_name d material) (seq 0 n)
   ++ flat_map (fun material => map (fun order => c_EC_name order d material)
                                    (seq 0 o))
               (seq 0 n)).

Lemma fields_names (self : SEI_obj) (self_n_mat : Z) (arg : option Z) (nz : Z) :
  fields_n_mat self self_n_mat arg = Ok nz ->
  fields self self_n_mat arg
  = Ok (names (domain self) (Z.to_nat nz) (Z.to_nat (order self))).
Proof.
  intros H. unfold fields. rewrite H. simpl. unfold py_range.
  now rewrite <- app_assoc.
Qed.

Lemma c_EC_block_rows (d : string) (n o : nat) :
  Forall (fun material =>
            length (map (fun order => c_EC_name order d material) (seq 0 o)) = o)
         (seq 0 n).
Proof. apply Forall_forall. intros k _. now rewrite length_map, length_seq. Qed.

Lemma names_length (d : string) (n o : nat) :
  length (names d n o) = (n * (2 + o))%nat.
Proof.
  rewrite !length_app, !length_map, length_seq.
  rewrite (flat_map_length_const _ _ o (c_EC_block_rows d n o)), length_seq.
  lia.
Qed.

Lemma names_j_sei (d : string) (n o k : nat) :
  (k < n)%nat -> names d n o !! k = Some (j_sei_name d k).
Proof.
  intros Hk. rewrite lookup_app_l by (rewrite length_map, length_seq; lia).
  rewrite list_lookup_fmap, lookup_seq_lt by lia. reflexivity.
Qed.

Lemma names_delta_sei (d : string) (n o k : nat) :
  (k < n)%nat -> names d n o !! (n + k)%nat = Some (delta_sei_name d k).
Proof.
  intros Hk. rewrite lookup_app_r by (rewrite length_map, length_seq; lia).
  rewrite length_map, length_seq.
  rewrite lookup_app_l by (rewrite length_map, length_seq; lia).
  replace (n + k - n)%nat with k by lia.
  rewrite list_lookup_fmap, lookup_seq_lt by lia. reflexivity.
Qed.

Lemma names_c_EC (d : string) (n o k j : nat) :
  (k < n)%nat -> (j < o)%nat ->
  names d n o !! (2 * n + k * o + j)%nat = Some (c_EC_name j d k).
Proof.
  intros Hk Hj. rewrite lookup_app_r by (rewrite length_map, length_seq; lia).
  rewrite length_map, length_seq.
  rewrite lookup_app_r by (rewrite length_map, length_seq; lia).
  rewrite length_map, length_seq.
  replace (2 * n + k * o + j - n - n)%nat with (k * o + j)%nat by lia.
  rewrite (flat_map_lookup_const _ _ o k j k (c_EC_block_rows d n o));
    [| now rewrite lookup_seq_lt by lia | exact Hj].
  rewrite list_lookup_fmap, lookup_seq_lt by lia. reflexivity.
Qed.

Lemma names_inv (d : string) (n o i : nat) (x : string) :
  names d n o !! i = Some x ->
  ((i < n)%nat /\ x = j_sei_name d i) \/
  (exists k, (k < n)%nat /\ i = (n + k)%nat /\ x = delta_sei_name d k) \/
  (exists k j, (k < n)%nat /\ (j < o)%nat /\ i = (2 * n + k * o + j)%nat /\
               x = c_EC_name j d k).
Proof.
  intros Hi. pose proof (lookup_lt_Some _ _ _ Hi) as Hlt.
  rewrite names_length in Hlt.
  destruct (decide (i < n)%nat) as [H1|H1].
  { left. split; [exact H1|]. rewrite names_j_sei in Hi by exact H1.
    congruence. }
  destruct (decide (i < 2 * n)%nat) as [H2|H2].
  { right; left. exists (i - n)%nat.
    replace i with (n + (i - n))%nat in Hi by lia.
    rewrite names_delta_sei in Hi by lia.
    split; [lia|]. split; [lia | congruence]. }
  right; right.
  assert (Ho : (0 < o)%nat) by nia.
  pose proof (Nat.div_mod_eq (i - 2 * n) o) as Hdm.
  pose proof (Nat.mod_upper_bound (i - 2 * n) o ltac:(lia)) as Hmod.
  set (k := ((i - 2 * n) / o)%nat) in *.
  set (j := ((i - 2 * n) mod o)%nat) in *.
  assert (Hk : (k < n)%nat) by nia.
  exists k, j.
  replace i with (2 * n + k * o + j)%nat in Hi by lia.
  rewrite names_c_EC in Hi by assumption.
  split; [exact Hk|]. split; [exact Hmod|]. split; [lia | congruence].
Qed.

Lemma names_NoDup (d : string) (n o : nat) : NoDup (names d n o).
Proof.
  apply NoDup_alt. intros i i' x Hi Hi'.
  apply names_inv in Hi as [(H1 & ->) | [(k & Hk & -> & ->) |
                                          (k & j & Hk & Hj & -> & ->)]];
    apply names_inv in Hi' as [(H1' & E) | [(k' & Hk' & -> & E) |
                                             (k' & j' & Hk' & Hj' & -> & E)]].
  - now apply j_sei_name_inj in E.
  - now apply j_sei_not_delta in E.
  - now apply j_sei_not_c_EC in E.
  - symmetry in E. now apply j_sei_not_delta in E.
  - apply delta_sei_name_inj in E. lia.
  - now apply delta_not_c_EC in E.
  - symmetry in E. now apply j_sei_not_c_EC in E.
  - symmetry in E. now apply delta_not_c_EC in E.
  - apply c_EC_name_inj in E as [-> ->]. reflexivity.
Qed.

Lemma shape_functions_length {FS Rs : Type} (self : SEI_obj)
    (mesher : Mesher FS Rs) (nz : Z) (V : option FS) :
  length (shape_functions self mesher nz V)
  = (Z.to_nat nz * (2 + Z.to_nat (order self)))%nat.
Proof.
  unfold shape_functions, py_range.
  rewrite !length_app, !length_map, length_seq.
  rewrite (flat_map_length_const _ _ (Z.to_nat (order self))).
  - rewrite length_seq. lia.
  - apply Forall_forall. intros k _. now rewrite length_map, length_seq.
Qed.

(** X28.  The names [fields] returns are pairwise different and laid
    out in three blocks: the currents of the materials, then their
    thicknesses, then for each material its [order] concentrations.
    [shape_functions] returns as many spaces.  Wherever the problem
    places these names in its tuple of fields, provided no earlier
    field bears the name, [index] finds the first concentration of
    material [k] at the head of its block, so that [c_EC_index + j] is
    the field [c_EC_j] of the same material. *)
Theorem fields_layout (self : SEI_obj) (self_n_mat : Z) (arg : option Z)
    (nz : Z) (n o : nat) :
  fields_n_mat self self_n_mat arg = Ok nz ->
  n = Z.to_nat nz -> o = Z.to_nat (order self) ->
  exists fl,
    fields self self_n_mat arg = Ok fl /\
    length fl = (n * (2 + o))%nat /\
    NoDup fl /\
    (forall (FS Rs : Type) (mesher : Mesher FS Rs) (V : option FS),
       length (shape_functions self mesher nz V) = length fl) /\
    (forall k, (k < n)%nat ->
       fl !! k = Some (j_sei_name (domain self) k) /\
       fl !! (n + k)%nat = Some (delta_sei_name (domain self) k) /\
       forall j, (j < o)%nat ->
         fl !! (2 * n + k * o + j)%nat = Some (c_EC_name j (domain self) k)) /\
    (forall (pre post : list string) (k j : nat),
       (k < n)%nat -> (j < o)%nat ->
       c_EC_name 0 (domain self) k ∉ pre ->
       exists c_EC_index,
         tuple_index (c_EC_name 0 (domain self) k) (pre ++ fl ++ post)
         = Ok c_EC_index /\
         (pre ++ fl ++ post) !! (c_EC_index + j)%nat
         = Some (c_EC_name j (domain self) k)).
Proof.
  intros Hn -> ->. eexists. split; [exact (fields_names _ _ _ _ Hn)|].
  split; [apply names_length|]. split; [apply names_NoDup|].
  split; [|split].
  - intros FS Rs mesher V. now rewrite shape_functions_length, names_length.
  - intros k Hk. split; [now apply names_j_sei|].
    split; [now apply names_delta_sei|]. intros j Hj. now apply names_c_EC.
  - intros pre post k j Hk Hj Hpre.
    exists (length pre + (2 * Z.to_nat nz + k * Z.to_nat (order self) + 0))%nat.
    split.
    + apply tuple_index_in_block; [exact Hpre | apply names_NoDup|].
      apply names_c_EC; [exact Hk | lia].
    + rewrite lookup_app_r by lia.
      match goal with |- _ !! ?i = _ =>
        replace i with (2 * Z.to_nat nz + k * Z.to_nat (order self) + j)%nat
          by lia end.
      apply lookup_app_l_Some. now apply names_c_EC.
Qed.

(** *** The initial weak form *)

Lemma Forall2_rows_length {A B : Type} (P : A -> list B -> Prop)
    (l : list A) (rows : list (list B)) (o : nat) :
  (forall x row, P x row -> length row = o) ->
  Forall2 P l rows -> Forall (fun row => length row = o) rows.
Proof. intros HP. induction 1; constructor; eauto. Qed.

(** X29.  [wf_0] returns one form for each concentration field of
    [fields], in the order of the fields.  When the names of [fields]
    stand anywhere in the tuple of the problem, no earlier field bears
    the name of a first concentration and the order is at least 1, the
    form of the concentration [j] of material [k] is tested with the
    test function of that very field, and its density is the
    difference of the new and the old value of that field: the initial
    problem keeps every concentration at its initial value. *)
Theorem wf_0_one_form_per_c_EC {T : Type} (s : SEI_obj) (m : SLagM_obj)
    (self_n_mat : Z) (arg : option Z) (fl pre post : list string)
    (f_0 f_1 : list R) (test : list T) (n o : nat) :
  fields s self_n_mat arg = Ok fl ->
  fields_n_mat s self_n_mat arg = Ok (Z.of_nat (sl_n_mat m)) ->
  sl_domain m = domain s -> sl_order m = order s ->
  n = sl_n_mat m -> o = Z.to_nat (sl_order m) -> (1 <= o)%nat ->
  (forall k, c_EC_name 0 (domain s) k ∉ pre) ->
  length f_0 = length (pre ++ fl ++ post) ->
  length f_1 = length (pre ++ fl ++ post) ->
  length test = length (pre ++ fl ++ post) ->
  exists forms,
    wf_0 m (pre ++ fl ++ post) f_0 f_1 test = Ok forms /\
    length forms = (n * o)%nat /\
    forall k j, (k < n)%nat -> (j < o)%nat ->
      exists t v0 v1,
        (pre ++ fl ++ post) !! (length pre + 2 * n + k * o + j)%nat
        = Some (c_EC_name j (domain s) k) /\
        test !! (length pre + 2 * n + k * o + j)%nat = Some t /\
        f_0 !! (length pre + 2 * n + k * o + j)%nat = Some v0 /\
        f_1 !! (length pre + 2 * n + k * o + j)%nat = Some v1 /\
        forms !! (k * o + j)%nat = Some [(t, v1 - v0)].
Proof.
  intros Hfl Hn Hd Ho -> -> Ho1 Hpre Hf0 Hf1 Htest.
  rewrite (fields_names _ _ _ _ Hn) in Hfl. injection Hfl as <-.
  rewrite Nat2Z.id, <- Ho, <- Hd in *.
  set (n := sl_n_mat m) in *. set (o := Z.to_nat (sl_order m)) in *.
  set (d := sl_domain m) in *.
  set (L := pre ++ names d n o ++ post) in *.
  assert (HA : forall k j, (k < n)%nat -> (j < o)%nat ->
            L !! (length pre + (2 * n + k * o + j))%nat
            = Some (c_EC_name j d k)).
  { intros k j Hk Hj. unfold L. rewrite lookup_app_r by lia.
    replace (length pre + (2 * n + k * o + j) - length pre)%nat
      with (2 * n + k * o + j)%nat by lia.
    apply lookup_app_l_Some. now apply names_c_EC. }
  assert (HB : forall k, (k < n)%nat ->
            tuple_index (c_EC_name 0 d k) L
            = Ok (length pre + (2 * n + k * o + 0))%nat).
  { intros k Hk. apply tuple_index_in_block;
      [apply Hpre | apply names_NoDup | apply names_c_EC; lia]. }
  assert (HC : forall k j, (k < n)%nat -> (j < o)%nat ->
            exists t v0 v1,
              test !! (length pre + (2 * n + k * o + j))%nat = Some t /\
              f_0 !! (length pre + (2 * n + k * o + j))%nat = Some v0 /\
              f_1 !! (length pre + (2 * n + k * o + j))%nat = Some v1).
  { intros k j Hk Hj. pose proof (lookup_lt_Some _ _ _ (HA k j Hk Hj)) as Hlt.
    destruct (lookup_lt_is_Some_2 test _ ltac:(rewrite Htest; exact Hlt)) as [t Ht].
    destruct (lookup_lt_is_Some_2 f_0 _ ltac:(rewrite Hf0; exact Hlt)) as [v0 Hv0].
    destruct (lookup_lt_is_Some_2 f_1 _ ltac:(rewrite Hf1; exact Hlt)) as [v1 Hv1].
    now exists t, v0, v1. }
  destruct (mapM_Ok_spec
    (fun material =>
       let! c_EC_index := tuple_index (c_EC_name 0 d material) L in
       mapM (fun j =>
               let! v1 := py_index f_1 (c_EC_index + j) in
               let! v0 := py_index f_0 (c_EC_index + j) in
               let! t := py_index test (c_EC_index + j) in
               Ok [(t, v1 - v0)])
            (py_range (sl_order m)))
    (fun k row =>
       Forall2 (fun j y =>
                  exists t v0 v1,
                    test !! (length pre + (2 * n + k * o + j))%nat = Some t /\
                    f_0 !! (length pre + (2 * n + k * o + j))%nat = Some v0 /\
                    f_1 !! (length pre + (2 * n + k * o + j))%nat = Some v1 /\
                    y = [(t, v1 - v0)])
               (seq 0 o) row)
    (seq 0 n)) as (rows & Hrows & HF).
  { intros k Hk. apply elem_of_seq in Hk. rewrite (HB k) by lia. cbn [bind].
    unfold py_range. fold o.
    apply mapM_Ok_spec. intros j Hj. apply elem_of_seq in Hj.
    destruct (HC k j) as (t & v0 & v1 & Ht & Hv0 & Hv1); [lia | lia |].
    replace (length pre + (2 * n + k * o + 0) + j)%nat
      with (length pre + (2 * n + k * o + j))%nat by lia.
    unfold py_index. rewrite Hv1, Hv0, Ht. cbn [bind].
    eexists. split; [reflexivity|]. now exists t, v0, v1. }
  assert (Hlen : Forall (fun row => length row = o) rows).
  { eapply Forall2_rows_length; [|exact HF].
    intros k row Hrow. apply Forall2_length in Hrow.
    now rewrite length_seq in Hrow. }
  exists (concat rows). unfold wf_0. fold d n L. rewrite Hrows. cbn [bind].
  split; [reflexivity|]. split.
  - rewrite (concat_length_const _ o Hlen).
    apply Forall2_length in HF. rewrite length_seq in HF. now rewrite <- HF.
  - intros k j Hk Hj.
    destruct (Forall2_lookup_l _ _ _ k k HF) as (row & Hrow & HP);
      [now rewrite lookup_seq_lt by lia|].
    destruct (Forall2_lookup_l _ _ _ j j HP) as (y & Hy & HQ);
      [now rewrite lookup_seq_lt by lia|].
    destruct HQ as (t & v0 & v1 & Ht & Hv0 & Hv1 & ->).
    exists t, v0, v1.
    replace (length pre + 2 * n + k * o + j)%nat
      with (length pre + (2 * n + k * o + j))%nat by lia.
    split; [now apply HA|]. split; [exact Ht|]. split; [exact Hv0|].
    split; [exact Hv1|].
    rewrite (concat_lookup_const rows o k j row Hlen Hrow Hj). exact Hy.
Qed.

(** X30.  With an order that is not positive [fields] names no
    concentration field, and [wf_0] raises [ValueError] as soon as
    there is one material, unless another field of the problem bears
    the name of its first concentration. *)
Theorem wf_0_needs_positive_order {T : Type} (s : SEI_obj) (m : SLagM_obj)
    (self_n_mat : Z) (arg : option Z) (fl pre post : list string)
    (f_0 f_1 : list R) (test : list T) :
  fields s self_n_mat arg = Ok fl ->
  sl_domain m = domain s -> sl_order m = order s ->
  (order s <= 0)%Z -> (1 <= sl_n_mat m)%nat ->
  c_EC_name 0 (domain s) 0 ∉ pre -> c_EC_name 0 (domain s) 0 ∉ post ->
  (forall x j k, x ∈ fl -> x <> c_EC_name j (domain s) k) /\
  wf_0 m (pre ++ fl ++ post) f_0 f_1 test = Raise ValueError.
Proof.
  intros Hfl Hd Ho Hneg Hmat Hpre Hpost.
  assert (Hnz : exists nz, fields_n_mat s self_n_mat arg = Ok nz).
  { unfold fields in Hfl.
    destruct (fields_n_mat s self_n_mat arg) as [nz|e];
      [now exists nz | discriminate]. }
  destruct Hnz as [nz Hnz].
  rewrite (fields_names _ _ _ _ Hnz) in Hfl. injection Hfl as <-.
  replace (Z.to_nat (order s)) with 0%nat by lia.
  assert (Hno : forall x j k,
            x ∈ names (domain s) (Z.to_nat nz) 0 ->
            x <> c_EC_name j (domain s) k).
  { intros x j k Hx E. apply list_elem_of_lookup in Hx as [i Hi].
    apply names_inv in Hi as [(_ & ->) | [(k' & _ & _ & ->) |
                                           (k' & j' & _ & Hj' & _)]].
    - now apply j_sei_not_c_EC in E.
    - now apply delta_not_c_EC in E.
    - lia. }
  split; [exact Hno|].
  unfold wf_0. rewrite Hd.
  destruct (sl_n_mat m) as [|n']; [lia|]. simpl seq. cbn [mapM].
  rewrite tuple_index_absent; [reflexivity|].
  intros Hin. apply elem_of_app in Hin as [Hin|Hin]; [now apply Hpre|].
  apply elem_of_app in Hin as [Hin|Hin]; [|now apply Hpost].
  now apply (Hno _ 0%nat 0%nat) in Hin.
Qed.

End SEIFields.

Section SEIFieldsWitnesses.

Import SEI SEISample.

#[local] Open Scope string_scope.
#[local] Open Scope list_scope.

Lemma fields_layout_witness :
  exists fl,
    fields (sei_anode 2) 0 (Some 1%Z) = Ok fl /\
    length fl = 4%nat /\
    tuple_index "c_EC_0_a0" (["c_e"; "phi_e"] ++ fl ++ ["phi_s"]) = Ok 4%nat.
Proof.
  destruct (fields_layout (sei_anode 2) 0 (Some 1%Z) 1 1 2
              eq_refl eq_refl eq_refl)
    as (fl & Hfl & Hlen & _ & _ & _ & Hidx).
  exists fl. split; [exact Hfl|]. split; [exact Hlen|].
  destruct (Hidx ["c_e"; "phi_e"] ["phi_s"] 0%nat 0%nat)
    as (i & Hi & Hat); [lia | lia | |].
  - intros Hin. apply elem_of_cons in Hin as [E|Hin]; [discriminate E|].
    apply elem_of_cons in Hin as [E|Hin]; [discriminate E|].
    now apply elem_of_nil in Hin.
  - injection Hfl as <-. vm_compute in Hi. injection Hi as <-. reflexivity.
Defined.

Lemma wf_0_one_form_per_c_EC_witness :
  exists forms,
    wf_0 (slagm_anode 2)
         (["c_e"] ++ ["j_sei_a0"; "delta_sei_a0"; "c_EC_0_a0"; "c_EC_1_a0"]
          ++ ["phi_s"])
         [1; 2; 3; 4; 5; 6] [10; 20; 30; 40; 50; 60]
         ["v_c_e"; "v_j"; "v_delta"; "v_c0"; "v_c1"; "v_phi_s"]
    = Ok forms /\
    length forms = 2%nat.
Proof.
  destruct (wf_0_one_form_per_c_EC (sei_anode 2) (slagm_anode 2) 0 (Some 1%Z)
              ["j_sei_a0"; "delta_sei_a0"; "c_EC_0_a0"; "c_EC_1_a0"]
              ["c_e"] ["phi_s"]
              [1; 2; 3; 4; 5; 6] [10; 20; 30; 40; 50; 60]
              ["v_c_e"; "v_j"; "v_delta"; "v_c0"; "v_c1"; "v_phi_s"]
              1 2 eq_refl eq_refl eq_refl eq_refl eq_refl eq_refl)
    as (forms & Hrun & Hlen & _).
  - simpl. lia.
  - intros k Hin. apply elem_of_cons in Hin as [E|Hin]; [discriminate E|].
    now apply elem_of_nil in Hin.
  - reflexivity.
  - reflexivity.
  - reflexivity.
  - exists forms. split; [exact Hrun | exact Hlen].
Defined.

Lemma wf_0_needs_positive_order_witness :
  wf_0 (slagm_anode 0) (["c_e"] ++ ["j_sei_a0"; "delta_sei_a0"] ++ ["phi_s"])
       [1; 2; 3; 4] [10; 20; 30; 40] ["v_c_e"; "v_j"; "v_delta"; "v_phi_s"]
  = Raise ValueError.
Proof.
  apply (wf_0_needs_positive_order (sei_anode 0) (slagm_anode 0) 0 (Some 1%Z)
           ["j_sei_a0"; "delta_sei_a0"] ["c_e"] ["phi_s"]
           [1; 2; 3; 4] [10; 20; 30; 40]
           ["v_c_e"; "v_j"; "v_delta"; "v_phi_s"]
           eq_refl eq_refl eq_refl).
  - simpl. lia.
  - simpl. lia.
  - intros Hin. apply elem_of_cons in Hin as [E|Hin]; [discriminate E|].
    now apply elem_of_nil in Hin.
  - intros Hin. apply elem_of_cons in Hin as [E|Hin]; [discriminate E|].
    now apply elem_of_nil in Hin.
Defined.

End SEIFieldsWitnesses.
